(** * Satonic API: the auction bidding engine and the broadcast hub

    A shallow embedding of the Go sources

      - internal/models (auction.go, nft.go, user.go): the records;
      - the SQL migration: tables, keys and the [updated_at] triggers;
      - internal/store (database.go, auction_repository.go,
        nft_repository.go, user_repository.go): the repository;
      - internal/services/auction_service.go: [Create], [PlaceBid],
        [FinalizeAuction], [ProcessEndedAuctions];
      - internal/services/wallet_service.go and nft_service.go: the
        placeholders the auctions call, [IsOwnedByUser], [ImportOrdinal];
      - internal/handlers/websocket.go: the hub and [ServeWs];
      - internal/handlers: the user of a request;

    followed by the properties of the bidding engine and of the hub.

    Conventions.  A [time.Time] is an integer instant ([Before] is [<],
    [After] is [>]).  An [int64] amount is an integer: the code only
    compares amounts, it never computes with them.  A Go pointer that may
    be nil ([*int64], [*string]) is an [option].  Everything the code
    obtains from outside (clock readings, driver errors, fresh UUIDs) comes
    from oracles carried by the [World]. *)

From stdpp Require Import gmap strings list sorting pretty.

Open Scope string_scope.
Open Scope Z_scope.

(** ** internal/models *)

Module models.

Definition Time := Z.

(** [type AuctionStatus string] and its four constants. *)
Definition AuctionStatus := string.
Definition AuctionStatusDraft : AuctionStatus := "draft".
Definition AuctionStatusActive : AuctionStatus := "active".
Definition AuctionStatusCompleted : AuctionStatus := "completed".
Definition AuctionStatusCancelled : AuctionStatus := "cancelled".

Record NFT := mkNFT {
  nft_ID : string;
  nft_WalletID : string;
  nft_TokenID : string;
  nft_InscriptionID : string;
  nft_Collection : string;
  nft_Title : string;
  nft_Description : string;
  nft_ImageURL : string;
  nft_ContentURL : string;
  nft_Metadata : string;
  nft_CreatedAt : Time;
  nft_UpdatedAt : Time;
  nft_AuctionID : option string
}.

(** [&models.NFT{}]: the zero value. *)
Definition NFT_zero : NFT :=
  mkNFT "" "" "" "" "" "" "" "" "" "" 0 0 None.

Record Bid := mkBid {
  bid_ID : string;
  bid_AuctionID : string;
  bid_BidderID : string;
  bid_WalletID : string;
  bid_Amount : Z;
  bid_CreatedAt : Time;
  bid_Accepted : bool;
  bid_Signature : option string
}.

Record Auction := mkAuction {
  ID : string;
  NFTID : string;
  SellerWalletID : string;
  StartPrice : Z;
  ReservePrice : option Z;
  BuyNowPrice : option Z;
  CurrentBid : option Z;
  CurrentBidderID : option string;
  StartTime : Time;
  EndTime : Time;
  Status : AuctionStatus;
  PSBT : string;
  CreatedAt : Time;
  UpdatedAt : Time;
  (* filled in by GetByIDWithNFT, not columns of the table *)
  NFT_ : option NFT;
  Bids : list Bid
}.

Record Wallet := mkWallet {
  wallet_ID : string;
  wallet_UserID : string;
  wallet_Address : string;
  wallet_Type : string;
  wallet_CreatedAt : Time;
  wallet_UpdatedAt : Time
}.

Record PlaceBidRequest := mkPlaceBidRequest {
  req_AuctionID : string;
  req_Amount : Z;
  req_WalletID : string
}.

Record FinalizeAuctionRequest := mkFinalizeAuctionRequest {
  fin_AuctionID : string;
  fin_Signature : string
}.

(** Assignments to single fields of a record held through a pointer. *)
Definition set_Status (s : AuctionStatus) (a : Auction) : Auction :=
  mkAuction (ID a) (NFTID a) (SellerWalletID a) (StartPrice a)
    (ReservePrice a) (BuyNowPrice a) (CurrentBid a) (CurrentBidderID a)
    (StartTime a) (EndTime a) s (PSBT a) (CreatedAt a) (UpdatedAt a)
    (NFT_ a) (Bids a).

Definition set_UpdatedAt (t : Time) (a : Auction) : Auction :=
  mkAuction (ID a) (NFTID a) (SellerWalletID a) (StartPrice a)
    (ReservePrice a) (BuyNowPrice a) (CurrentBid a) (CurrentBidderID a)
    (StartTime a) (EndTime a) (Status a) (PSBT a) (CreatedAt a) t
    (NFT_ a) (Bids a).

Definition set_CurrentBid (amount : option Z) (bidder : option string)
    (a : Auction) : Auction :=
  mkAuction (ID a) (NFTID a) (SellerWalletID a) (StartPrice a)
    (ReservePrice a) (BuyNowPrice a) amount bidder
    (StartTime a) (EndTime a) (Status a) (PSBT a) (CreatedAt a) (UpdatedAt a)
    (NFT_ a) (Bids a).

Definition set_NFT (n : option NFT) (a : Auction) : Auction :=
  mkAuction (ID a) (NFTID a) (SellerWalletID a) (StartPrice a)
    (ReservePrice a) (BuyNowPrice a) (CurrentBid a) (CurrentBidderID a)
    (StartTime a) (EndTime a) (Status a) (PSBT a) (CreatedAt a) (UpdatedAt a)
    n (Bids a).

Definition set_Bids (bs : list Bid) (a : Auction) : Auction :=
  mkAuction (ID a) (NFTID a) (SellerWalletID a) (StartPrice a)
    (ReservePrice a) (BuyNowPrice a) (CurrentBid a) (CurrentBidderID a)
    (StartTime a) (EndTime a) (Status a) (PSBT a) (CreatedAt a) (UpdatedAt a)
    (NFT_ a) bs.

Definition set_nft_AuctionID (aid : option string) (n : NFT) : NFT :=
  mkNFT (nft_ID n) (nft_WalletID n) (nft_TokenID n) (nft_InscriptionID n)
    (nft_Collection n) (nft_Title n) (nft_Description n) (nft_ImageURL n)
    (nft_ContentURL n) (nft_Metadata n) (nft_CreatedAt n) (nft_UpdatedAt n)
    aid.

Definition set_nft_UpdatedAt (t : Time) (n : NFT) : NFT :=
  mkNFT (nft_ID n) (nft_WalletID n) (nft_TokenID n) (nft_InscriptionID n)
    (nft_Collection n) (nft_Title n) (nft_Description n) (nft_ImageURL n)
    (nft_ContentURL n) (nft_Metadata n) (nft_CreatedAt n) t
    (nft_AuctionID n).

Definition set_bid_ID (i : string) (b : Bid) : Bid :=
  mkBid i (bid_AuctionID b) (bid_BidderID b) (bid_WalletID b)
    (bid_Amount b) (bid_CreatedAt b) (bid_Accepted b) (bid_Signature b).

Definition set_bid_CreatedAt (t : Time) (b : Bid) : Bid :=
  mkBid (bid_ID b) (bid_AuctionID b) (bid_BidderID b) (bid_WalletID b)
    (bid_Amount b) t (bid_Accepted b) (bid_Signature b).

Record CreateAuctionRequest := mkCreateAuctionRequest {
  car_NFTID : string;
  car_StartPrice : Z;
  car_ReservePrice : option Z;
  car_BuyNowPrice : option Z;
  car_StartTime : Time;
  car_EndTime : Time;
  car_PSBT : string
}.

Definition set_ID (i : string) (a : Auction) : Auction :=
  mkAuction i (NFTID a) (SellerWalletID a) (StartPrice a)
    (ReservePrice a) (BuyNowPrice a) (CurrentBid a) (CurrentBidderID a)
    (StartTime a) (EndTime a) (Status a) (PSBT a) (CreatedAt a) (UpdatedAt a)
    (NFT_ a) (Bids a).

Definition set_CreatedAt (t : Time) (a : Auction) : Auction :=
  mkAuction (ID a) (NFTID a) (SellerWalletID a) (StartPrice a)
    (ReservePrice a) (BuyNowPrice a) (CurrentBid a) (CurrentBidderID a)
    (StartTime a) (EndTime a) (Status a) (PSBT a) t (UpdatedAt a)
    (NFT_ a) (Bids a).

Definition set_nft_ID (i : string) (n : NFT) : NFT :=
  mkNFT i (nft_WalletID n) (nft_TokenID n) (nft_InscriptionID n)
    (nft_Collection n) (nft_Title n) (nft_Description n) (nft_ImageURL n)
    (nft_ContentURL n) (nft_Metadata n) (nft_CreatedAt n) (nft_UpdatedAt n)
    (nft_AuctionID n).

Definition set_nft_CreatedAt (t : Time) (n : NFT) : NFT :=
  mkNFT (nft_ID n) (nft_WalletID n) (nft_TokenID n) (nft_InscriptionID n)
    (nft_Collection n) (nft_Title n) (nft_Description n) (nft_ImageURL n)
    (nft_ContentURL n) (nft_Metadata n) t (nft_UpdatedAt n)
    (nft_AuctionID n).

End models.
Export models.

(** ** Errors

    Go errors are values; the ones the core produces are either errors of
    the database driver or [fmt.Errorf] messages. *)

Inductive error :=
  | sql_ErrNoRows               (* sql.ErrNoRows *)
  | driver_error                (* any other error of database/sql *)
  | Errorf (msg : string).      (* fmt.Errorf(msg) *)

(** The kinds of the error taxonomy, by the message the service returns. *)
Definition NotFound : error := Errorf "auction not found".
Definition InvalidState : error := Errorf "auction is not active".
Definition NotStarted : error := Errorf "auction has not started yet".
Definition Ended : error := Errorf "auction has ended".
Definition NotEnded : error := Errorf "auction has not ended yet".
Definition Unauthorized : error :=
  Errorf "only the winning bidder can finalize the auction".
Definition BidNotAboveCurrent : error :=
  Errorf "bid amount must be higher than current bid".
Definition BidBelowStart : error :=
  Errorf "bid amount must be at least the start price".

Definition NFTNotFound : error := Errorf "NFT not found".
Definition AlreadyListed : error := Errorf "NFT is already on auction".
Definition NotOwner : error := Errorf "NFT is not owned by the user".

(** [BidTooLow]: either of the two messages of the amount check. *)
Definition BidTooLow (e : error) : Prop :=
  e = BidNotAboveCurrent ∨ e = BidBelowStart.

(** [StorageFailure]: any repository error. *)
Definition StorageFailure (e : error) : Prop :=
  e = sql_ErrNoRows ∨ e = driver_error.

Inductive result (A : Type) :=
  | Ok (a : A)
  | Fail (e : error).
Arguments Ok {A} a.
Arguments Fail {A} e.

(** ** The world outside the program

    [Database] holds the rows of the tables of the migration that the
    core touches.  [World] adds the three oracles: successive readings of
    a wall clock, whether the n-th call into the driver fails, and the
    UUIDs that [uuid.New] hands out. *)

Record Database := mkDatabase {
  users : list string;             (* users.id *)
  wallets : list Wallet;
  nfts : list NFT;
  auctions : list Auction;
  bids : list Bid
}.

Record World := mkWorld {
  db : Database;
  clock : nat → Time;
  reads : nat;
  fault : nat → bool;
  calls : nat;
  uuids : nat → string;
  issued : nat
}.

Definition set_db (d : Database) (w : World) : World :=
  mkWorld d (clock w) (reads w) (fault w) (calls w) (uuids w) (issued w).

Definition set_nfts (l : list NFT) (d : Database) : Database :=
  mkDatabase (users d) (wallets d) l (auctions d) (bids d).

Definition set_auctions (l : list Auction) (d : Database) : Database :=
  mkDatabase (users d) (wallets d) (nfts d) l (bids d).

Definition set_bids (l : list Bid) (d : Database) : Database :=
  mkDatabase (users d) (wallets d) (nfts d) (auctions d) l.

(** ** A state and error monad for code that returns [(T, error)] *)

Definition M (A : Type) : Type := World → result A * World.

Definition ret {A} (a : A) : M A := λ w, (Ok a, w).

Definition fail {A} (e : error) : M A := λ w, (Fail e, w).

Definition bind {A B} (c : M A) (k : A → M B) : M B :=
  λ w, match c w with
       | (Ok a, w1) => k a w1
       | (Fail e, w1) => (Fail e, w1)
       end.

Notation "x <- c ;; k" := (bind c (λ x, k))
  (at level 100, c at next level, right associativity).
Notation "c ;;; k" := (bind c (λ _, k))
  (at level 100, right associativity).

(** The oracles are consumed one value at a time. *)
Definition next_reading (w : World) : World :=
  mkWorld (db w) (clock w) (S (reads w)) (fault w) (calls w) (uuids w)
          (issued w).

Definition next_call (w : World) : World :=
  mkWorld (db w) (clock w) (reads w) (fault w) (S (calls w)) (uuids w)
          (issued w).

Definition next_uuid (w : World) : World :=
  mkWorld (db w) (clock w) (reads w) (fault w) (calls w) (uuids w)
          (S (issued w)).

(** [time.Now()] and the server's [NOW()]: the next reading of the clock. *)
Definition time_Now : M Time :=
  λ w, (Ok (clock w (reads w)), next_reading w).

(** [uuid.New().String()] *)
Definition uuid_New : M string :=
  λ w, (Ok (uuids w (issued w)), next_uuid w).

(** One call into database/sql whose error the program looks at. *)
Definition driver_call : M unit :=
  λ w, if fault w (calls w) then (Fail driver_error, next_call w)
       else (Ok (), next_call w).

(** ** internal/store/database.go *)

Module store.

(** An open transaction; [NOW] is the server's transaction timestamp,
    which the [updated_at] triggers of the migration write. *)
Record Tx := mkTx { NOW : Time }.

(** [Exec]: a statement either violates a constraint ([None]) or yields
    the new contents of the tables. *)
Definition Exec (stmt : Database → option Database) : M unit :=
  driver_call ;;;
  λ w, match stmt (db w) with
       | None => (Fail driver_error, w)
       | Some d => (Ok (), set_db d w)
       end.

(** [Get]: the first row of the query, [sql.ErrNoRows] when there is none. *)
Definition Get {A} (query : Database → list A) : M A :=
  driver_call ;;;
  λ w, match query (db w) with
       | [] => (Fail sql_ErrNoRows, w)
       | row :: _ => (Ok row, w)
       end.

(** [Select]: all rows of the query. *)
Definition Select {A} (query : Database → list A) : M (list A) :=
  driver_call ;;;
  λ w, (Ok (query (db w)), w).

(** [Database.Transaction]: begin, run [fn], roll back when it returns an
    error, commit otherwise.  What [fn] writes through the pointers it
    captured is returned as its value. *)
Definition Transaction {A} (fn : Tx → M A) : M A :=
  driver_call ;;;                                  (* d.db.Beginx() *)
  now <- time_Now ;;
  λ w, let saved := db w in
       match fn (mkTx now) w with
       | (Fail e, w1) => (Fail e, set_db saved w1)      (* tx.Rollback() *)
       | (Ok a, w1) =>
           match driver_call w1 with                    (* tx.Commit() *)
           | (Fail e, w2) => (Fail e, set_db saved w2)
           | (Ok _, w2) => (Ok a, w2)
           end
       end.

(** The trigger [update_updated_at_column], BEFORE UPDATE FOR EACH ROW on
    auctions and on nfts: [NEW.updated_at = NOW()]. *)
Definition UPDATE_auctions (tx : Tx) (set : Auction → Auction)
    (where_ : Auction → bool) (d : Database) : Database :=
  set_auctions
    ((λ a, if where_ a then set_UpdatedAt (NOW tx) (set a) else a)
       <$> auctions d) d.

Definition UPDATE_nfts (tx : Tx) (set : NFT → NFT)
    (where_ : NFT → bool) (d : Database) : Database :=
  set_nfts
    ((λ n, if where_ n then set_nft_UpdatedAt (NOW tx) (set n) else n)
       <$> nfts d) d.

(** The columns that sqlx scans into a [models.Auction]; the fields [NFT]
    and [Bids] have no column and stay nil. *)
Definition scan (a : Auction) : Auction := set_Bids [] (set_NFT None a).

End store.
Export store.

(** ** internal/store/user_repository.go *)

Module UserRepository.

Definition GetWalletsByUserID (userID : string) : M (list Wallet) :=
  Select (λ d, filter (λ w, wallet_UserID w = userID) (wallets d)).

End UserRepository.

(** ** internal/store/nft_repository.go *)

Module NFTRepository.

(** SELECT ... FROM nfts WHERE id = $1 *)
Definition GetByID (id : string) : M (option NFT) :=
  λ w, match Get (λ d, filter (λ n, nft_ID n = id) (nfts d)) w with
       | (Ok nft, w1) => (Ok (Some nft), w1)
       | (Fail sql_ErrNoRows, w1) => (Ok None, w1)
       | (Fail e, w1) => (Fail e, w1)
       end.

(** INSERT INTO nfts (id, wallet_id, token_id, inscription_id, collection,
    title, description, image_url, content_url, metadata, created_at,
    updated_at): the primary key and the foreign key of [wallet_id] are
    checked; [auction_id] is not among the columns and is NULL in the new
    row. *)
Definition nft_row (nft : NFT) : NFT := set_nft_AuctionID None nft.

Definition INSERT_nft (nft : NFT) (d : Database) : option Database :=
  if bool_decide (nft_ID nft ∉ nft_ID <$> nfts d)
     && bool_decide (nft_WalletID nft ∈ wallet_ID <$> wallets d)
  then Some (set_nfts (nfts d ++ [nft_row nft]) d)
  else None.

(** [Create] creates a new NFT. *)
Definition Create (nft : NFT) : M NFT :=
  id <- (if decide (nft_ID nft = "") then uuid_New else ret (nft_ID nft)) ;;
  let nft := set_nft_ID id nft in
  now <- time_Now ;;
  let nft := set_nft_UpdatedAt now (set_nft_CreatedAt now nft) in
  Exec (INSERT_nft nft) ;;;
  ret nft.

End NFTRepository.

(** ** internal/store/auction_repository.go *)

Module AuctionRepository.

(** SELECT ... FROM auctions WHERE id = $1 *)
Definition GetByID (id : string) : M (option Auction) :=
  λ w, match Get (λ d, scan <$> filter (λ a, ID a = id) (auctions d)) w with
       | (Ok auction, w1) => (Ok (Some auction), w1)
       | (Fail sql_ErrNoRows, w1) => (Ok None, w1)
       | (Fail e, w1) => (Fail e, w1)
       end.

(** ORDER BY amount DESC and ORDER BY end_time ASC (rows that tie come in
    one of the orders SQL allows). *)
Definition amount_DESC (b1 b2 : Bid) : Prop := bid_Amount b2 ≤ bid_Amount b1.
Definition end_time_ASC (a1 a2 : Auction) : Prop := EndTime a1 ≤ EndTime a2.

#[global] Instance amount_DESC_dec : RelDecision amount_DESC :=
  λ b1 b2, decide (bid_Amount b2 ≤ bid_Amount b1).
#[global] Instance end_time_ASC_dec : RelDecision end_time_ASC :=
  λ a1 a2, decide (EndTime a1 ≤ EndTime a2).

(** SELECT ... FROM bids WHERE auction_id = $1 ORDER BY amount DESC *)
Definition GetBidsByAuctionID (auctionID : string) : M (list Bid) :=
  Select (λ d, merge_sort amount_DESC
                 (filter (λ b, bid_AuctionID b = auctionID) (bids d))).

Definition GetByIDWithNFT (id : string) : M (option Auction) :=
  auction <- GetByID id ;;
  match auction with
  | None => ret None
  | Some auction =>
      (* SELECT ... FROM nfts WHERE id = $1; sql.ErrNoRows is let through
         and leaves the zero NFT *)
      nft <- (λ w, match Get (λ d, filter (λ n, nft_ID n = NFTID auction)
                                          (nfts d)) w with
                   | (Ok n, w1) => (Ok n, w1)
                   | (Fail sql_ErrNoRows, w1) => (Ok NFT_zero, w1)
                   | (Fail e, w1) => (Fail e, w1)
                   end) ;;
      let auction := set_NFT (Some nft) auction in
      bids <- GetBidsByAuctionID id ;;
      let auction := set_Bids bids auction in
      ret (Some auction)
  end.

(** UPDATE auctions SET status = $1, updated_at = $2 WHERE id = $3 *)
Definition UPDATE_status (tx : Tx) (status : AuctionStatus) (now : Time)
    (auctionID : string) (d : Database) : Database :=
  UPDATE_auctions tx
    (λ a, set_UpdatedAt now (set_Status status a))
    (λ a, bool_decide (ID a = auctionID)) d.

(** UPDATE nfts SET auction_id = NULL, updated_at = $1
    WHERE auction_id = $2 *)
Definition UPDATE_release (tx : Tx) (now : Time) (auctionID : string)
    (d : Database) : Database :=
  UPDATE_nfts tx
    (λ n, set_nft_UpdatedAt now (set_nft_AuctionID None n))
    (λ n, bool_decide (nft_AuctionID n = Some auctionID)) d.

(** [CompleteAuction] completes an auction and releases the NFT. *)
Definition CompleteAuction (auctionID : string) (status : AuctionStatus)
    : M unit :=
  Transaction (λ tx,
    now <- time_Now ;;
    (* Update auction status *)
    Exec (λ d, Some (UPDATE_status tx status now auctionID d)) ;;;
    if decide (status = AuctionStatusCompleted) then
      (* If completed, keep the auction_id (for history) *)
      ret ()
    else
      (* If cancelled, remove the auction_id from NFT *)
      Exec (λ d, Some (UPDATE_release tx now auctionID d))).

(** INSERT INTO bids (id, auction_id, bidder_id, wallet_id, amount,
    created_at, accepted): the primary key and the three foreign keys of
    the table are checked; [signature] is not among the columns and is
    NULL in the new row. *)
Definition bid_row (bid : Bid) : Bid :=
  mkBid (bid_ID bid) (bid_AuctionID bid) (bid_BidderID bid)
        (bid_WalletID bid) (bid_Amount bid) (bid_CreatedAt bid)
        (bid_Accepted bid) None.

Definition INSERT_bid (bid : Bid) (d : Database) : option Database :=
  if bool_decide (bid_ID bid ∉ bid_ID <$> bids d)
     && bool_decide (bid_AuctionID bid ∈ ID <$> auctions d)
     && bool_decide (bid_BidderID bid ∈ users d)
     && bool_decide (bid_WalletID bid ∈ wallet_ID <$> wallets d)
  then Some (set_bids (bids d ++ [bid_row bid]) d)
  else None.

(** SELECT current_bid FROM auctions WHERE id = $1 *)
Definition SELECT_current_bid (auctionID : string) (d : Database)
    : list (option Z) :=
  CurrentBid <$> filter (λ a, ID a = auctionID) (auctions d).

(** [!currentBid.Valid || bid.Amount > currentBid.Int64] *)
Definition is_highest (bid : Bid) (currentBid : option Z) : bool :=
  match currentBid with
  | None => true
  | Some cb => bool_decide (bid_Amount bid > cb)
  end.

(** UPDATE auctions SET current_bid = $1, current_bidder_id = $2,
    updated_at = $3 WHERE id = $4 *)
Definition UPDATE_current_bid (tx : Tx) (bid : Bid) (now : Time)
    (d : Database) : Database :=
  UPDATE_auctions tx
    (λ a, set_UpdatedAt now
            (set_CurrentBid (Some (bid_Amount bid)) (Some (bid_BidderID bid))
                            a))
    (λ a, bool_decide (ID a = bid_AuctionID bid)) d.

(** [CreateBid]: "Use transaction to update auction if bid is higher than
    current". *)
Definition CreateBid (bid : Bid) : M Bid :=
  Transaction (λ tx,
    id <- (if decide (bid_ID bid = "") then uuid_New else ret (bid_ID bid)) ;;
    let bid := set_bid_ID id bid in
    now <- time_Now ;;
    let bid := set_bid_CreatedAt now bid in
    Exec (INSERT_bid bid) ;;;
    currentBid <- Get (SELECT_current_bid (bid_AuctionID bid)) ;;
    (if is_highest bid currentBid then
       (* the foreign key of current_bidder_id is the one the INSERT above
          has checked *)
       Exec (λ d, Some (UPDATE_current_bid tx bid now d))
     else ret ()) ;;;
    ret bid).

(** SELECT ... FROM auctions WHERE status = $1 AND end_time <= $2
    ORDER BY end_time ASC, with $1 = active and $2 = time.Now() *)
Definition GetEndedAuctions : M (list Auction) :=
  now <- time_Now ;;
  Select (λ d, scan <$>
               merge_sort end_time_ASC
                 (filter (λ a, Status a = AuctionStatusActive
                               ∧ EndTime a ≤ now) (auctions d))).

(** SELECT ... FROM auctions WHERE status = $1 AND end_time > $2
    ORDER BY end_time ASC, with $1 = active and $2 = time.Now() *)
Definition GetActiveAuctions : M (list Auction) :=
  now <- time_Now ;;
  Select (λ d, scan <$>
               merge_sort end_time_ASC
                 (filter (λ a, Status a = AuctionStatusActive
                               ∧ EndTime a > now) (auctions d))).

(** INSERT INTO auctions (id, nft_id, seller_wallet_id, start_price,
    reserve_price, buy_now_price, start_time, end_time, status, psbt,
    created_at, updated_at): the primary key and the two foreign keys of
    the table are checked; [current_bid] and [current_bidder_id] are not
    among the columns and are NULL in the new row. *)
Definition auction_row (auction : Auction) : Auction :=
  mkAuction (ID auction) (NFTID auction) (SellerWalletID auction)
            (StartPrice auction) (ReservePrice auction) (BuyNowPrice auction)
            None None (StartTime auction) (EndTime auction) (Status auction)
            (PSBT auction) (CreatedAt auction) (UpdatedAt auction) None [].

Definition INSERT_auction (auction : Auction) (d : Database)
    : option Database :=
  if bool_decide (ID auction ∉ ID <$> auctions d)
     && bool_decide (NFTID auction ∈ nft_ID <$> nfts d)
     && bool_decide (SellerWalletID auction ∈ wallet_ID <$> wallets d)
  then Some (set_auctions (auctions d ++ [auction_row auction]) d)
  else None.

(** UPDATE nfts SET auction_id = $1, updated_at = $2 WHERE id = $3 *)
Definition UPDATE_stamp (tx : Tx) (auctionID : string) (now : Time)
    (nftID : string) (d : Database) : Database :=
  UPDATE_nfts tx
    (λ n, set_nft_UpdatedAt now (set_nft_AuctionID (Some auctionID) n))
    (λ n, bool_decide (nft_ID n = nftID)) d.

(** [Create] creates a new auction: "Use transaction to ensure NFT is
    properly linked to auction". *)
Definition Create (auction : Auction) : M Auction :=
  Transaction (λ tx,
    id <- (if decide (ID auction = "") then uuid_New
           else ret (ID auction)) ;;
    let auction := set_ID id auction in
    now <- time_Now ;;
    let auction := set_UpdatedAt now (set_CreatedAt now auction) in
    (* Set initial status *)
    let auction :=
      if decide (Status auction = "") then
        if decide (now > StartTime auction)
        then set_Status AuctionStatusActive auction
        else set_Status AuctionStatusDraft auction
      else auction in
    (* Insert auction *)
    Exec (INSERT_auction auction) ;;;
    (* Update NFT with auction ID; the foreign key of auction_id holds,
       the row was inserted just above *)
    Exec (λ d, Some (UPDATE_stamp tx (ID auction) now (NFTID auction) d)) ;;;
    ret auction).

(** SELECT ... FROM bids WHERE auction_id = $1 ORDER BY amount DESC
    LIMIT $2; the server refuses a negative LIMIT. *)
Definition GetTopBidsByAuctionID (auctionID : string) (limit : Z)
    : M (list Bid) :=
  if decide (limit < 0) then driver_call ;;; fail driver_error else
  Select (λ d, take (Z.to_nat limit)
                 (merge_sort amount_DESC
                    (filter (λ b, bid_AuctionID b = auctionID) (bids d)))).

End AuctionRepository.

(** ** internal/services/wallet_service.go *)

Module WalletService.

(** "This is a placeholder": 0.1 BTC in satoshis, for every address. *)
Definition GetBalance (address : string) : M Z := ret 10000000.

(** [ValidatePSBT]: "This is a placeholder". *)
Definition ValidatePSBT (psbtHex inscriptionID sellerAddress
    buyerAddress : string) : M (bool * string) :=
  ret (true, "PSBT is valid for NFT transfer").

End WalletService.

(** ** internal/services/auction_service.go *)

Module AuctionService.

Definition GetByID (id : string) : M (option Auction) :=
  AuctionRepository.GetByIDWithNFT id.

(** [for _, w := range wallet { if w.ID == id { found = &w; break } }] *)
Definition find_wallet (id : string) (wallet : list Wallet) : option Wallet :=
  head (filter (λ w, wallet_ID w = id) wallet).

(** [PlaceBid] places a bid on an auction. *)
Definition PlaceBid (req : PlaceBidRequest) (userID : string) : M Bid :=
  auction <- GetByID (req_AuctionID req) ;;
  match auction with
  | None => fail NotFound
  | Some auction =>
    (* Check if auction is active *)
    if decide (Status auction ≠ AuctionStatusActive) then fail InvalidState
    else
    (* Check if auction has started: time.Now().Before(auction.StartTime) *)
    now <- time_Now ;;
    if decide (now < StartTime auction) then fail NotStarted else
    (* Check if auction has ended: time.Now().After(auction.EndTime) *)
    now <- time_Now ;;
    if decide (now > EndTime auction) then fail Ended else
    (* Check if bid amount is higher than current bid *)
    if (match CurrentBid auction with
        | Some currentBid => bool_decide (req_Amount req ≤ currentBid)
        | None => false
        end)
    then fail BidNotAboveCurrent else
    (* Check if bid amount is at least the start price *)
    if decide (req_Amount req < StartPrice auction) then fail BidBelowStart
    else
    (* Verify wallet belongs to user *)
    wallet <- UserRepository.GetWalletsByUserID userID ;;
    match find_wallet (req_WalletID req) wallet with
    | None => fail (Errorf "wallet not found or not owned by user")
    | Some bidderWallet =>
      (* Check if bidder has enough balance *)
      balance <- WalletService.GetBalance (wallet_Address bidderWallet) ;;
      if decide (balance < req_Amount req)
      then fail (Errorf "insufficient balance") else
      let bid := mkBid "" (req_AuctionID req) userID (req_WalletID req)
                       (req_Amount req) 0 true None in
      AuctionRepository.CreateBid bid
    end
  end.

(** [buyNowTriggered]: the auction has a "Buy Now" price that was met. *)
Definition buyNowTriggered (auction : Auction) : bool :=
  match BuyNowPrice auction, CurrentBid auction with
  | Some buyNow, Some currentBid => bool_decide (currentBid >= buyNow)
  | _, _ => false
  end.

(** [FinalizeAuction] finalizes an auction. *)
Definition FinalizeAuction (req : FinalizeAuctionRequest) (userID : string)
    : M Auction :=
  auction <- GetByID (fin_AuctionID req) ;;
  match auction with
  | None => fail NotFound
  | Some auction =>
    (* Check if auction is active *)
    if decide (Status auction ≠ AuctionStatusActive) then fail InvalidState
    else
    (* Check if auction has ended or has a "Buy Now" price that was met:
       !time.Now().After(auction.EndTime) && !buyNowTriggered *)
    now <- time_Now ;;
    if negb (bool_decide (now > EndTime auction))
       && negb (buyNowTriggered auction)
    then fail NotEnded else
    match CurrentBid auction, CurrentBidderID auction with
    | Some currentBid, Some currentBidderID =>
      (* Check if reserve price was met *)
      if (match ReservePrice auction with
          | Some reserve => bool_decide (currentBid < reserve)
          | None => false
          end)
      then
        (* Reserve not met, cancel the auction *)
        AuctionRepository.CompleteAuction (ID auction)
                                          AuctionStatusCancelled ;;;
        ret (set_Status AuctionStatusCancelled auction)
      else
      (* Get the winning bidder *)
      if decide (currentBidderID ≠ userID) then fail Unauthorized else
      (* Complete the auction *)
      AuctionRepository.CompleteAuction (ID auction)
                                        AuctionStatusCompleted ;;;
      ret (set_Status AuctionStatusCompleted auction)
    | _, _ =>
      (* No bids, cancel the auction *)
      AuctionRepository.CompleteAuction (ID auction)
                                        AuctionStatusCancelled ;;;
      ret (set_Status AuctionStatusCancelled auction)
    end
  end.

(** The body of the loop of [ProcessEndedAuctions]: [return err] leaves
    the loop and the function, [continue] goes on with the rest. *)
Fixpoint ProcessEndedAuctions_range (auctions : list Auction) : M unit :=
  match auctions with
  | [] => ret ()
  | auction :: rest =>
    match CurrentBid auction, CurrentBidderID auction with
    | Some currentBid, Some _ =>
      if (match ReservePrice auction with
          | Some reserve => bool_decide (currentBid < reserve)
          | None => false
          end)
      then
        (* Reserve not met, cancel the auction *)
        AuctionRepository.CompleteAuction (ID auction)
                                          AuctionStatusCancelled ;;;
        ProcessEndedAuctions_range rest
      else
        (* Auction has a winning bid, but needs to be finalized by the
           bidder *)
        ProcessEndedAuctions_range rest
    | _, _ =>
      (* No bids, cancel the auction *)
      AuctionRepository.CompleteAuction (ID auction)
                                        AuctionStatusCancelled ;;;
      ProcessEndedAuctions_range rest
    end
  end.

(** [ProcessEndedAuctions] processes auctions that have ended but not yet
    finalized. *)
Definition ProcessEndedAuctions : M unit :=
  auctions <- AuctionRepository.GetEndedAuctions ;;
  ProcessEndedAuctions_range auctions.

(** [Create] creates a new auction. *)
Definition Create (req : CreateAuctionRequest) (userID : string)
    : M (option Auction) :=
  (* Check if NFT exists and belongs to the user *)
  nft <- NFTRepository.GetByID (car_NFTID req) ;;
  match nft with
  | None => fail NFTNotFound
  | Some nft =>
    (* Check if the NFT is already on auction *)
    if decide (nft_AuctionID nft ≠ None) then fail AlreadyListed else
    (* Get the wallet *)
    wallet <- UserRepository.GetWalletsByUserID userID ;;
    (* Find the wallet that owns the NFT *)
    match find_wallet (nft_WalletID nft) wallet with
    | None => fail NotOwner
    | Some sellerWallet =>
      (* Validate the PSBT *)
      validation <- WalletService.ValidatePSBT (car_PSBT req)
                      (nft_InscriptionID nft) (wallet_Address sellerWallet)
                      "" ;;
      if negb validation.1
      then fail (Errorf ("invalid PSBT: " +:+ validation.2)) else
      (* Create auction *)
      let auction :=
        mkAuction "" (car_NFTID req) (wallet_ID sellerWallet)
                  (car_StartPrice req) (car_ReservePrice req)
                  (car_BuyNowPrice req) None None (car_StartTime req)
                  (car_EndTime req) AuctionStatusDraft (car_PSBT req)
                  0 0 None [] in
      (* If start time is in the past or now, set status to active:
         !req.StartTime.After(time.Now()) *)
      now <- time_Now ;;
      let auction :=
        if decide (¬ car_StartTime req > now)
        then set_Status AuctionStatusActive auction else auction in
      auction <- AuctionRepository.Create auction ;;
      (* Fetch the full auction with NFT *)
      GetByID (ID auction)
    end
  end.

(** [GetActiveAuctions] retrieves all active auctions. *)
Definition GetActiveAuctions : M (list Auction) :=
  AuctionRepository.GetActiveAuctions.

End AuctionService.

(** ** internal/handlers/websocket.go

    A [*Client] is an address; the memory the addresses point into holds
    each session's [send] channel and [userID].  A panic of the Go runtime
    is an outcome of its own. *)

Module handlers.

Inductive outcome (A : Type) :=
  | Done (a : A)
  | Panic (msg : string).
Arguments Done {A} a.
Arguments Panic {A} msg.

Definition Message := string.                   (* []byte *)
Definition Client := positive.                  (* *Client *)

(** [chan []byte] with its buffer, capacity and closed flag. *)
Record Chan := mkChan {
  buf : list Message;
  cap : nat;
  closed : bool
}.

Record ClientData := mkClient {
  send : Chan;
  userID : string
}.

Record Hub := mkHub {
  clients : gset Client;                        (* map[*Client]bool *)
  auctionClients : gmap string (gset Client);   (* map[string]map[*Client]bool *)
  memory : gmap Client ClientData
}.

(** [NewHub] *)
Definition NewHub : Hub := mkHub ∅ ∅ ∅.

Definition set_send (client : Client) (ch : Chan) (h : Hub) : Hub :=
  mkHub (clients h) (auctionClients h)
        (alter (λ c, mkClient ch (userID c)) client (memory h)).

(** [select { case ch <- message: default: }]: [Some] the channel after the
    send, [None] when the buffer is full and the default case runs. *)
Definition select_send (ch : Chan) (message : Message)
    : outcome (option Chan) :=
  if closed ch then Panic "send on closed channel"
  else if decide (length (buf ch) < cap ch)%nat
       then Done (Some (mkChan (buf ch ++ [message]) (cap ch) false))
       else Done None.

(** [close(ch)] *)
Definition close (ch : Chan) : outcome Chan :=
  if closed ch then Panic "close of closed channel"
  else Done (mkChan (buf ch) (cap ch) true).

(** A [for client := range set] loop whose body may panic.  The body only
    touches the session it is run for, so the order of the range does not
    matter. *)
Fixpoint range (body : Client → Hub → outcome Hub) (l : list Client)
    (h : Hub) : outcome Hub :=
  match l with
  | [] => Done h
  | client :: rest =>
      match body client h with
      | Done h1 => range body rest h1
      | Panic msg => Panic msg
      end
  end.

(** The body of the loop in the [broadcast] case of [Run]. *)
Definition Run_broadcast_body (message : Message) (client : Client) (h : Hub)
    : outcome Hub :=
  match memory h !! client with
  | None => Panic "invalid memory address or nil pointer dereference"
  | Some c =>
      match select_send (send c) message with
      | Panic msg => Panic msg
      | Done (Some ch) => Done (set_send client ch h)
      | Done None =>
          match close (send c) with
          | Panic msg => Panic msg
          | Done ch =>
              let h := set_send client ch h in
              Done (mkHub (clients h ∖ {[client]}) (auctionClients h)
                          (memory h))
          end
      end
  end.

(** What the [select] of [Run] receives. *)
Inductive Run_input :=
  | register (client : Client)
  | unregister (client : Client)
  | broadcast (message : Message).

(** One iteration of the loop of [Run]. *)
Definition Run (input : Run_input) (h : Hub) : outcome Hub :=
  match input with
  | register client =>
      Done (mkHub ({[client]} ∪ clients h) (auctionClients h) (memory h))
  | unregister client =>
      if decide (client ∈ clients h) then
        let h := mkHub (clients h ∖ {[client]}) (auctionClients h)
                       (memory h) in
        match memory h !! client with
        | None => Panic "invalid memory address or nil pointer dereference"
        | Some c =>
            match close (send c) with
            | Panic msg => Panic msg
            | Done ch => Done (set_send client ch h)
            end
        end
      else Done h
  | broadcast message =>
      range (Run_broadcast_body message) (elements (clients h)) h
  end.

(** [RegisterAuctionClient] *)
Definition RegisterAuctionClient (client : Client) (auctionID : string)
    (h : Hub) : Hub :=
  let subscribers := default ∅ (auctionClients h !! auctionID) in
  mkHub (clients h)
        (<[auctionID := {[client]} ∪ subscribers]> (auctionClients h))
        (memory h).

(** [UnregisterAuctionClient] *)
Definition UnregisterAuctionClient (client : Client) (auctionID : string)
    (h : Hub) : Hub :=
  match auctionClients h !! auctionID with
  | Some subscribers =>
      let subscribers := subscribers ∖ {[client]} in
      if decide (size subscribers = 0%nat)
      then mkHub (clients h) (delete auctionID (auctionClients h)) (memory h)
      else mkHub (clients h)
                 (<[auctionID := subscribers]> (auctionClients h)) (memory h)
  | None => h
  end.

(** The body of the loop of [BroadcastToAuction]. *)
Definition BroadcastToAuction_body (auctionID : string) (message : Message)
    (client : Client) (h : Hub) : outcome Hub :=
  match memory h !! client with
  | None => Panic "invalid memory address or nil pointer dereference"
  | Some c =>
      match select_send (send c) message with
      | Panic msg => Panic msg
      | Done (Some ch) => Done (set_send client ch h)
      | Done None =>
          match close (send c) with
          | Panic msg => Panic msg
          | Done ch =>
              let h := set_send client ch h in
              (* delete(h.clients, client); delete(clients, client) *)
              Done (mkHub (clients h ∖ {[client]})
                          (alter (λ subscribers, subscribers ∖ {[client]})
                                 auctionID (auctionClients h))
                          (memory h))
          end
      end
  end.

(** [BroadcastToAuction] *)
Definition BroadcastToAuction (auctionID : string) (message : Message)
    (h : Hub) : outcome Hub :=
  match auctionClients h !! auctionID with
  | Some subscribers =>
      range (BroadcastToAuction_body auctionID message)
            (elements subscribers) h
  | None => Done h
  end.

(** Everything that acts on the hub: the three inputs of [Run] and the
    three methods the sessions call. *)
Inductive hub_event :=
  | ev_Run (input : Run_input)
  | ev_RegisterAuctionClient (client : Client) (auctionID : string)
  | ev_UnregisterAuctionClient (client : Client) (auctionID : string)
  | ev_BroadcastToAuction (auctionID : string) (message : Message).

Definition hub_step (ev : hub_event) (h : Hub) : outcome Hub :=
  match ev with
  | ev_Run input => Run input h
  | ev_RegisterAuctionClient client auctionID =>
      Done (RegisterAuctionClient client auctionID h)
  | ev_UnregisterAuctionClient client auctionID =>
      Done (UnregisterAuctionClient client auctionID h)
  | ev_BroadcastToAuction auctionID message =>
      BroadcastToAuction auctionID message h
  end.

Fixpoint hub_run (evs : list hub_event) (h : Hub) : outcome Hub :=
  match evs with
  | [] => Done h
  | ev :: rest =>
      match hub_step ev h with
      | Done h1 => hub_run rest h1
      | Panic msg => Panic msg
      end
  end.

(** *** Request contexts

    [context.WithValue] keys and values are [interface{}] values: a dynamic
    type with a value of that type.  Two keys are equal when both agree. *)

Inductive any :=
  | any_nil
  | any_string (s : string)                      (* string *)
  | any_contextKey (s : string)                  (* handlers.contextKey *)
  | any_other (type : string) (repr : string).   (* any other type *)

#[global] Instance any_eq_dec : EqDecision any.
Proof. solve_decision. Defined.

(** A context: the chain of [WithValue] pairs, the innermost first. *)
Definition Context := list (any * any).

(** [ctx.Value(key)] *)
Definition Value (ctx : Context) (key : any) : any :=
  match filter (λ kv, kv.1 = key) ctx with
  | (_, v) :: _ => v
  | [] => any_nil
  end.

(** [UserIDKey contextKey = "userID"] and [NewContextWithUserID] *)
Definition UserIDKey : any := any_contextKey "userID".

Definition NewContextWithUserID (ctx : Context) (userID : string) : Context :=
  (UserIDKey, any_string userID) :: ctx.

(** What [ServeWs] looks at in a request: whether [upgrader.Upgrade]
    accepts the handshake, and the context. *)
Record Request := mkRequest {
  Upgrade : bool;
  Context_ : Context
}.

(** The marshalled envelope of type welcome. *)
Definition welcomeBytes : Message := "welcome".

(** The handler that [ServeWs] returns, up to the start of the two pumps. *)
Definition ServeWs (r : Request) (h : Hub) : outcome Hub :=
  if negb (Upgrade r) then
    Done h                                        (* log.Println(err); return *)
  else
    (* userID := r.Context().Value("userID").(string) *)
    match Value (Context_ r) (any_string "userID") with
    | any_string userID =>
        let client : Client := fresh (dom (memory h)) in
        let h := mkHub (clients h) (auctionClients h)
                       (<[client := mkClient (mkChan [] 256 false) userID]>
                          (memory h)) in
        (* client.hub.register <- client *)
        match Run (register client) h with
        | Panic msg => Panic msg
        | Done h =>
            (* client.send <- welcomeBytes, on the empty buffer *)
            Done (set_send client
                    (mkChan [welcomeBytes] 256 false) h)
        end
    | _ => Panic "interface conversion: interface {} is not string"
    end.

End handlers.

(** ** internal/services/nft_service.go *)

Module NFTService.

Definition GetByID (id : string) : M (option NFT) := NFTRepository.GetByID id.

Definition Create (nft : NFT) : M NFT := NFTRepository.Create nft.

(** [fmt.Errorf("failed to import ordinal: %w", err)] *)
Inductive ImportError :=
  | failed_to_import_ordinal (err : error).

(** The double quote, and the metadata of an imported ordinal: the JSON
    object with type ordinal and rarity common. *)
Definition quote : string := String (Ascii.ascii_of_nat 34) EmptyString.

Definition ordinal_metadata : string :=
  "{" +:+ quote +:+ "type" +:+ quote +:+ ":" +:+ quote +:+ "ordinal" +:+ quote
      +:+ "," +:+ quote +:+ "rarity" +:+ quote +:+ ":" +:+ quote +:+ "common"
      +:+ quote +:+ "}".

(** [ImportOrdinal] imports an ordinal as an NFT: "a placeholder for demo
    purposes".  The slice [inscriptionID[:8]] of the title is taken while
    the NFT is built, before anything is saved; it panics on a string of
    fewer than 8 bytes. *)
Definition ImportOrdinal (walletID inscriptionID : string) (w : World)
    : handlers.outcome ((ImportError + NFT) * World) :=
  if decide (String.length inscriptionID < 8)%nat
  then handlers.Panic "slice bounds out of range"
  else
    let nft :=
      mkNFT "" walletID inscriptionID inscriptionID "Ordinals"
            ("Ordinal #" +:+ String.substring 0 8 inscriptionID)
            "An Ordinal inscription"
            ("https://example.com/ordinals/" +:+ inscriptionID +:+ ".png")
            ("https://example.com/ordinals/" +:+ inscriptionID +:+ ".json")
            ordinal_metadata 0 0 None in
    (* Save the NFT *)
    match Create nft w with
    | (Fail err, w1) => handlers.Done (inl (failed_to_import_ordinal err), w1)
    | (Ok nft, w1) => handlers.Done (inr nft, w1)
    end.

(** [for _, wallet := range wallets { if wallet.ID == id { return true } }
    return false] *)
Fixpoint owns (id : string) (wallets : list Wallet) : bool :=
  match wallets with
  | [] => false
  | wallet :: rest =>
      if decide (wallet_ID wallet = id) then true else owns id rest
  end.

(** [IsOwnedByUser] checks if an NFT is owned by a specific user. *)
Definition IsOwnedByUser (nftID userID : string) : M bool :=
  nft <- GetByID nftID ;;
  match nft with
  | None => fail NFTNotFound
  | Some nft =>
      (* Get wallets for the user *)
      wallets <- UserRepository.GetWalletsByUserID userID ;;
      (* Check if any of the user's wallets owns the NFT *)
      ret (owns (nft_WalletID nft) wallets)
  end.

End NFTService.

(** ** Concurrent calls of [CreateBid]

    [Beginx] opens a transaction with the options of the server, whose
    isolation level is READ COMMITTED unless configured otherwise: every
    statement sees what was committed when the statement starts and the
    writes of its own transaction; the writes of a transaction become
    visible to the others when it commits; an UPDATE of a row that an
    uncommitted transaction has updated waits for that transaction.

    A session is one call of [CreateBid] after [Beginx], with the
    identifier and the timestamps already drawn.  It executes the
    statements of [CreateBid] in their order; the schedule says which
    session takes the next step. *)

Module ReadCommitted.

Import AuctionRepository.

Inductive stage :=
  | at_INSERT
  | at_SELECT
  | at_UPDATE (currentBid : option Z)
  | at_Commit (updated : bool)
  | committed
  | rolled_back (e : error).

Record Session := mkSession {
  s_bid : Bid;
  s_tx : Tx;
  s_stage : stage
}.

Definition set_stage (st : stage) (s : Session) : Session :=
  mkSession (s_bid s) (s_tx s) st.

(** The session holds the lock of the rows of its auction: it has
    updated them and has not committed. *)
Definition holds_lock (auctionID : string) (s : Session) : bool :=
  match s_stage s with
  | at_Commit true => bool_decide (bid_AuctionID (s_bid s) = auctionID)
  | _ => false
  end.

(** One statement of session [s]; [others] are the other sessions.  The
    result is the committed database and the session afterwards; a
    session that has to wait, or has finished, does not move. *)
Definition session_step (others : list Session) (s : Session)
    (d : Database) : Database * Session :=
  let bid := s_bid s in
  match s_stage s with
  | at_INSERT =>
      match INSERT_bid bid d with
      | None => (d, set_stage (rolled_back driver_error) s)
      | Some _ => (d, set_stage at_SELECT s)
      end
  | at_SELECT =>
      match SELECT_current_bid (bid_AuctionID bid) d with
      | [] => (d, set_stage (rolled_back sql_ErrNoRows) s)
      | currentBid :: _ => (d, set_stage (at_UPDATE currentBid) s)
      end
  | at_UPDATE currentBid =>
      if is_highest bid currentBid then
        if existsb (holds_lock (bid_AuctionID bid)) others
        then (d, s)
        else (d, set_stage (at_Commit true) s)
      else (d, set_stage (at_Commit false) s)
  | at_Commit updated =>
      let d := set_bids (bids d ++ [bid_row bid]) d in
      let d := if updated
               then UPDATE_current_bid (s_tx s) bid (bid_CreatedAt bid) d
               else d in
      (d, set_stage committed s)
  | committed | rolled_back _ => (d, s)
  end.

(** The sessions in flight and the committed database. *)
Definition State : Type := Database * list Session.

Definition step (i : nat) (st : State) : State :=
  let '(d, sessions) := st in
  match sessions !! i with
  | None => st
  | Some s =>
      let '(d1, s1) := session_step (delete i sessions) s d in
      (d1, <[i := s1]> sessions)
  end.

Definition run (schedule : list nat) (st : State) : State :=
  foldl (λ st i, step i st) st schedule.

End ReadCommitted.

(** ** Concurrent calls of [PlaceBid]

    The handler serves every request in a task of its own, and [PlaceBid]
    takes no lock: its reads and checks run outside the transaction of
    [CreateBid], each statement on what is committed at that moment.  A
    call is followed from its arrival to its return; the clock, the
    UUIDs and the committed tables are shared by the calls in flight. *)

Module Concurrent.

Import AuctionRepository AuctionService ReadCommitted.

(** [PlaceBid] up to its call of [CreateBid]: the reads and the checks,
    and the bid that is handed to the repository. *)
Definition PlaceBid_checks (req : PlaceBidRequest) (userID : string)
    : M Bid :=
  auction <- GetByID (req_AuctionID req) ;;
  match auction with
  | None => fail NotFound
  | Some auction =>
    if decide (Status auction ≠ AuctionStatusActive) then fail InvalidState
    else
    now <- time_Now ;;
    if decide (now < StartTime auction) then fail NotStarted else
    now <- time_Now ;;
    if decide (now > EndTime auction) then fail Ended else
    if (match CurrentBid auction with
        | Some currentBid => bool_decide (req_Amount req ≤ currentBid)
        | None => false
        end)
    then fail BidNotAboveCurrent else
    if decide (req_Amount req < StartPrice auction) then fail BidBelowStart
    else
    wallet <- UserRepository.GetWalletsByUserID userID ;;
    match find_wallet (req_WalletID req) wallet with
    | None => fail (Errorf "wallet not found or not owned by user")
    | Some bidderWallet =>
      balance <- WalletService.GetBalance (wallet_Address bidderWallet) ;;
      if decide (balance < req_Amount req)
      then fail (Errorf "insufficient balance") else
      ret (mkBid "" (req_AuctionID req) userID (req_WalletID req)
                 (req_Amount req) 0 true None)
    end
  end.

(** [CreateBid] up to its first statement: [Beginx], the identifier and
    [created_at] of the bid. *)
Definition CreateBid_begin (bid : Bid) : M Session :=
  driver_call ;;;                                  (* d.db.Beginx() *)
  now <- time_Now ;;
  let tx := mkTx now in
  id <- (if decide (bid_ID bid = "") then uuid_New else ret (bid_ID bid)) ;;
  let bid := set_bid_ID id bid in
  now <- time_Now ;;
  let bid := set_bid_CreatedAt now bid in
  ret (mkSession bid tx at_INSERT).

(** A call of [PlaceBid]: it has arrived, it is inside the transaction of
    [CreateBid], or it has returned. *)
Inductive call :=
  | arrived (req : PlaceBidRequest) (userID : string)
  | in_CreateBid (s : Session)
  | returned (r : result Bid).

Definition session_of (c : call) : option Session :=
  match c with
  | in_CreateBid s => Some s
  | _ => None
  end.

(** One step of a call; [others] are the other calls.  The first step
    runs the reads and checks and opens the transaction, the following
    ones are the statements of [CreateBid]. *)
Definition call_step (others : list call) (c : call) (w : World)
    : World * call :=
  match c with
  | arrived req userID =>
      match bind (PlaceBid_checks req userID) CreateBid_begin w with
      | (Ok s, w1) => (w1, in_CreateBid s)
      | (Fail e, w1) => (w1, returned (Fail e))
      end
  | in_CreateBid s =>
      let '(d1, s1) := session_step (omap session_of others) s (db w) in
      (set_db d1 w,
       match s_stage s1 with
       | committed => returned (Ok (s_bid s1))
       | rolled_back e => returned (Fail e)
       | _ => in_CreateBid s1
       end)
  | returned _ => (w, c)
  end.

(** The world, whose tables are the committed ones, and the calls. *)
Definition State : Type := World * list call.

Definition step (i : nat) (st : State) : State :=
  let '(w, calls) := st in
  match calls !! i with
  | None => st
  | Some c =>
      let '(w1, c1) := call_step (delete i calls) c w in
      (w1, <[i := c1]> calls)
  end.

Definition run (schedule : list nat) (st : State) : State :=
  foldl (λ st i, step i st) st schedule.

End Concurrent.

(** ** What the properties are stated with *)

(** The contents of the tables after a [CreateBid] that committed. *)
Definition committed_bid (tx : Tx) (b : Bid) (d : Database) : Database :=
  let d1 := set_bids (bids d ++ [AuctionRepository.bid_row b]) d in
  match AuctionRepository.SELECT_current_bid (bid_AuctionID b) d with
  | currentBid :: _ =>
      if AuctionRepository.is_highest b currentBid
      then AuctionRepository.UPDATE_current_bid tx b (bid_CreatedAt b) d1
      else d1
  | [] => d1
  end.

(** The contents of the tables after a [CompleteAuction] that committed. *)
Definition completed_auction (tx : Tx) (now : Time) (auctionID : string)
    (status : AuctionStatus) (d : Database) : Database :=
  let d1 := AuctionRepository.UPDATE_status tx status now auctionID d in
  if decide (status = AuctionStatusCompleted) then d1
  else AuctionRepository.UPDATE_release tx now auctionID d1.

(** The amounts of the bids accepted for an auction. *)
Definition accepted_amounts (auctionID : string) (d : Database) : list Z :=
  bid_Amount <$>
    filter (λ b, bid_AuctionID b = auctionID ∧ bid_Accepted b = true) (bids d).

Definition is_maximum (c : Z) (l : list Z) : Prop :=
  c ∈ l ∧ ∀ x, x ∈ l → x ≤ c.

(** The invariant of the leading bid: [current_bid] is the maximum of the
    accepted amounts, and NULL exactly when no bid has been accepted. *)
Definition highest_bid_invariant (auctionID : string) (d : Database) : Prop :=
  ∀ a, a ∈ auctions d → ID a = auctionID →
    match CurrentBid a with
    | Some c => is_maximum c (accepted_amounts auctionID d)
    | None => accepted_amounts auctionID d = []
    end.

(** The order on [current_bid] values: NULL comes first. *)
Definition current_bid_le (x y : option Z) : Prop :=
  match x, y with
  | None, _ => True
  | Some _, None => False
  | Some c1, Some c2 => c1 ≤ c2
  end.

(** The operations of the service that write to the tables. *)
Inductive operation :=
  | op_PlaceBid (req : PlaceBidRequest) (userID : string)
  | op_FinalizeAuction (req : FinalizeAuctionRequest) (userID : string)
  | op_ProcessEndedAuctions.

Definition perform (o : operation) (w : World) : World :=
  match o with
  | op_PlaceBid req userID => (AuctionService.PlaceBid req userID w).2
  | op_FinalizeAuction req userID =>
      (AuctionService.FinalizeAuction req userID w).2
  | op_ProcessEndedAuctions => (AuctionService.ProcessEndedAuctions w).2
  end.

Definition perform_all (ops : list operation) (w : World) : World :=
  foldl (λ w o, perform o w) w ops.

(** What [GetByID] returns for a row of the table: the row with its NFT
    and its bids. *)
Definition loaded_from (d : Database) (id : string) (auction : Auction)
    : Prop :=
  ∃ a nft bids, a ∈ auctions d ∧ ID a = id ∧
    auction = set_Bids bids (set_NFT (Some nft) (scan a)).

(** The gate of [FinalizeAuction] is open: the auction has ended or its
    buy-now price was met. *)
Definition past_gate (now : Time) (a : Auction) : Prop :=
  now > EndTime a ∨ AuctionService.buyNowTriggered a = true.

(** "No bids" or "reserve not met": the auction has no leading bid, or
    the leading bid is below the reserve price. *)
Definition no_winning_bid (a : Auction) : Prop :=
  CurrentBid a = None ∨ CurrentBidderID a = None ∨
  ∃ currentBid reserve,
    CurrentBid a = Some currentBid ∧ ReservePrice a = Some reserve ∧
    currentBid < reserve.

(** No call into the driver fails. *)
Definition no_fault (w : World) : Prop := ∀ n, fault w n = false.

(** [a'] is [a] except for [status] and [updated_at]. *)
Definition same_but_status (a a' : Auction) : Prop :=
  ∃ status t, a' = set_UpdatedAt t (set_Status status a).

(** [n'] is [n] except for [auction_id] and [updated_at]. *)
Definition same_but_auction_id (n n' : NFT) : Prop :=
  ∃ auctionID t, n' = set_nft_UpdatedAt t (set_nft_AuctionID auctionID n).

(** The tables [d'] are the tables [d] with the auction resolved: its
    rows have the new status and are otherwise as they were except for
    [updated_at], the other auction rows are untouched; when it is
    completed the NFT table is untouched, when it is cancelled the NFTs
    that referenced it have lost the reference and the others are
    untouched; users, wallets and bids are as they were. *)
Definition resolved_as (status : AuctionStatus) (auctionID : string)
    (d d' : Database) : Prop :=
  users d' = users d ∧ wallets d' = wallets d ∧ bids d' = bids d ∧
  Forall2 (λ a a', if decide (ID a = auctionID)
                   then same_but_status a a' ∧ Status a' = status
                   else a' = a)
          (auctions d) (auctions d') ∧
  if decide (status = AuctionStatusCompleted) then nfts d' = nfts d
  else Forall2 (λ n n', if decide (nft_AuctionID n = Some auctionID)
                        then same_but_auction_id n n'
                             ∧ nft_AuctionID n' = None
                        else n' = n)
               (nfts d) (nfts d').

(** ** A small marketplace for the examples

    A seller and two bidders with one wallet each, and one NFT on an
    active auction that runs from instant 0 to instant 1000 with start
    price 100000, no reserve and no buy-now price.  The clock of an
    example world stands still and its UUIDs are bid-0, bid-1, ... *)

Definition market_wallets : list Wallet :=
  [ mkWallet "w1" "u1" "addr1" "bitcoin" 0 0;
    mkWallet "w2" "u2" "addr2" "bitcoin" 0 0;
    mkWallet "ws" "seller" "addrs" "bitcoin" 0 0 ].

Definition market_nft : NFT :=
  mkNFT "n1" "ws" "token" "inscription" "Ordinals" "title" "description"
        "image" "content" "metadata" 0 0 (Some "a1").

Definition market_auction : Auction :=
  mkAuction "a1" "n1" "ws" 100000 None None None None 0 1000
            AuctionStatusActive "psbt" 0 0 None [].

Definition market : Database :=
  mkDatabase ["u1"; "u2"; "seller"] market_wallets [market_nft]
             [market_auction] [].

Definition market_world (d : Database) (now : Time) (fault : nat → bool)
    : World :=
  mkWorld d (λ _, now) 0 fault 0 (λ n, "bid-" +:+ pretty n) 0.

Definition never : nat → bool := λ _, false.

(** Scenario 1: a bid of 150000 by u1, one of 120000 by u2 (too low), one
    of 200000 by u2. *)
Definition scenario_1 : list operation :=
  [ op_PlaceBid (mkPlaceBidRequest "a1" 150000 "w1") "u1";
    op_PlaceBid (mkPlaceBidRequest "a1" 120000 "w2") "u2";
    op_PlaceBid (mkPlaceBidRequest "a1" 200000 "w2") "u2" ].

(** The value of a result, when there is one. *)
Definition value {A} (r : result A) : option A :=
  match r with Ok a => Some a | Fail _ => None end.

(** The auction a1 as [GetByID] loads it in world [w], and the world
    after the load. *)
Definition loaded_a1 (w : World) : Auction :=
  default market_auction (mjoin (value (AuctionService.GetByID "a1" w).1)).

Definition after_load (w : World) : World :=
  (AuctionService.GetByID "a1" w).2.

(** The tables after scenario 1: the leading bid is 200000 by u2. *)
Definition market_with_bids : Database :=
  db (perform_all scenario_1 (market_world market 500 never)).

(** A second NFT on an auction that ends at instant 2000. *)
Definition market_two : Database :=
  mkDatabase ["u1"; "u2"; "seller"] market_wallets
    [market_nft;
     mkNFT "n2" "ws" "token" "inscription" "Ordinals" "title" "description"
           "image" "content" "metadata" 0 0 (Some "a2")]
    [market_auction;
     mkAuction "a2" "n2" "ws" 100000 None None None None 0 2000
               AuctionStatusActive "psbt" 0 0 None []]
    [].

(** The second call into the driver fails: the first is the SELECT of the
    sweep, the second the BEGIN of the first [CompleteAuction]. *)
Definition second_call_fails : nat → bool := λ n, bool_decide (n = 1%nat).

(** Two calls of [CreateBid] on auction a1 in flight at once, for 200000
    and for 150000, and two schedules of their statements. *)
Definition bid_200000 : ReadCommitted.Session :=
  ReadCommitted.mkSession
    (mkBid "bid-0" "a1" "u1" "w1" 200000 500 true None) (mkTx 500)
    ReadCommitted.at_INSERT.

Definition bid_150000 : ReadCommitted.Session :=
  ReadCommitted.mkSession
    (mkBid "bid-1" "a1" "u2" "w2" 150000 501 true None) (mkTx 501)
    ReadCommitted.at_INSERT.

Definition interleaved : list nat := [0; 0; 1; 1; 0; 0; 1; 1]%nat.
Definition one_after_the_other : list nat := [0; 0; 0; 0; 1; 1; 1; 1]%nat.

(** Two calls of [PlaceBid] on auction a1 in flight at once, by u1 for
    200000 and by u2 for 150000.  In [overlapping] both arrive, then their
    transactions run as in [interleaved]; in [in_turn] the second arrives
    when the first has returned. *)
Definition two_bidders : list Concurrent.call :=
  [ Concurrent.arrived (mkPlaceBidRequest "a1" 200000 "w1") "u1";
    Concurrent.arrived (mkPlaceBidRequest "a1" 150000 "w2") "u2" ].

Definition overlapping : list nat := [0; 1; 0; 0; 1; 1; 0; 0; 1; 1]%nat.
Definition in_turn : list nat := [0; 0; 0; 0; 0; 1; 1; 1; 1; 1]%nat.

(** The sixth call into the driver fails: in a sweep over [market_two],
    the first is the SELECT of the sweep, the next four are the
    transaction that cancels a1, the sixth is the BEGIN of the
    transaction that cancels a2. *)
Definition sixth_call_fails : nat → bool := λ n, bool_decide (n = 5%nat).

(** A request whose context carries a string under the string key
    userID, the only kind [ServeWs] serves; the hub with the one session
    it creates; and two runs in which the session never reads its queue:
    256 broadcasts to all, and 256 broadcasts to auction A. *)
Definition authenticated : handlers.Request :=
  handlers.mkRequest true
    [(handlers.any_string "userID", handlers.any_string "u1")].

Definition session_1 : handlers.Client := 1%positive.

Definition one_session : handlers.Hub :=
  match handlers.ServeWs authenticated handlers.NewHub with
  | handlers.Done h => h
  | handlers.Panic _ => handlers.NewHub
  end.

Definition slow_consumer : list handlers.hub_event :=
  handlers.ev_RegisterAuctionClient session_1 "A"
  :: replicate 256 (handlers.ev_Run (handlers.broadcast "auction_update")).

Definition slow_subscriber : list handlers.hub_event :=
  handlers.ev_RegisterAuctionClient session_1 "A"
  :: handlers.ev_RegisterAuctionClient session_1 "B"
  :: replicate 256 (handlers.ev_BroadcastToAuction "A" "auction_update").

(** Whether the hub has closed the [send] channel of a session. *)
Definition closed_in (h : handlers.Hub) (client : handlers.Client) : bool :=
  from_option (handlers.closed ∘ handlers.send) false
              (handlers.memory h !! client).

(** ** What the properties of [Create] are stated with *)

(** The contents of the tables after a repository [Create] that
    committed. *)
Definition created_auction (tx : Tx) (auction : Auction) (d : Database)
    : Database :=
  AuctionRepository.UPDATE_stamp tx (ID auction) (UpdatedAt auction)
    (NFTID auction)
    (set_auctions (auctions d ++ [AuctionRepository.auction_row auction]) d).

(** The clock has not been read between [w] and [w']. *)
Definition same_clock (w w' : World) : Prop :=
  clock w' = clock w ∧ reads w' = reads w.

(** A marketplace in which the seller also holds an NFT that is on no
    auction, and a request to list it from instant 600 to instant 2000. *)
Definition unlisted_nft : NFT :=
  mkNFT "n2" "ws" "token" "inscription" "Ordinals" "title" "description"
        "image" "content" "metadata" 0 0 None.

Definition market_unlisted : Database :=
  mkDatabase ["u1"; "u2"; "seller"] market_wallets [market_nft; unlisted_nft]
             [market_auction] [].

Definition listing : CreateAuctionRequest :=
  mkCreateAuctionRequest "n2" 50000 None None 600 2000 "psbt".

(** The auction that [Create] returns for [listing] in world [w], and the
    world after the call. *)
Definition listed (w : World) : Auction :=
  default market_auction
    (mjoin (value (AuctionService.Create listing "seller" w).1)).

Definition after_Create (w : World) : World :=
  (AuctionService.Create listing "seller" w).2.

(** The seventh call into the driver fails: in [Create], the six before
    it run up to the COMMIT of the repository's transaction. *)
Definition seventh_call_fails : nat → bool := λ n, bool_decide (n = 6%nat).

(** The foreign key of [bids.auction_id]: every bid belongs to an auction
    of the table. *)
Definition bids_reference_auctions (d : Database) : Prop :=
  ∀ b, b ∈ bids d → bid_AuctionID b ∈ ID <$> auctions d.

(** [a'] is [a] except for [current_bid], [current_bidder_id] and
    [updated_at]. *)
Definition same_but_current_bid (a a' : Auction) : Prop :=
  ∃ amount bidder t, a' = set_UpdatedAt t (set_CurrentBid amount bidder a).

(** The leading bidder made the leading bid: a row has a current bid
    exactly when it has a current bidder, and then an accepted bid of
    that amount by that bidder for that auction is in the table. *)
Definition leading_bidder_invariant (d : Database) : Prop :=
  ∀ a, a ∈ auctions d →
    match CurrentBid a, CurrentBidderID a with
    | Some c, Some u =>
        ∃ b, b ∈ bids d ∧ bid_AuctionID b = ID a ∧ bid_Amount b = c ∧
             bid_BidderID b = u ∧ bid_Accepted b = true
    | None, None => True
    | _, _ => False
    end.




(** ** The hub: what its properties are stated with *)

(** Every registered session has its [send] channel open. *)
Definition registered_open (h : handlers.Hub) : Prop :=
  ∀ client, client ∈ handlers.clients h →
    ∃ c, handlers.memory h !! client = Some c ∧
         handlers.closed (handlers.send c) = false.

(** The sessions subscribed to an auction. *)
Definition subscribers (auctionID : string) (h : handlers.Hub)
    : gset handlers.Client :=
  default ∅ (handlers.auctionClients h !! auctionID).

(** ** internal/handlers: the user of a request *)

(** [UserIDFromContext]: [userID, ok := ctx.Value(UserIDKey).(string)] *)
Definition UserIDFromContext (ctx : handlers.Context) : string * bool :=
  match handlers.Value ctx handlers.UserIDKey with
  | handlers.any_string userID => (userID, true)
  | _ => ("", false)
  end.

(** [userID := r.Context().Value(UserIDKey).(string)], the first statement
    of the handlers [CreateAuction] and [FinalizeAuction]: the assertion
    without [ok] panics when the value is not a string. *)
Definition userID_of_request (ctx : handlers.Context)
    : handlers.outcome string :=
  match handlers.Value ctx handlers.UserIDKey with
  | handlers.any_string userID => handlers.Done userID
  | _ => handlers.Panic "interface conversion: interface {} is not string"
  end.

(** ** The sweep of the reaper: what its properties are stated with *)

(** The tables [d'] are the tables [d] after a sweep that has resolved
    the auctions [resolved] and has not come to the auctions [left]: the
    rows of a resolved auction that had no winning bid are cancelled and
    otherwise as they were except for [updated_at]; every other row is
    as it was, and so are in particular the rows of the auctions left,
    which are active; an NFT row is as it was or has lost its auction
    reference; users, wallets and bids are as they were. *)
Definition swept (resolved left : list Auction) (d d' : Database) : Prop :=
  users d' = users d ∧ wallets d' = wallets d ∧ bids d' = bids d ∧
  Forall2 (λ a a',
     ((∃ x, x ∈ resolved ∧ ID x = ID a ∧ no_winning_bid x) →
        Status a' = AuctionStatusCancelled ∧ same_but_status a a') ∧
     (¬ (∃ x, x ∈ resolved ∧ ID x = ID a ∧ no_winning_bid x) → a' = a) ∧
     (∀ y, y ∈ left → ID y = ID a →
        Status a = AuctionStatusActive ∧ a' = a))
    (auctions d) (auctions d') ∧
  Forall2 (λ n n', n' = n ∨
             (nft_AuctionID n' = None ∧ same_but_auction_id n n'))
          (nfts d) (nfts d').

(** * Properties *)

(** ** The monad: inversion and execution *)

Section monad_inversion.
Context {A B : Type}.

Lemma bind_inv (c : M A) (k : A → M B) w r w' :
  bind c k w = (r, w') →
  (∃ e, c w = (Fail e, w') ∧ r = Fail e) ∨
  (∃ a w1, c w = (Ok a, w1) ∧ k a w1 = (r, w')).
Proof.
  unfold bind. destruct (c w) as [[a|e] w1]; intros H; simplify_eq; eauto.
Qed.

Lemma bind_Ok (c : M A) (k : A → M B) w a w1 :
  c w = (Ok a, w1) → bind c k w = k a w1.
Proof. unfold bind. by intros ->. Qed.

Lemma bind_Fail (c : M A) (k : A → M B) w e w1 :
  c w = (Fail e, w1) → bind c k w = (Fail e, w1).
Proof. unfold bind. by intros ->. Qed.

End monad_inversion.

Lemma driver_call_inv w r w' :
  driver_call w = (r, w') →
  db w' = db w ∧ (r = Ok () ∨ r = Fail driver_error).
Proof.
  unfold driver_call.
  destruct (fault w (calls w)); intros; simplify_eq/=; auto.
Qed.

Lemma time_Now_inv w r w' :
  time_Now w = (r, w') → r = Ok (clock w (reads w)) ∧ db w' = db w.
Proof. unfold time_Now. by intros; simplify_eq/=. Qed.

Lemma uuid_New_inv w r w' :
  uuid_New w = (r, w') → r = Ok (uuids w (issued w)) ∧ db w' = db w.
Proof. unfold uuid_New. by intros; simplify_eq/=. Qed.

Lemma Exec_inv stmt w r w' :
  Exec stmt w = (r, w') →
  (r = Fail driver_error ∧ db w' = db w) ∨
  (r = Ok () ∧ stmt (db w) = Some (db w')).
Proof.
  unfold Exec. intros [(e & H & ->)|(a & w1 & H & H1)]%bind_inv;
    apply driver_call_inv in H as [Hd Hr].
  - destruct Hr; simplify_eq. auto.
  - rewrite <- Hd. destruct (stmt (db w1)); simplify_eq/=; auto.
Qed.

Lemma Get_inv {A} (query : Database → list A) w r w' :
  Get query w = (r, w') →
  db w' = db w ∧
  (r = Fail driver_error ∨ (r = Fail sql_ErrNoRows ∧ query (db w) = []) ∨
   (∃ row rest, r = Ok row ∧ query (db w) = row :: rest)).
Proof.
  unfold Get. intros [(e & H & ->)|(a & w1 & H & H1)]%bind_inv;
    apply driver_call_inv in H as [Hd Hr].
  - destruct Hr; simplify_eq. auto.
  - rewrite Hd in H1. destruct (query (db w)) eqn:?; simplify_eq/=; eauto 10.
Qed.

Lemma Select_inv {A} (query : Database → list A) w r w' :
  Select query w = (r, w') →
  db w' = db w ∧ (r = Fail driver_error ∨ r = Ok (query (db w))).
Proof.
  unfold Select. intros [(e & H & ->)|(a & w1 & H & H1)]%bind_inv;
    apply driver_call_inv in H as [Hd Hr].
  - destruct Hr; simplify_eq. auto.
  - simplify_eq/=. rewrite Hd. auto.
Qed.

Lemma Transaction_inv {A} (fn : Tx → M A) w r w' :
  Transaction fn w = (r, w') →
  (∃ e, r = Fail e ∧ db w' = db w ∧
        (e = driver_error ∨
         ∃ tx w0 w1, db w0 = db w ∧ fn tx w0 = (Fail e, w1))) ∨
  (∃ a tx w0 w1, r = Ok a ∧ db w0 = db w ∧ fn tx w0 = (Ok a, w1) ∧
     db w' = db w1).
Proof.
  unfold Transaction.
  intros [(e & H & ->)|([] & w1 & H & H1)]%bind_inv;
    apply driver_call_inv in H as [Hd Hr].
  - destruct Hr; simplify_eq. left. eauto.
  - apply bind_inv in H1 as [(e & H1 & ->)|(now & w2 & H1 & H2)];
      apply time_Now_inv in H1 as [? Hd2]; simplify_eq.
    cbv beta zeta in H2.
    destruct (fn _ w2) as [[a|e] w3] eqn:Hfn; simplify_eq/=.
    + destruct (driver_call w3) as [[?|e] w4] eqn:Hc; simplify_eq/=;
        apply driver_call_inv in Hc as [Hd4 Hr4].
      * right. exists a, (mkTx (clock w1 (reads w1))), w2, w3.
        split_and!; auto; congruence.
      * destruct Hr4; simplify_eq.
        left. exists driver_error. split_and!; auto; simpl; congruence.
    + left. exists e. split_and!; auto; [simpl; congruence|].
      right. exists (mkTx (clock w1 (reads w1))), w2, w3.
      split; [congruence|done].
Qed.

(** Inversion of a run of monadic code, one primitive after the other. *)
Ltac minv :=
  repeat
    (match goal with
     | H : bind _ _ _ = (_, _) |- _ =>
         apply bind_inv in H as [(? & H & ?)|(? & ? & ? & H)]
     | H : ret _ _ = (_, _) |- _ => unfold ret in H
     | H : fail _ _ = (_, _) |- _ => unfold fail in H
     | H : Exec _ _ = (_, _) |- _ => apply Exec_inv in H as [[? ?]|[? ?]]
     | H : Get _ _ = (_, _) |- _ =>
         apply Get_inv in H as [? [?|[[? ?]|(? & ? & ? & ?)]]]
     | H : Select _ _ = (_, _) |- _ => apply Select_inv in H as [? [?|?]]
     | H : time_Now _ = (_, _) |- _ => apply time_Now_inv in H as [? ?]
     | H : uuid_New _ = (_, _) |- _ => apply uuid_New_inv in H as [? ?]
     | H : (if ?c then _ else _) _ = (_, _) |- _ => destruct c eqn:?
     | H : (match ?c with left _ => _ | right _ => _ end) _ = (_, _) |- _ =>
         destruct c
     | H : (match ?c with Some _ => _ | None => _ end) _ = (_, _) |- _ =>
         destruct c eqn:?
     | H : UserRepository.GetWalletsByUserID _ _ = (_, _) |- _ =>
         unfold UserRepository.GetWalletsByUserID in H
     | H : WalletService.GetBalance _ _ = (_, _) |- _ =>
         unfold WalletService.GetBalance in H
     end; simplify_eq).

(** ** The repository *)

Section repository.
Import AuctionRepository.

Lemma INSERT_bid_Some b d d' :
  INSERT_bid b d = Some d' → d' = set_bids (bids d ++ [bid_row b]) d.
Proof. unfold INSERT_bid. case_match; naive_solver. Qed.

Lemma SELECT_current_bid_set_bids aid l d :
  SELECT_current_bid aid (set_bids l d) = SELECT_current_bid aid d.
Proof. reflexivity. Qed.

Lemma CreateBid_inv bid w r w' :
  CreateBid bid w = (r, w') →
  (∃ e, r = Fail e ∧ StorageFailure e ∧ db w' = db w) ∨
  (∃ b tx, r = Ok b ∧
     bid_AuctionID b = bid_AuctionID bid ∧ bid_Amount b = bid_Amount bid ∧
     bid_Accepted b = bid_Accepted bid ∧ bid_BidderID b = bid_BidderID bid ∧
     is_Some (INSERT_bid b (db w)) ∧
     SELECT_current_bid (bid_AuctionID b) (db w) ≠ [] ∧
     db w' = committed_bid tx b (db w)).
Proof.
  unfold CreateBid.
  intros [(e & -> & Hdb & He)
         |(b & tx & w0 & w1 & -> & Hd0 & Hfn & Hd1)]%Transaction_inv.
  - left. eexists; split_and!; eauto.
    destruct He as [->|(tx & w0 & w1 & Hd0 & Hfn)]; [by right|].
    unfold StorageFailure. minv; auto.
  - right. minv.
    all: eexists _, tx; split; [reflexivity|].
    all: match goal with
         | H : INSERT_bid _ (db ?x) = Some _ |- _ =>
             assert (Hx : db x = db w) by congruence; rewrite Hx in H;
             pose proof (INSERT_bid_Some _ _ _ H) as Hins
         end.
    all: match goal with
         | H : SELECT_current_bid _ _ = _ :: _ |- _ =>
             rewrite Hins, SELECT_current_bid_set_bids in H
         end.
    all: split_and!; try done; eauto; try congruence.
    all: unfold committed_bid.
    all: match goal with
         | H : SELECT_current_bid _ _ = _ :: _ |- _ => rewrite H
         end.
    all: match goal with H : is_highest _ _ = _ |- _ => rewrite H end.
    all: simpl bid_CreatedAt; congruence.
Qed.

Lemma CompleteAuction_inv auctionID status w r w' :
  CompleteAuction auctionID status w = (r, w') →
  (∃ e, r = Fail e ∧ StorageFailure e ∧ db w' = db w) ∨
  (∃ tx now, r = Ok () ∧
     db w' = completed_auction tx now auctionID status (db w)).
Proof.
  unfold CompleteAuction.
  intros [(e & -> & Hdb & He)
         |(b & tx & w0 & w1 & -> & Hd0 & Hfn & Hd1)]%Transaction_inv.
  - left. eexists; split_and!; eauto.
    destruct He as [->|(tx & w0 & w1 & Hd0 & Hfn)]; [by right|].
    unfold StorageFailure. minv; auto.
  - right. minv.
    all: exists tx, (clock w0 (reads w0)); split; [done|].
    all: unfold completed_auction.
    all: match goal with H : decide _ = _ |- _ => rewrite H end.
    all: congruence.
Qed.

End repository.

(** ** The invariant of the leading bid *)

Section leading_bid.
Import AuctionRepository.
Variable auctionID : string.

Lemma accepted_amounts_committed_bid tx b d :
  accepted_amounts auctionID (committed_bid tx b d) =
  (accepted_amounts auctionID d ++
   if decide (bid_AuctionID b = auctionID ∧ bid_Accepted b = true)
   then [bid_Amount b] else [])%list.
Proof.
  assert (bids (committed_bid tx b d) = (bids d ++ [bid_row b])%list) as Hb.
  { unfold committed_bid. repeat case_match; reflexivity. }
  unfold accepted_amounts. rewrite Hb, filter_app, fmap_app. f_equal.
  rewrite filter_cons, filter_nil. simpl.
  repeat case_decide; naive_solver.
Qed.

Lemma accepted_amounts_completed_auction tx now id status d :
  accepted_amounts auctionID (completed_auction tx now id status d) =
  accepted_amounts auctionID d.
Proof. unfold completed_auction. by case_decide. Qed.

Lemma auctions_completed_auction tx now id status d a' :
  a' ∈ auctions (completed_auction tx now id status d) →
  ∃ a, a ∈ auctions d ∧ ID a' = ID a ∧ CurrentBid a' = CurrentBid a.
Proof.
  assert (auctions (completed_auction tx now id status d) =
          auctions (UPDATE_status tx status now id d)) as ->.
  { unfold completed_auction. by case_decide. }
  simpl. intros (a & -> & Ha)%list_elem_of_fmap.
  exists a. by case_match.
Qed.

Lemma SELECT_current_bid_cons aid d cb rest :
  SELECT_current_bid aid d = cb :: rest →
  ∃ a, a ∈ auctions d ∧ ID a = aid ∧ CurrentBid a = cb.
Proof.
  unfold SELECT_current_bid.
  intros (a & l & -> & _ & Hf)%fmap_cons_inv.
  assert (a ∈ filter (λ a, ID a = aid) (auctions d)) as Ha.
  { rewrite Hf. apply elem_of_cons. by left. }
  apply list_elem_of_filter in Ha as [? ?]. eauto.
Qed.

Lemma SELECT_current_bid_nil aid d a :
  SELECT_current_bid aid d = [] → a ∈ auctions d → ID a ≠ aid.
Proof.
  unfold SELECT_current_bid. intros Hnil%fmap_nil_inv Ha Hid.
  by apply (filter_nil_not_elem_of (λ a, ID a = aid) _ a Hnil Hid).
Qed.

Lemma is_maximum_unique c1 c2 l : is_maximum c1 l → is_maximum c2 l → c1 = c2.
Proof. intros [Hc1 H1] [Hc2 H2]. apply H1 in Hc2. apply H2 in Hc1. lia. Qed.

Lemma is_maximum_snoc_le c x l :
  is_maximum c l → x ≤ c → is_maximum c (l ++ [x]).
Proof.
  intros [Hc Hmax] Hx. split.
  - apply elem_of_app. by left.
  - intros y [Hy| ->%list_elem_of_singleton]%elem_of_app; auto.
Qed.

Lemma is_maximum_snoc_gt c x l :
  is_maximum c l → x > c → is_maximum x (l ++ [x]).
Proof.
  intros [Hc Hmax] Hx. split.
  - apply elem_of_app. right. by apply list_elem_of_singleton.
  - intros y [Hy%Hmax| ->%list_elem_of_singleton]%elem_of_app; lia.
Qed.

Lemma is_maximum_singleton x : is_maximum x [x].
Proof.
  split; [by apply list_elem_of_singleton|].
  intros y ->%list_elem_of_singleton. lia.
Qed.

Lemma highest_bid_invariant_committed_bid tx b d :
  bid_Accepted b = true →
  highest_bid_invariant auctionID d →
  highest_bid_invariant auctionID (committed_bid tx b d).
Proof.
  intros Hacc Hinv a' Ha' Hid.
  rewrite accepted_amounts_committed_bid.
  case_decide as Hb.
  - destruct Hb as [Hb _]. revert Ha'. unfold committed_bid. rewrite Hb.
    destruct (SELECT_current_bid auctionID d) as [|cb rest] eqn:Hsel.
    { intros Ha'. exfalso. by apply (SELECT_current_bid_nil _ _ _ Hsel Ha'). }
    apply SELECT_current_bid_cons in Hsel as (a1 & Ha1 & Hid1 & Hcb1).
    pose proof (Hinv a1 Ha1 Hid1) as Hinv1. rewrite Hcb1 in Hinv1.
    destruct (is_highest b cb) eqn:Hhi.
    + simpl. intros (a & -> & Ha)%list_elem_of_fmap.
      assert (ID a = auctionID) as Hida.
      { destruct (bool_decide (ID a = bid_AuctionID b)); exact Hid. }
      rewrite Hb, bool_decide_eq_true_2 by done.
      simpl. destruct cb as [c|]; simpl in Hhi.
      * apply bool_decide_eq_true in Hhi. by eapply is_maximum_snoc_gt.
      * rewrite Hinv1. apply is_maximum_singleton.
    + intros Ha'. destruct cb as [c|]; [|done]. simpl in Hhi.
      apply bool_decide_eq_false in Hhi.
      pose proof (Hinv a' Ha' Hid) as Hinv'.
      destruct (CurrentBid a') as [c'|].
      * rewrite (is_maximum_unique _ _ _ Hinv' Hinv1).
        apply is_maximum_snoc_le; [done|lia].
      * rewrite Hinv' in Hinv1. by destruct Hinv1 as [?%elem_of_nil _].
  - rewrite app_nil_r. revert Ha'. unfold committed_bid.
    destruct (SELECT_current_bid _ d) as [|cb rest] eqn:Hsel;
      [by intros Ha'; apply (Hinv a' Ha' Hid)|].
    destruct (is_highest b cb); [|by intros Ha'; apply (Hinv a' Ha' Hid)].
    simpl. intros (a & -> & Ha)%list_elem_of_fmap.
    case_bool_decide as Hida; simpl in *; [|by apply Hinv].
    destruct Hb. split; congruence.
Qed.

Lemma highest_bid_invariant_completed_auction tx now id status d :
  highest_bid_invariant auctionID d →
  highest_bid_invariant auctionID (completed_auction tx now id status d).
Proof.
  intros Hinv a' Ha' Hid. rewrite accepted_amounts_completed_auction.
  apply auctions_completed_auction in Ha' as (a & Ha & Hida & ->).
  apply Hinv; congruence.
Qed.

(** Under the invariant, a table whose accepted amounts include those of
    an earlier table has a current bid that is not lower. *)
Lemma current_bid_le_of_invariant d1 d2 a1 a2 :
  highest_bid_invariant auctionID d1 →
  highest_bid_invariant auctionID d2 →
  accepted_amounts auctionID d1 ⊆ accepted_amounts auctionID d2 →
  a1 ∈ auctions d1 → a2 ∈ auctions d2 →
  ID a1 = auctionID → ID a2 = auctionID →
  current_bid_le (CurrentBid a1) (CurrentBid a2).
Proof.
  intros Hinv1 Hinv2 Hsub Ha1 Ha2 Hid1 Hid2.
  specialize (Hinv1 a1 Ha1 Hid1). specialize (Hinv2 a2 Ha2 Hid2).
  unfold current_bid_le.
  destruct (CurrentBid a1) as [c1|]; [|done].
  destruct Hinv1 as [Hc1%Hsub _].
  destruct (CurrentBid a2) as [c2|].
  - by apply Hinv2.
  - rewrite Hinv2 in Hc1. by apply elem_of_nil in Hc1.
Qed.

End leading_bid.

(** ** The service *)

Section service.
Import AuctionRepository AuctionService.

Lemma Repository_GetByID_inv id w r w' :
  AuctionRepository.GetByID id w = (r, w') →
  db w' = db w ∧
  (r = Fail driver_error ∨ r = Ok None ∨
   ∃ a, r = Ok (Some (scan a)) ∧ a ∈ auctions (db w) ∧ ID a = id).
Proof.
  unfold AuctionRepository.GetByID.
  destruct (Get _ w) as [[auction|e] w1] eqn:Hget.
  - intros ?; simplify_eq.
    apply Get_inv in Hget as [Hd [?|[[? ?]|(row & rest & ? & Hq)]]];
      simplify_eq.
    split; [done|]. right; right.
    assert (row ∈ scan <$> filter (λ a, ID a = id) (auctions (db w))) as Hin.
    { rewrite Hq. apply elem_of_cons. by left. }
    apply list_elem_of_fmap in Hin as (a & -> & [? ?]%list_elem_of_filter).
    eauto.
  - apply Get_inv in Hget as [Hd [?|[[? ?]|(row & rest & ? & Hq)]]];
      simplify_eq; intros ?; simplify_eq; auto.
Qed.

Lemma GetByID_inv id w r w' :
  GetByID id w = (r, w') →
  db w' = db w ∧
  ((∃ e, r = Fail e ∧ StorageFailure e) ∨ r = Ok None ∨
   ∃ auction, r = Ok (Some auction) ∧ loaded_from (db w) id auction).
Proof.
  unfold GetByID, GetByIDWithNFT, StorageFailure.
  intros [(e & H & ->)|(a & w1 & H & H1)]%bind_inv.
  { apply Repository_GetByID_inv in H as [Hd [?|[?|(row & ? & Hrow & Hid)]]];
      simplify_eq. eauto 10. }
  apply Repository_GetByID_inv in H as [Hd [?|[?|(row & ? & Hrow & Hid)]]];
    simplify_eq.
  { unfold ret in H1. simplify_eq. auto. }
  apply bind_inv in H1 as [(e & H1 & ->)|(nft & w2 & H1 & H2)].
  - destruct (Get _ w1) as [[n|e'] w2] eqn:Hget.
    + simplify_eq.
    + apply Get_inv in Hget as [Hd2 [?|[[? ?]|(? & ? & ? & ?)]]];
        simplify_eq. split; [congruence|]. eauto 10.
  - assert (db w2 = db w1) as Hd2.
    { destruct (Get _ w1) as [[n|e'] w3] eqn:Hget;
        apply Get_inv in Hget as [Hd3 [?|[[? ?]|(? & ? & ? & ?)]]];
        simplify_eq; done. }
    unfold GetBidsByAuctionID in H2.
    minv; (split; [congruence|]); eauto.
    right; right. eexists; split; [done|].
    exists row, nft. eexists. split_and!; eauto.
Qed.


Lemma PlaceBid_inv req userID w r w' :
  PlaceBid req userID w = (r, w') →
  (∃ e, r = Fail e ∧ db w' = db w) ∨
  (∃ b tx, r = Ok b ∧
     bid_AuctionID b = req_AuctionID req ∧ bid_Amount b = req_Amount req ∧
     bid_Accepted b = true ∧ bid_BidderID b = userID ∧
     db w' = committed_bid tx b (db w)).
Proof.
  unfold PlaceBid.
  intros [(e & H & ->)|(a & w1 & H & H1)]%bind_inv;
    apply GetByID_inv in H as [Hd _]; [by eauto|].
  minv.
  all: try (left; eexists; split; [done|congruence]).
  match goal with
  | H : CreateBid _ _ = _ |- _ =>
      apply CreateBid_inv in H
        as [(e & -> & _ & Hdb)
           |(b & tx & -> & ? & ? & ? & ? & _ & _ & Hdb)]
  end.
  - left. eexists; split; [done|congruence].
  - right. exists b, tx. split_and!; try done. congruence.
Qed.


Lemma FinalizeAuction_db req userID w r w' :
  FinalizeAuction req userID w = (r, w') →
  db w' = db w ∨
  ∃ tx now id status, db w' = completed_auction tx now id status (db w).
Proof.
  unfold FinalizeAuction.
  intros [(e & H & ->)|(a & w1 & H & H1)]%bind_inv;
    apply GetByID_inv in H as [Hd _]; [by eauto|].
  minv.
  all: try (left; congruence).
  all: match goal with
       | H : CompleteAuction _ _ _ = _ |- _ =>
           apply CompleteAuction_inv in H
             as [(e & ? & _ & Hdb)|(tx & now & ? & Hdb)]
       end.
  all: simplify_eq.
  all: try (left; congruence).
  all: match goal with
       | H : db _ = completed_auction _ _ _ _ (db ?x) |- _ =>
           replace (db x) with (db w) in H by congruence
       end.
  all: eauto 10.
Qed.

(** A property of the tables that every committed transaction keeps. *)
Section preserved.
Variable P : Database → Prop.
Hypothesis P_committed_bid :
  ∀ tx b d, bid_Accepted b = true → P d → P (committed_bid tx b d).
Hypothesis P_completed_auction :
  ∀ tx now id status d, P d → P (completed_auction tx now id status d).

Lemma PlaceBid_preserves req userID w :
  P (db w) → P (db (PlaceBid req userID w).2).
Proof.
  destruct (PlaceBid req userID w) as [r w'] eqn:H. simpl. intros HP.
  apply PlaceBid_inv in H
    as [(e & -> & ->)|(b & tx & -> & _ & _ & Hacc & _ & ->)]; auto.
Qed.

Lemma CompleteAuction_preserves id status w :
  P (db w) → P (db (CompleteAuction id status w).2).
Proof.
  destruct (CompleteAuction id status w) as [r w'] eqn:H. simpl. intros HP.
  apply CompleteAuction_inv in H as [(e & -> & _ & ->)|(tx & now & -> & ->)];
    auto.
Qed.

Lemma FinalizeAuction_preserves req userID w :
  P (db w) → P (db (FinalizeAuction req userID w).2).
Proof.
  destruct (FinalizeAuction req userID w) as [r w'] eqn:H. simpl. intros HP.
  apply FinalizeAuction_db in H as [->|(tx & now & id & status & ->)]; auto.
Qed.

Lemma ProcessEndedAuctions_range_preserves l w :
  P (db w) → P (db (ProcessEndedAuctions_range l w).2).
Proof.
  revert w. induction l as [|auction rest IH]; intros w HP; [done|].
  assert (∀ k : M unit, (∀ w1, P (db w1) → P (db (k w1).2)) →
          P (db (bind (CompleteAuction (ID auction) AuctionStatusCancelled)
                      (λ _, k) w).2)) as Hstep.
  { intros k Hk. unfold bind.
    pose proof (CompleteAuction_preserves (ID auction)
                  AuctionStatusCancelled w HP) as HP1.
    destruct (CompleteAuction _ _ w) as [[[]|e] w1]; simpl in *; auto. }
  simpl. repeat case_match; auto.
Qed.

Lemma ProcessEndedAuctions_preserves w :
  P (db w) → P (db (ProcessEndedAuctions w).2).
Proof.
  intros HP. unfold ProcessEndedAuctions, bind.
  destruct (GetEndedAuctions w) as [[l|e] w1] eqn:H.
  - apply ProcessEndedAuctions_range_preserves.
    unfold GetEndedAuctions in H. minv; congruence.
  - simpl. unfold GetEndedAuctions in H. minv; congruence.
Qed.

Lemma perform_preserves o w : P (db w) → P (db (perform o w)).
Proof.
  destruct o; simpl;
    auto using PlaceBid_preserves, FinalizeAuction_preserves,
               ProcessEndedAuctions_preserves.
Qed.

Lemma perform_all_preserves ops w : P (db w) → P (db (perform_all ops w)).
Proof.
  revert w. induction ops as [|o ops IH]; intros w HP; [done|].
  simpl. by apply IH, perform_preserves.
Qed.

End preserved.

End service.

(** ** The gates of [PlaceBid] *)

Lemma bind_time_Now {B} (k : Time → M B) w :
  bind time_Now k w = k (clock w (reads w)) (next_reading w).
Proof. reflexivity. Qed.

Section PlaceBid_gates.
Import AuctionRepository AuctionService.

Variables (req : PlaceBidRequest) (userID : string).
Variables (w w1 : World) (a : Auction).
Hypothesis loaded : GetByID (req_AuctionID req) w = (Ok (Some a), w1).

(** The first reading of the clock, [clock w1 (reads w1)], is compared
    with the start time, the second with the end time. *)

Lemma PlaceBid_not_active :
  Status a ≠ AuctionStatusActive →
  PlaceBid req userID w = (Fail InvalidState, w1).
Proof.
  intros Hst. unfold PlaceBid. rewrite (bind_Ok _ _ _ _ _ loaded).
  by destruct (decide (Status a ≠ AuctionStatusActive)).
Qed.

Lemma PlaceBid_not_started :
  Status a = AuctionStatusActive →
  clock w1 (reads w1) < StartTime a →
  PlaceBid req userID w = (Fail NotStarted, next_reading w1).
Proof.
  intros Hst Hnow. unfold PlaceBid. rewrite (bind_Ok _ _ _ _ _ loaded).
  destruct (decide (Status a ≠ AuctionStatusActive)); [done|].
  rewrite bind_time_Now.
  by destruct (decide (clock w1 (reads w1) < StartTime a)).
Qed.

Lemma PlaceBid_ended :
  Status a = AuctionStatusActive →
  StartTime a ≤ clock w1 (reads w1) →
  clock w1 (S (reads w1)) > EndTime a →
  PlaceBid req userID w = (Fail Ended, next_reading (next_reading w1)).
Proof.
  intros Hst Hnow1 Hnow2. unfold PlaceBid. rewrite (bind_Ok _ _ _ _ _ loaded).
  destruct (decide (Status a ≠ AuctionStatusActive)); [done|].
  rewrite bind_time_Now.
  destruct (decide (clock w1 (reads w1) < StartTime a)); [lia|].
  rewrite bind_time_Now.
  change (clock (next_reading w1) (reads (next_reading w1)))
    with (clock w1 (S (reads w1))).
  by destruct (decide (clock w1 (S (reads w1)) > EndTime a)).
Qed.

(** A bid row is written only by a call that got through the three gates. *)
Lemma PlaceBid_writes_only_in_window r w' :
  PlaceBid req userID w = (r, w') →
  bids (db w') ≠ bids (db w) →
  Status a = AuctionStatusActive ∧
  StartTime a ≤ clock w1 (reads w1) ∧ clock w1 (S (reads w1)) ≤ EndTime a.
Proof.
  intros Hrun Hbids.
  assert (db w1 = db w) as Hd by (by apply GetByID_inv in loaded as [? _]).
  destruct (decide (Status a = AuctionStatusActive)) as [Hst|Hst]; last first.
  { rewrite (PlaceBid_not_active Hst) in Hrun. simplify_eq.
    by rewrite Hd in Hbids. }
  destruct (decide (clock w1 (reads w1) < StartTime a)) as [Hlt|Hge].
  { rewrite (PlaceBid_not_started Hst Hlt) in Hrun. simplify_eq.
    by destruct Hbids; rewrite <- Hd. }
  destruct (decide (clock w1 (S (reads w1)) > EndTime a)) as [Hgt|Hle].
  { rewrite PlaceBid_ended in Hrun by (done || lia). simplify_eq.
    by destruct Hbids; rewrite <- Hd. }
  split_and!; [done|lia..].
Qed.

(** C3, amended.  For an active auction whose two clock readings are
    within the window, [PlaceBid] fails with [BidTooLow] exactly when the
    auction has a current bid and the amount is not above it, or the
    amount is below the start price.  Equality with the current bid is
    rejected; equality with the start price passes the check ("at least
    the start price"). *)
Theorem PlaceBid_BidTooLow_iff :
  Status a = AuctionStatusActive →
  StartTime a ≤ clock w1 (reads w1) →
  clock w1 (S (reads w1)) ≤ EndTime a →
  (∃ e w', PlaceBid req userID w = (Fail e, w') ∧ BidTooLow e) ↔
  (∃ currentBid, CurrentBid a = Some currentBid ∧
                 req_Amount req ≤ currentBid) ∨
  req_Amount req < StartPrice a.
Proof.
  intros Hst Hnow1 Hnow2. unfold PlaceBid. rewrite (bind_Ok _ _ _ _ _ loaded).
  destruct (decide (Status a ≠ AuctionStatusActive)); [done|].
  rewrite bind_time_Now.
  destruct (decide (clock w1 (reads w1) < StartTime a)); [lia|].
  rewrite bind_time_Now.
  change (clock (next_reading w1) (reads (next_reading w1)))
    with (clock w1 (S (reads w1))).
  destruct (decide (clock w1 (S (reads w1)) > EndTime a)); [lia|].
  unfold BidTooLow. split.
  - intros (e & w' & H & He).
    destruct (CurrentBid a) as [cb|] eqn:Hcb;
      [case_bool_decide; [by eauto|]|];
      (destruct (decide (req_Amount req < StartPrice a)); [by auto|]);
      exfalso; destruct He as [-> | ->]; minv.
    all: match goal with
         | H : CreateBid _ _ = _ |- _ =>
             apply CreateBid_inv in H
               as [(e' & ? & [?|?] & _)|(? & ? & ? & _)]
         end; simplify_eq.
  - intros [(cb & -> & Hle)|Hlt].
    + rewrite bool_decide_eq_true_2 by done. unfold fail. eauto.
    + destruct (match CurrentBid a with Some _ => _ | None => _ end).
      * unfold fail. eauto.
      * destruct (decide (req_Amount req < StartPrice a)); [|done].
        unfold fail. eauto.
Qed.

End PlaceBid_gates.

(** ** [CompleteAuction]: what it writes and what it leaves *)

Section CompleteAuction_writes.
Import AuctionRepository.

Lemma same_but_status_refl a : same_but_status a a.
Proof. exists (Status a), (UpdatedAt a). by destruct a. Qed.

Lemma same_but_auction_id_refl n : same_but_auction_id n n.
Proof. exists (nft_AuctionID n), (nft_UpdatedAt n). by destruct n. Qed.

Lemma Forall2_fmap_diag {A} (R : A → A → Prop) (f : A → A) l :
  (∀ x, R x (f x)) → Forall2 R l (f <$> l).
Proof. intros HR. induction l; constructor; auto. Qed.

Lemma UPDATE_status_auctions tx status now id d :
  Forall2 (λ a a', same_but_status a a' ∧
                   if decide (ID a = id) then Status a' = status else a' = a)
          (auctions d) (auctions (UPDATE_status tx status now id d)).
Proof.
  simpl. apply Forall2_fmap_diag. intros a.
  case_bool_decide; case_decide; try done.
  - split; [|done]. by exists status, (NOW tx).
  - split; [apply same_but_status_refl|done].
Qed.

Lemma UPDATE_release_nfts tx now id d :
  Forall2 (λ n n', same_but_auction_id n n' ∧
                   if decide (nft_AuctionID n = Some id)
                   then nft_AuctionID n' = None else n' = n)
          (nfts d) (nfts (UPDATE_release tx now id d)).
Proof.
  simpl. apply Forall2_fmap_diag. intros n.
  case_bool_decide; case_decide; try done.
  - split; [|done]. by exists None, (NOW tx).
  - split; [apply same_but_auction_id_refl|done].
Qed.

Lemma Forall2_same {A} (R : A → A → Prop) l : (∀ x, R x x) → Forall2 R l l.
Proof. intros HR. induction l; constructor; auto. Qed.

(** C7.  Whatever [CompleteAuction] returns: the tables of users, wallets
    and bids are as before; every auction row is as before except
    possibly for [status] and [updated_at], every NFT row except possibly
    for [auction_id] and [updated_at].  When it succeeds, the rows of the
    auction have the new status and the other auction rows are untouched;
    with status cancelled every NFT that referenced the auction has
    [auction_id] NULL and the other NFT rows are untouched; with status
    completed the NFT table is untouched, so the reference is retained.
    When it fails, nothing has changed. *)
Theorem CompleteAuction_frame auctionID status w r w' :
  CompleteAuction auctionID status w = (r, w') →
  users (db w') = users (db w) ∧
  wallets (db w') = wallets (db w) ∧
  bids (db w') = bids (db w) ∧
  Forall2 same_but_status (auctions (db w)) (auctions (db w')) ∧
  Forall2 same_but_auction_id (nfts (db w)) (nfts (db w')) ∧
  (r = Ok () →
     Forall2 (λ a a', if decide (ID a = auctionID)
                      then Status a' = status else a' = a)
             (auctions (db w)) (auctions (db w'))) ∧
  (r = Ok () → status = AuctionStatusCancelled →
     Forall2 (λ n n', if decide (nft_AuctionID n = Some auctionID)
                      then nft_AuctionID n' = None else n' = n)
             (nfts (db w)) (nfts (db w'))) ∧
  (r = Ok () → status = AuctionStatusCompleted →
     nfts (db w') = nfts (db w)) ∧
  (r ≠ Ok () → db w' = db w).
Proof.
  intros [(e & -> & _ & ->)|(tx & now & -> & ->)]%CompleteAuction_inv.
  - split_and!; try done.
    + apply Forall2_same, same_but_status_refl.
    + apply Forall2_same, same_but_auction_id_refl.
  - pose proof (UPDATE_status_auctions tx status now auctionID (db w)) as Ha.
    unfold completed_auction. case_decide as Hst.
    + split_and!; try done.
      * eapply Forall2_impl; [exact Ha|]. by intros ?? [? _].
      * apply Forall2_same, same_but_auction_id_refl.
      * intros _. eapply Forall2_impl; [exact Ha|]. by intros ?? [_ ?].
      * intros _ ->. done.
    + pose proof (UPDATE_release_nfts tx now auctionID
                    (UPDATE_status tx status now auctionID (db w))) as Hn.
      split_and!; try done.
      * eapply Forall2_impl; [exact Ha|]. by intros ?? [? _].
      * eapply Forall2_impl; [exact Hn|]. by intros ?? [? _].
      * intros _. eapply Forall2_impl; [exact Ha|]. by intros ?? [_ ?].
      * intros _ _. eapply Forall2_impl; [exact Hn|]. by intros ?? [_ ?].
Qed.

End CompleteAuction_writes.

(** ** Execution when the driver does not fail *)

Section no_fault.
Import AuctionRepository.

Lemma driver_call_no_fault w :
  no_fault w → driver_call w = (Ok (), next_call w).
Proof. intros Hnf. unfold driver_call. by rewrite Hnf. Qed.

Lemma Exec_no_fault stmt d w :
  no_fault w → stmt (db w) = Some d →
  Exec stmt w = (Ok (), set_db d (next_call w)).
Proof.
  intros Hnf Hs. unfold Exec.
  rewrite (bind_Ok _ _ _ _ _ (driver_call_no_fault _ Hnf)). simpl.
  by rewrite Hs.
Qed.

Lemma Transaction_no_fault {A} (fn : Tx → M A) w :
  no_fault w →
  (∀ tx w2, no_fault w2 → ∃ a w3, fn tx w2 = (Ok a, w3) ∧ no_fault w3) →
  ∃ a w', Transaction fn w = (Ok a, w') ∧ no_fault w'.
Proof.
  intros Hnf Hfn. unfold Transaction.
  rewrite (bind_Ok _ _ _ _ _ (driver_call_no_fault _ Hnf)).
  rewrite bind_time_Now. cbv beta zeta.
  destruct (Hfn (mkTx (clock (next_call w) (reads (next_call w))))
                (next_reading (next_call w)) Hnf) as (a & w3 & -> & Hnf3).
  rewrite (driver_call_no_fault _ Hnf3). eauto.
Qed.

Lemma CompleteAuction_no_fault auctionID status w :
  no_fault w →
  ∃ w', CompleteAuction auctionID status w = (Ok (), w') ∧ no_fault w'.
Proof.
  intros Hnf.
  destruct (Transaction_no_fault
    (λ tx, now <- time_Now ;;
       Exec (λ d, Some (UPDATE_status tx status now auctionID d)) ;;;
       if decide (status = AuctionStatusCompleted) then ret ()
       else Exec (λ d, Some (UPDATE_release tx now auctionID d))) w Hnf)
    as ([] & w' & H & Hnf'); [|by eauto].
  intros tx w2 Hnf2. rewrite bind_time_Now.
  erewrite bind_Ok; [|by apply Exec_no_fault].
  case_decide.
  - unfold ret. eauto.
  - erewrite Exec_no_fault; [|done..]. eauto.
Qed.

End no_fault.

(** ** The gate and the branches of [FinalizeAuction] *)

Section FinalizeAuction_branches.
Import AuctionRepository AuctionService.

Variables (req : FinalizeAuctionRequest) (w w1 : World) (a : Auction).
Hypothesis loaded : GetByID (fin_AuctionID req) w = (Ok (Some a), w1).
Hypothesis active : Status a = AuctionStatusActive.

Lemma db_loaded : db w1 = db w.
Proof. by apply GetByID_inv in loaded as [? _]. Qed.

Lemma gate_closed now :
  negb (bool_decide (now > EndTime a)) && negb (buyNowTriggered a) = true ↔
  now ≤ EndTime a ∧ buyNowTriggered a = false.
Proof.
  rewrite andb_true_iff, !negb_true_iff, bool_decide_eq_false.
  intuition lia.
Qed.

Lemma gate_open now :
  negb (bool_decide (now > EndTime a)) && negb (buyNowTriggered a) = false ↔
  past_gate now a.
Proof.
  unfold past_gate.
  rewrite andb_false_iff, !negb_false_iff, bool_decide_eq_true. done.
Qed.

Lemma FinalizeAuction_gate_closed userID :
  clock w1 (reads w1) ≤ EndTime a → buyNowTriggered a = false →
  FinalizeAuction req userID w = (Fail NotEnded, next_reading w1).
Proof.
  intros Hnow Hbuy. unfold FinalizeAuction.
  rewrite (bind_Ok _ _ _ _ _ loaded).
  destruct (decide (Status a ≠ AuctionStatusActive)); [done|].
  rewrite bind_time_Now.
  by rewrite (proj2 (gate_closed _)).
Qed.

Lemma FinalizeAuction_cancel_branch userID :
  past_gate (clock w1 (reads w1)) a → no_winning_bid a →
  FinalizeAuction req userID w =
  bind (CompleteAuction (ID a) AuctionStatusCancelled)
       (λ _, ret (set_Status AuctionStatusCancelled a)) (next_reading w1).
Proof.
  intros Hgate Hno. unfold FinalizeAuction.
  rewrite (bind_Ok _ _ _ _ _ loaded).
  destruct (decide (Status a ≠ AuctionStatusActive)); [done|].
  rewrite bind_time_Now.
  rewrite (proj2 (gate_open _)) by done.
  destruct Hno as [-> | [Hb | (cb & reserve & -> & -> & Hlt)]].
  - done.
  - rewrite Hb. by destruct (CurrentBid a).
  - destruct (CurrentBidderID a); [|done].
    by rewrite bool_decide_eq_true_2.
Qed.

Lemma winning_bid :
  ¬ no_winning_bid a →
  ∃ currentBid bidder,
    CurrentBid a = Some currentBid ∧ CurrentBidderID a = Some bidder ∧
    match ReservePrice a with
    | Some reserve => bool_decide (currentBid < reserve)
    | None => false
    end = false.
Proof.
  unfold no_winning_bid. intros Hno.
  destruct (CurrentBid a) as [cb|]; [|by destruct Hno; auto].
  destruct (CurrentBidderID a) as [bidder|]; [|by destruct Hno; auto].
  exists cb, bidder. split_and!; try done.
  destruct (ReservePrice a) as [reserve|]; [|done].
  apply bool_decide_eq_false. intros Hlt. apply Hno. eauto 10.
Qed.

Lemma FinalizeAuction_unauthorized userID bidder :
  past_gate (clock w1 (reads w1)) a → ¬ no_winning_bid a →
  CurrentBidderID a = Some bidder → userID ≠ bidder →
  FinalizeAuction req userID w = (Fail Unauthorized, next_reading w1).
Proof.
  intros Hgate (cb & bidder' & Hcb & Hbidder & Hres)%winning_bid ? Hne.
  simplify_eq. unfold FinalizeAuction.
  rewrite (bind_Ok _ _ _ _ _ loaded).
  destruct (decide (Status a ≠ AuctionStatusActive)); [done|].
  rewrite bind_time_Now.
  rewrite (proj2 (gate_open _)) by done.
  rewrite Hcb, Hbidder, Hres.
  by destruct (decide (bidder' ≠ userID)).
Qed.

Lemma FinalizeAuction_complete_branch bidder :
  past_gate (clock w1 (reads w1)) a → ¬ no_winning_bid a →
  CurrentBidderID a = Some bidder →
  FinalizeAuction req bidder w =
  bind (CompleteAuction (ID a) AuctionStatusCompleted)
       (λ _, ret (set_Status AuctionStatusCompleted a)) (next_reading w1).
Proof.
  intros Hgate (cb & bidder' & Hcb & Hbidder & Hres)%winning_bid ?.
  simplify_eq. unfold FinalizeAuction.
  rewrite (bind_Ok _ _ _ _ _ loaded).
  destruct (decide (Status a ≠ AuctionStatusActive)); [done|].
  rewrite bind_time_Now.
  rewrite (proj2 (gate_open _)) by done.
  rewrite Hcb, Hbidder, Hres.
  by destruct (decide (bidder' ≠ bidder')).
Qed.

End FinalizeAuction_branches.


Lemma resolved_as_completed_auction tx now id status d :
  resolved_as status id d (completed_auction tx now id status d).
Proof.
  pose proof (UPDATE_status_auctions tx status now id d) as Ha.
  unfold resolved_as, completed_auction. case_decide as Hst.
  - split_and!; try done.
    eapply Forall2_impl; [exact Ha|]. intros a a' [? ?]. by case_decide.
  - pose proof (UPDATE_release_nfts tx now id
                  (AuctionRepository.UPDATE_status tx status now id d))
      as Hn.
    split_and!; try done.
    + eapply Forall2_impl; [exact Ha|]. intros a a' [? ?]. by case_decide.
    + eapply Forall2_impl; [exact Hn|]. intros n n' [? ?]. by case_decide.
Qed.

(** The outcomes of [CompleteAuction] followed by the return of the
    auction with its new status. *)
Lemma CompleteAuction_then_return id status (x : Auction) w2 r w' :
  bind (AuctionRepository.CompleteAuction id status) (λ _, ret x) w2
    = (r, w') →
  ((r = Ok x ∧ resolved_as status id (db w2) (db w')) ∨
   (∃ e, r = Fail e ∧ StorageFailure e ∧ db w' = db w2)) ∧
  (no_fault w2 → r = Ok x).
Proof.
  intros H. split.
  - apply bind_inv in H as [(e & H & ->)|([] & w3 & H & Hret)];
      apply CompleteAuction_inv in H
        as [(e' & ? & ? & ?)|(tx & now & ? & Hdb)];
      simplify_eq; [by eauto|].
    unfold ret in Hret. simplify_eq. left. split; [done|].
    rewrite Hdb. apply resolved_as_completed_auction.
  - intros Hnf.
    destruct (CompleteAuction_no_fault id status w2 Hnf) as (w3 & Hc & _).
    rewrite (bind_Ok _ _ _ _ _ Hc) in H. unfold ret in H. by simplify_eq.
Qed.

(** ** [FinalizeAuction]: who may finalize, and with what result *)

Section FinalizeAuction_outcomes.
Import AuctionRepository AuctionService.

Lemma no_winning_bid_dec a : no_winning_bid a ∨ ¬ no_winning_bid a.
Proof.
  unfold no_winning_bid.
  destruct (CurrentBid a) as [cb|]; [|by auto].
  destruct (CurrentBidderID a) as [bidder|]; [|by auto].
  destruct (ReservePrice a) as [reserve|].
  - destruct (decide (cb < reserve)); [left; eauto 10|right].
    intros [?|[?|(? & ? & ? & ? & ?)]]; simplify_eq. lia.
  - right. intros [?|[?|(? & ? & ? & ? & ?)]]; simplify_eq.
Qed.

Lemma FinalizeAuction_NotEnded_iff req userID w a w1 :
  GetByID (fin_AuctionID req) w = (Ok (Some a), w1) →
  Status a = AuctionStatusActive →
  (∃ w', FinalizeAuction req userID w = (Fail NotEnded, w')) ↔
  clock w1 (reads w1) ≤ EndTime a ∧ buyNowTriggered a = false.
Proof.
  intros loaded active. split.
  - intros [w' H].
    destruct (negb (bool_decide (clock w1 (reads w1) > EndTime a))
              && negb (buyNowTriggered a)) eqn:Hgate.
    { by apply gate_closed in Hgate. }
    exfalso. apply gate_open in Hgate.
    destruct (no_winning_bid_dec a) as [Hno|Hwin].
    + rewrite (FinalizeAuction_cancel_branch req w w1 a loaded active)
        in H by done.
      apply CompleteAuction_then_return in H
        as [[[? _]|(e & ? & [?|?] & _)] _]; simplify_eq.
    + destruct (winning_bid a Hwin) as (cb & bidder & _ & Hbidder & _).
      destruct (decide (userID = bidder)) as [->|Hne].
      * rewrite (FinalizeAuction_complete_branch req w w1 a loaded active)
          in H by done.
        apply CompleteAuction_then_return in H
          as [[[? _]|(e & ? & [?|?] & _)] _]; simplify_eq.
      * rewrite (FinalizeAuction_unauthorized req w w1 a loaded active
                   userID bidder) in H by done.
        simplify_eq.
  - intros [Hnow Hbuy]. exists (next_reading w1).
    by apply (FinalizeAuction_gate_closed req w w1 a).
Qed.

(** The branches behind the gate.  An active auction whose gate is open
    as the code tests it (the clock reads later than its end time, or its
    buy-now price was met) has a row in the table, and:

    If it has no leading bid, or the leading bid is below the reserve
    price: the outcome of [FinalizeAuction] is the same for every caller,
    it is never [Unauthorized], and it is either the auction as cancelled,
    with the tables resolved accordingly (the rows of the auction
    cancelled, its NFT released, nothing else touched), or a storage
    failure that leaves the tables as they were; without driver faults it
    is the cancelled auction.

    Otherwise there is a current bidder.  For any other caller the outcome
    is [Unauthorized] and the tables are as they were, so the auction
    stays active.  For the current bidder the outcome is the auction as
    completed, with the rows of the auction completed, the NFT table
    untouched and nothing else touched, or a storage failure that changes
    nothing; without driver faults it is the completed auction. *)
Lemma FinalizeAuction_past_gate req w a w1 :
  GetByID (fin_AuctionID req) w = (Ok (Some a), w1) →
  Status a = AuctionStatusActive →
  past_gate (clock w1 (reads w1)) a →
  (∃ row, row ∈ auctions (db w) ∧ ID row = ID a ∧
          Status row = AuctionStatusActive) ∧
  (no_winning_bid a →
     ∀ userID r w', FinalizeAuction req userID w = (r, w') →
       (∀ otherID, FinalizeAuction req otherID w = (r, w')) ∧
       r ≠ Fail Unauthorized ∧
       ((r = Ok (set_Status AuctionStatusCancelled a) ∧
         resolved_as AuctionStatusCancelled (ID a) (db w) (db w')) ∨
        (∃ e, r = Fail e ∧ StorageFailure e ∧ db w' = db w)) ∧
       (no_fault w1 → r = Ok (set_Status AuctionStatusCancelled a))) ∧
  (¬ no_winning_bid a →
     ∃ bidder, CurrentBidderID a = Some bidder ∧
       (∀ userID, userID ≠ bidder →
          ∃ w', FinalizeAuction req userID w = (Fail Unauthorized, w') ∧
                db w' = db w) ∧
       (∀ r w', FinalizeAuction req bidder w = (r, w') →
          ((r = Ok (set_Status AuctionStatusCompleted a) ∧
            resolved_as AuctionStatusCompleted (ID a) (db w) (db w')) ∨
           (∃ e, r = Fail e ∧ StorageFailure e ∧ db w' = db w)) ∧
          (no_fault w1 → r = Ok (set_Status AuctionStatusCompleted a)))).
Proof.
  intros loaded active Hgate.
  pose proof (db_loaded _ _ _ _ loaded) as Hd.
  split; [|split].
  - pose proof loaded as Hl.
    apply GetByID_inv in Hl
      as [_ [(e & ? & _)|[?|(x & ? & row & nft & bs & Hrow & Hid & ->)]]];
      simplify_eq.
    exists row. by split_and!.
  - intros Hno userID r w' H.
    pose proof (FinalizeAuction_cancel_branch req w w1 a loaded active) as Hbr.
    split; [|split].
    + intros otherID. rewrite Hbr by done. by rewrite Hbr in H.
    + rewrite Hbr in H by done.
      apply CompleteAuction_then_return in H
        as [[[? _]|(e & ? & [?|?] & _)] _]; by simplify_eq.
    + rewrite Hbr in H by done.
      apply CompleteAuction_then_return in H as [H Hnf].
      split; [|done].
      destruct H as [[? Hres]|(e & ? & ? & Hdb)]; [left|right].
      * split; [done|]. by rewrite <- Hd.
      * exists e. split_and!; try done. by rewrite Hdb.
  - intros Hwin.
    destruct (winning_bid a Hwin) as (cb & bidder & _ & Hbidder & _).
    exists bidder. split; [done|]. split.
    + intros userID Hne. eexists. split.
      * by apply (FinalizeAuction_unauthorized req w w1 a loaded active
                    userID bidder).
      * done.
    + intros r w' H.
      rewrite (FinalizeAuction_complete_branch req w w1 a loaded active)
        in H by done.
      apply CompleteAuction_then_return in H as [H Hnf].
      split; [|done].
      destruct H as [[? Hres]|(e & ? & ? & Hdb)]; [left|right].
      * split; [done|]. by rewrite <- Hd.
      * exists e. split_and!; try done. by rewrite Hdb.
Qed.

End FinalizeAuction_outcomes.

(** ** The leading bid over the lifetime of an auction *)

Section lifetime.
Variable auctionID : string.

Lemma perform_all_app ops1 ops2 w :
  perform_all (ops1 ++ ops2) w = perform_all ops2 (perform_all ops1 w).
Proof. apply foldl_app. Qed.

Lemma perform_all_invariant ops w :
  highest_bid_invariant auctionID (db w) →
  highest_bid_invariant auctionID (db (perform_all ops w)).
Proof.
  apply (perform_all_preserves (highest_bid_invariant auctionID)).
  - intros. by apply highest_bid_invariant_committed_bid.
  - intros. by apply highest_bid_invariant_completed_auction.
Qed.

Lemma perform_all_accepted_amounts ops w :
  accepted_amounts auctionID (db w) ⊆
  accepted_amounts auctionID (db (perform_all ops w)).
Proof.
  apply (perform_all_preserves
           (λ d, accepted_amounts auctionID (db w) ⊆
                 accepted_amounts auctionID d)); [| |done].
  - intros tx b d _ Hsub. rewrite accepted_amounts_committed_bid.
    intros x Hx. apply elem_of_app. left. by apply Hsub.
  - intros tx now id status d Hsub.
    by rewrite accepted_amounts_completed_auction.
Qed.

(** Operations that run one after the other, each returning before the
    next starts, keep the leading bid.  Start from tables in which the
    current bid of the auction is the maximum of the amounts of its
    accepted bids (NULL when there is none, as for a new auction).  Then
    after every sequence [ops1] of operations of the service -- [PlaceBid]
    calls, successful or not, and also [FinalizeAuction] calls and sweeps
    of the reaper -- the current bid, when present, is one of the accepted
    amounts and no accepted amount exceeds it; and after any further
    operations [ops2] the current bid is not lower than it was after
    [ops1].  Calls that overlap are another matter, see the section on
    calls of [PlaceBid] that overlap. *)
Theorem current_bid_is_maximum_and_monotone ops1 ops2 w :
  highest_bid_invariant auctionID (db w) →
  let w1 := perform_all ops1 w in
  let w2 := perform_all ops2 w1 in
  (∀ a c, a ∈ auctions (db w1) → ID a = auctionID → CurrentBid a = Some c →
     c ∈ accepted_amounts auctionID (db w1) ∧
     ∀ x, x ∈ accepted_amounts auctionID (db w1) → x ≤ c) ∧
  (∀ a1 a2, a1 ∈ auctions (db w1) → a2 ∈ auctions (db w2) →
     ID a1 = auctionID → ID a2 = auctionID →
     current_bid_le (CurrentBid a1) (CurrentBid a2)).
Proof.
  intros Hinv w1 w2.
  pose proof (perform_all_invariant ops1 w Hinv) as Hinv1. fold w1 in Hinv1.
  pose proof (perform_all_invariant ops2 w1 Hinv1) as Hinv2. fold w2 in Hinv2.
  split.
  - intros a c Ha Hid Hc. specialize (Hinv1 a Ha Hid).
    rewrite Hc in Hinv1. exact Hinv1.
  - intros a1 a2 Ha1 Ha2 Hid1 Hid2.
    apply (current_bid_le_of_invariant auctionID (db w1) (db w2)); auto.
    apply perform_all_accepted_amounts.
Qed.

End lifetime.

Lemma market_invariant : highest_bid_invariant "a1" market.
Proof.
  intros a Ha _. apply list_elem_of_singleton in Ha as ->. reflexivity.
Qed.

(** Scenario 1 of the specification: the current bid is 150000 after the
    first bid and 200000 after the third. *)
Lemma current_bid_is_maximum_and_monotone_witness :
  let w := market_world market 500 never in
  CurrentBid <$> auctions (db (perform_all (take 1 scenario_1) w))
    = [Some 150000] ∧
  CurrentBid <$> auctions (db (perform_all scenario_1 w)) = [Some 200000] ∧
  bid_Amount <$> bids (db (perform_all scenario_1 w)) = [150000; 200000] ∧
  current_bid_le (Some 150000) (Some 200000).
Proof.
  intros w. split_and!; [by vm_compute..|].
  pose proof (current_bid_is_maximum_and_monotone "a1"
                (take 1 scenario_1) (drop 1 scenario_1) w market_invariant)
    as [_ Hmono].
  apply (Hmono (set_UpdatedAt 500 (set_CurrentBid (Some 150000) (Some "u1")
                                     market_auction))
               (set_UpdatedAt 500 (set_CurrentBid (Some 200000) (Some "u2")
                                     market_auction))).
  - vm_compute. apply list_elem_of_singleton. reflexivity.
  - vm_compute. apply list_elem_of_singleton. reflexivity.
  - reflexivity.
  - reflexivity.
Defined.

(** ** The boundaries of the gates, on the example marketplace *)

Section examples.
Import AuctionRepository AuctionService.

(** C3, as stated, fails: a bid equal to the start price (100000), on an
    active auction with no bid yet and well inside its window, is not
    rejected. *)
Lemma bid_equal_to_StartPrice_not_rejected :
  ¬ (∀ req userID w a w1,
       GetByID (req_AuctionID req) w = (Ok (Some a), w1) →
       Status a = AuctionStatusActive →
       StartTime a ≤ clock w1 (reads w1) →
       clock w1 (S (reads w1)) < EndTime a →
       req_Amount req ≤
         Z.max (StartPrice a) (default (StartPrice a) (CurrentBid a)) →
       ∃ e w', PlaceBid req userID w = (Fail e, w') ∧ BidTooLow e).
Proof.
  intros H.
  specialize (H (mkPlaceBidRequest "a1" 100000 "w1") "u1"
                (market_world market 500 never)
                (loaded_a1 (market_world market 500 never))
                (after_load (market_world market 500 never))).
  destruct H as (e & w' & Hrun & _); [by vm_compute..|].
  vm_compute in Hrun. discriminate.
Qed.

Lemma PlaceBid_BidTooLow_iff_witness :
  GetByID "a1" (market_world market 500 never)
    = (Ok (Some (loaded_a1 (market_world market 500 never))),
       after_load (market_world market 500 never)) ∧
  Status (loaded_a1 (market_world market 500 never)) = AuctionStatusActive ∧
  ((∃ e w', PlaceBid (mkPlaceBidRequest "a1" 100000 "w1") "u1"
              (market_world market 500 never) = (Fail e, w') ∧ BidTooLow e) ↔
   (∃ currentBid,
      CurrentBid (loaded_a1 (market_world market 500 never))
        = Some currentBid ∧ 100000 ≤ currentBid) ∨
   100000 < StartPrice (loaded_a1 (market_world market 500 never))).
Proof.
  split; [by vm_compute|]. split; [by vm_compute|].
  apply (PlaceBid_BidTooLow_iff (mkPlaceBidRequest "a1" 100000 "w1") "u1"
           (market_world market 500 never)
           (after_load (market_world market 500 never))
           (loaded_a1 (market_world market 500 never)));
    by vm_compute.
Defined.

(** C4.  At the instant the clock reads exactly the end time, [PlaceBid]
    accepts the bid and writes it, where the claim has it fail with
    [Ended]; the query of the reaper at that same instant counts the
    auction as ended. *)
Theorem PlaceBid_accepts_at_EndTime :
  EndTime market_auction = 1000 ∧
  (PlaceBid (mkPlaceBidRequest "a1" 150000 "w1") "u1"
            (market_world market 1000 never)).1
    = Ok (mkBid "bid-0" "a1" "u1" "w1" 150000 1000 true None) ∧
  bids (db (PlaceBid (mkPlaceBidRequest "a1" 150000 "w1") "u1"
                     (market_world market 1000 never)).2)
    = [mkBid "bid-0" "a1" "u1" "w1" 150000 1000 true None] ∧
  (GetEndedAuctions (market_world market 1000 never)).1
    = Ok [market_auction].
Proof. split_and!; by vm_compute. Qed.

(** C5.  At the instant the clock reads exactly the end time, with no
    buy-now price, [FinalizeAuction] by the leading bidder fails with
    [NotEnded], where the claim has it proceed; the query of the reaper at
    that same instant counts the auction as ended; one instant later the
    same call completes the auction. *)
Theorem FinalizeAuction_refused_at_EndTime :
  EndTime (loaded_a1 (market_world market_with_bids 1000 never)) = 1000 ∧
  BuyNowPrice (loaded_a1 (market_world market_with_bids 1000 never)) = None ∧
  CurrentBid (loaded_a1 (market_world market_with_bids 1000 never))
    = Some 200000 ∧
  CurrentBidderID (loaded_a1 (market_world market_with_bids 1000 never))
    = Some "u2" ∧
  (FinalizeAuction (mkFinalizeAuctionRequest "a1" "signature") "u2"
                   (market_world market_with_bids 1000 never)).1
    = Fail NotEnded ∧
  (GetEndedAuctions (market_world market_with_bids 1000 never)).1
    = Ok (auctions market_with_bids) ∧
  (FinalizeAuction (mkFinalizeAuctionRequest "a1" "signature") "u2"
                   (market_world market_with_bids 1001 never)).1
    = Ok (set_Status AuctionStatusCompleted
            (loaded_a1 (market_world market_with_bids 1001 never))).
Proof. split_and!; by vm_compute. Qed.

(** The winner u2 finalizes the auction of scenario 1 one instant after
    its end; any other caller is refused. *)
Lemma FinalizeAuction_past_gate_witness :
  GetByID "a1" (market_world market_with_bids 1001 never)
    = (Ok (Some (loaded_a1 (market_world market_with_bids 1001 never))),
       after_load (market_world market_with_bids 1001 never)) ∧
  Status (loaded_a1 (market_world market_with_bids 1001 never))
    = AuctionStatusActive ∧
  past_gate 1001 (loaded_a1 (market_world market_with_bids 1001 never)) ∧
  ¬ no_winning_bid (loaded_a1 (market_world market_with_bids 1001 never)) ∧
  (∃ w', FinalizeAuction (mkFinalizeAuctionRequest "a1" "signature") "u1"
           (market_world market_with_bids 1001 never)
         = (Fail Unauthorized, w') ∧
         db w' = db (market_world market_with_bids 1001 never)).
Proof.
  assert (GetByID "a1" (market_world market_with_bids 1001 never)
    = (Ok (Some (loaded_a1 (market_world market_with_bids 1001 never))),
       after_load (market_world market_with_bids 1001 never))) as Hload.
  { vm_compute. reflexivity. }
  assert (Status (loaded_a1 (market_world market_with_bids 1001 never))
          = AuctionStatusActive) as Hact.
  { vm_compute. reflexivity. }
  assert (past_gate 1001
            (loaded_a1 (market_world market_with_bids 1001 never))) as Hgate.
  { left. vm_compute. reflexivity. }
  assert (¬ no_winning_bid
              (loaded_a1 (market_world market_with_bids 1001 never))) as Hwin.
  { intros [H|[H|(cb & reserve & _ & H & _)]]; vm_compute in H; discriminate. }
  split; [exact Hload|]. split; [exact Hact|]. split; [exact Hgate|].
  split; [exact Hwin|].
  destruct (FinalizeAuction_past_gate
              (mkFinalizeAuctionRequest "a1" "signature")
              (market_world market_with_bids 1001 never)
              (loaded_a1 (market_world market_with_bids 1001 never))
              (after_load (market_world market_with_bids 1001 never))
              Hload Hact Hgate) as (_ & _ & Hthm).
  destruct (Hthm Hwin) as (bidder & Hbidder & Hother & _).
  apply Hother. intros Heq. rewrite <- Heq in Hbidder.
  vm_compute in Hbidder. discriminate.
Defined.

Lemma CompleteAuction_frame_witness :
  CompleteAuction "a1" AuctionStatusCancelled
                  (market_world market 1001 never)
    = (Ok (),
       (CompleteAuction "a1" AuctionStatusCancelled
                        (market_world market 1001 never)).2) ∧
  nft_AuctionID <$>
    nfts (db (CompleteAuction "a1" AuctionStatusCancelled
                              (market_world market 1001 never)).2)
    = [None] ∧
  bids (db (CompleteAuction "a1" AuctionStatusCancelled
                            (market_world market 1001 never)).2)
    = bids market.
Proof.
  split; [by vm_compute|]. split; [by vm_compute|].
  apply (CompleteAuction_frame "a1" AuctionStatusCancelled
           (market_world market 1001 never) (Ok ())
           (CompleteAuction "a1" AuctionStatusCancelled
                            (market_world market 1001 never)).2).
  by vm_compute.
Defined.

(** An error of [CompleteAuction] leaves the loop at once: the auctions
    after the failing one are not looked at. *)
Lemma ProcessEndedAuctions_range_stops auction rest w e w1 :
  no_winning_bid auction →
  CompleteAuction (ID auction) AuctionStatusCancelled w = (Fail e, w1) →
  ProcessEndedAuctions_range (auction :: rest) w = (Fail e, w1).
Proof.
  intros Hno Hfail. simpl.
  destruct Hno as [-> | [Hb | (cb & reserve & -> & -> & Hlt)]].
  - by apply bind_Fail.
  - rewrite Hb. destruct (CurrentBid auction); by apply bind_Fail.
  - destruct (CurrentBidderID auction); [|by apply bind_Fail].
    rewrite bool_decide_eq_true_2 by done. by apply bind_Fail.
Qed.

(** The sweep over two ended auctions without bids, traced: the driver
    fails once, at the BEGIN of the transaction that cancels the first.
    The sweep returns the error, and the second auction, whose
    cancellation conditions hold, is still active.  Without the failure
    both are cancelled. *)
Theorem ProcessEndedAuctions_aborts_sweep :
  (GetEndedAuctions (market_world market_two 3000 second_call_fails)).1
    = Ok (auctions market_two) ∧
  Forall no_winning_bid (auctions market_two) ∧
  (ProcessEndedAuctions (market_world market_two 3000 second_call_fails)).1
    = Fail driver_error ∧
  Status <$> auctions (db (ProcessEndedAuctions
                            (market_world market_two 3000
                                          second_call_fails)).2)
    = [AuctionStatusActive; AuctionStatusActive] ∧
  Status <$> auctions (db (ProcessEndedAuctions
                            (market_world market_two 3000 never)).2)
    = [AuctionStatusCancelled; AuctionStatusCancelled].
Proof.
  split_and!; try by vm_compute.
  repeat constructor.
Qed.

End examples.

(** ** Concurrent bids *)

Section concurrency.
Import AuctionRepository ReadCommitted.

Lemma step_alone d s d1 s1 :
  session_step [] s d = (d1, s1) → step 0 (d, [s]) = (d1, [s1]).
Proof. unfold step. simpl. by intros ->. Qed.

(** A session that runs alone commits what [CreateBid] commits. *)
Lemma session_alone tx b d :
  is_Some (INSERT_bid b d) →
  SELECT_current_bid (bid_AuctionID b) d ≠ [] →
  run [0; 0; 0; 0]%nat (d, [mkSession b tx at_INSERT]) =
  (committed_bid tx b d, [mkSession b tx committed]).
Proof.
  intros [d' Hins] Hsel. unfold committed_bid.
  destruct (SELECT_current_bid (bid_AuctionID b) d) as [|cb rest] eqn:Hs;
    [done|].
  unfold run. cbn [foldl].
  rewrite (step_alone _ _ d (mkSession b tx at_SELECT))
    by (unfold session_step; simpl; by rewrite Hins).
  rewrite (step_alone _ _ d (mkSession b tx (at_UPDATE cb)))
    by (unfold session_step; simpl; by rewrite Hs).
  rewrite (step_alone _ _ d (mkSession b tx (at_Commit (is_highest b cb))))
    by (unfold session_step; simpl; by destruct (is_highest b cb)).
  apply step_alone. unfold session_step. simpl.
  by destruct (is_highest b cb).
Qed.

(** C2.  Two [CreateBid] transactions on auction a1, which has no bid
    yet: both read [current_bid] before either has committed, so both
    find their amount the highest.  The first commits 200000, the second
    then overwrites it with 150000.  Both bids are in the table as
    accepted, yet the persisted current bid is 150000: the update to
    200000 is lost, and the invariant of the leading bid is broken.  Run
    one after the other, the same two calls leave 200000. *)
Theorem lost_update :
  let final := run interleaved (market, [bid_200000; bid_150000]) in
  s_stage <$> final.2 = [committed; committed] ∧
  accepted_amounts "a1" final.1 = [200000; 150000] ∧
  CurrentBid <$> auctions final.1 = [Some 150000] ∧
  ¬ highest_bid_invariant "a1" final.1 ∧
  CurrentBid <$> auctions (run one_after_the_other
                             (market, [bid_200000; bid_150000])).1
    = [Some 200000].
Proof.
  intros final. split_and!; try by vm_compute.
  intros Hinv.
  specialize (Hinv (set_UpdatedAt 501 (set_CurrentBid (Some 150000) (Some "u2") market_auction))).
  destruct Hinv as [_ Hmax].
  - vm_compute. apply list_elem_of_singleton. reflexivity.
  - reflexivity.
  - specialize (Hmax 200000). vm_compute in Hmax.
    apply Hmax; [|done]. apply elem_of_cons. by left.
Qed.
End concurrency.

(** ** The hub *)

Section hub.
Import handlers.

(** C9.  A session is created by [ServeWs], subscribes to auction A (and,
    in the second run, to B) and never reads its queue.  In the first run
    the 256th broadcast to all overflows the queue: the hub closes the
    channel and drops the session from [clients], but the session is
    still in the set of A, and the next [BroadcastToAuction] for A panics
    on the closed channel.  In the second run the 256th broadcast to A
    overflows: the session leaves [clients] and the set of A, but it is
    still in the set of B. *)
Theorem closed_session_remains_subscribed :
  ServeWs authenticated NewHub = Done one_session ∧
  (session_1 ∈ clients one_session) ∧
  (∃ h, hub_run slow_consumer one_session = Done h ∧
     closed_in h session_1 = true ∧
     (session_1 ∉ clients h) ∧
     auctionClients h !! "A" = Some {[session_1]} ∧
     hub_step (ev_BroadcastToAuction "A" "auction_update") h
       = Panic "send on closed channel") ∧
  (∃ h, hub_run slow_subscriber one_session = Done h ∧
     closed_in h session_1 = true ∧
     (session_1 ∉ clients h) ∧
     auctionClients h !! "A" = Some ∅ ∧
     auctionClients h !! "B" = Some {[session_1]}).
Proof.
  split; [by vm_compute|]. split; [by vm_compute|]. split.
  - destruct (hub_run slow_consumer one_session) as [h|msg] eqn:Hrun;
      [|by vm_compute in Hrun].
    exists h. split; [done|].
    assert (h = match hub_run slow_consumer one_session with
                | Done h => h | Panic _ => NewHub end) as ->
      by (by rewrite Hrun).
    split_and!; by vm_compute.
  - destruct (hub_run slow_subscriber one_session) as [h|msg] eqn:Hrun;
      [|by vm_compute in Hrun].
    exists h. split; [done|].
    assert (h = match hub_run slow_subscriber one_session with
                | Done h => h | Panic _ => NewHub end) as ->
      by (by rewrite Hrun).
    split_and!; by vm_compute.
Qed.
End hub.

(** ** [ServeWs] *)

Section ServeWs.
Import handlers.

(** The key under which [NewContextWithUserID] stores the user is of type
    [contextKey]; looking up the string "userID" does not find it. *)
Lemma Value_NewContextWithUserID ctx userID :
  Value (NewContextWithUserID ctx userID) (any_string "userID") =
  Value ctx (any_string "userID").
Proof. reflexivity. Qed.

(** C10.  For a request whose context carries no string under the string
    key userID: when the upgrader accepts the handshake, [ServeWs] panics
    on the type assertion; and whenever it returns at all, the hub is
    exactly as it was, so no client has been registered. *)
Theorem ServeWs_without_string_userID r h :
  (∀ userID, Value (Context_ r) (any_string "userID") ≠ any_string userID) →
  (Upgrade r = true → ∃ msg, ServeWs r h = Panic msg) ∧
  (∀ h', ServeWs r h = Done h' → h' = h).
Proof.
  intros Hctx. unfold ServeWs. destruct (Upgrade r); simpl.
  - destruct (Value (Context_ r) (any_string "userID")) as [|userID| |] eqn:HV;
      [|by destruct (Hctx userID)|..]; split; eauto; by intros.
  - split; [done|]. by intros h' [= <-].
Qed.

Lemma ServeWs_without_string_userID_witness :
  (∀ userID,
     Value (Context_ (mkRequest true (NewContextWithUserID [] "u1")))
           (any_string "userID") ≠ any_string userID) ∧
  (∃ msg, ServeWs (mkRequest true (NewContextWithUserID [] "u1")) NewHub
          = Panic msg).
Proof.
  assert (∀ userID,
     Value (Context_ (mkRequest true (NewContextWithUserID [] "u1")))
           (any_string "userID") ≠ any_string userID) as Hctx.
  { intros userID. vm_compute. discriminate. }
  split; [exact Hctx|].
  apply (ServeWs_without_string_userID
           (mkRequest true (NewContextWithUserID [] "u1")) NewHub Hctx).
  reflexivity.
Defined.
End ServeWs.

(** ** Lists *)

Lemma filter_none {A} (P : A → Prop) `{!∀ x, Decision (P x)} l :
  (∀ x, x ∈ l → ¬ P x) → filter P l = [].
Proof.
  induction l as [|x l IH]; [done|]. intros Hl.
  rewrite filter_cons, decide_False by (apply Hl; left).
  apply IH. intros y Hy. apply Hl. by right.
Qed.

Lemma head_filter_fmap {A} (P : A → Prop) `{!∀ x, Decision (P x)}
    (f : A → A) l x :
  (∀ y, P (f y) ↔ P y) →
  head (filter P l) = Some x → head (filter P (f <$> l)) = Some (f x).
Proof.
  intros Hf. induction l as [|y l IH]; [done|].
  rewrite fmap_cons, !filter_cons.
  destruct (decide (P y)) as [Hy|Hy].
  - rewrite decide_True by by apply Hf. simpl. by intros [= ->].
  - rewrite decide_False by by rewrite Hf. done.
Qed.

Lemma Forall2_elem_of_r {A B} (R : A → B → Prop) l k y :
  Forall2 R l k → y ∈ k → ∃ x, x ∈ l ∧ R x y.
Proof.
  induction 1 as [|x y' l k HR _ IH]; [by intros ?%elem_of_nil|].
  intros [->|Hy]%elem_of_cons.
  - exists x. split; [by left|done].
  - destruct (IH Hy) as (x' & ? & ?). exists x'. split; [by right|done].
Qed.


Lemma NoDup_fmap_elem_eq {A B} (f : A → B) l x y :
  NoDup (f <$> l) → x ∈ l → y ∈ l → f x = f y → x = y.
Proof.
  induction l as [|z l IH]; [by intros _ ?%elem_of_nil|].
  rewrite fmap_cons, NoDup_cons.
  intros [Hz Hl] [->|Hx]%elem_of_cons [->|Hy]%elem_of_cons Heq; auto.
  - destruct Hz. rewrite Heq. by apply list_elem_of_fmap_2.
  - destruct Hz. rewrite <- Heq. by apply list_elem_of_fmap_2.
Qed.

(** ** The order of the bids *)

#[global] Instance amount_DESC_trans : Transitive AuctionRepository.amount_DESC.
Proof. unfold AuctionRepository.amount_DESC. intros b1 b2 b3. lia. Qed.

#[global] Instance amount_DESC_total : Total AuctionRepository.amount_DESC.
Proof. unfold AuctionRepository.amount_DESC. intros b1 b2. lia. Qed.

(** ** [Create] *)

Section create.
Import AuctionRepository AuctionService.

Lemma driver_call_clock w r w' : driver_call w = (r, w') → same_clock w w'.
Proof.
  unfold driver_call. destruct (fault w (calls w)); intros; by simplify_eq.
Qed.

Lemma Get_clock {A} (query : Database → list A) w r w' :
  Get query w = (r, w') → same_clock w w'.
Proof.
  unfold Get. intros [(e & H & ->)|(a & w1 & H & H1)]%bind_inv;
    apply driver_call_clock in H; [done|].
  destruct (query (db w1)); by simplify_eq.
Qed.

Lemma Select_clock {A} (query : Database → list A) w r w' :
  Select query w = (r, w') → same_clock w w'.
Proof.
  unfold Select. intros [(e & H & ->)|(a & w1 & H & H1)]%bind_inv;
    apply driver_call_clock in H; [done|]. by simplify_eq.
Qed.

Lemma NFTRepository_GetByID_inv id w r w' :
  NFTRepository.GetByID id w = (r, w') →
  db w' = db w ∧ same_clock w w' ∧
  (r = Fail driver_error ∨
   (r = Ok None ∧ ∀ n, n ∈ nfts (db w) → nft_ID n ≠ id) ∨
   ∃ n, r = Ok (Some n) ∧ n ∈ nfts (db w) ∧ nft_ID n = id ∧
        head (filter (λ n, nft_ID n = id) (nfts (db w))) = Some n).
Proof.
  unfold NFTRepository.GetByID.
  destruct (Get _ w) as [[nft|e] w1] eqn:Hget; intros ?; simplify_eq;
    pose proof (Get_clock _ _ _ _ Hget) as Hc;
    apply Get_inv in Hget as [Hd [?|[[? Hq]|(row & rest & ? & Hq)]]];
    simplify_eq; split_and!; auto.
  - right; right. exists row.
    assert (row ∈ filter (λ n, nft_ID n = id) (nfts (db w))) as Hin.
    { rewrite Hq. apply elem_of_cons. by left. }
    apply list_elem_of_filter in Hin as [? ?]. by rewrite Hq.
  - right; left. split; [done|]. intros n Hn Hid.
    by apply (filter_nil_not_elem_of (λ n, nft_ID n = id) _ n Hq Hid).
Qed.

Lemma INSERT_auction_Some a d d' :
  INSERT_auction a d = Some d' →
  d' = set_auctions (auctions d ++ [auction_row a]) d ∧
  ID a ∉ ID <$> auctions d.
Proof.
  unfold INSERT_auction. case_match eqn:H; [|done].
  intros ?; simplify_eq. split; [done|].
  apply andb_prop in H as [[H _]%andb_prop _].
  by apply bool_decide_eq_true in H.
Qed.

Lemma Repository_Create_inv auction w r w' :
  AuctionRepository.Create auction w = (r, w') →
  (∃ e, r = Fail e ∧ StorageFailure e ∧ db w' = db w) ∨
  (∃ a tx, r = Ok a ∧
     (ID a ∉ ID <$> auctions (db w)) ∧
     (ID auction ≠ "" → ID a = ID auction) ∧
     (Status auction ≠ "" → Status a = Status auction) ∧
     NFTID a = NFTID auction ∧ SellerWalletID a = SellerWalletID auction ∧
     StartPrice a = StartPrice auction ∧
     ReservePrice a = ReservePrice auction ∧
     BuyNowPrice a = BuyNowPrice auction ∧
     StartTime a = StartTime auction ∧ EndTime a = EndTime auction ∧
     PSBT a = PSBT auction ∧
     db w' = created_auction tx a (db w)).
Proof.
  unfold AuctionRepository.Create.
  intros [(e & -> & Hdb & He)
         |(b & tx & w0 & w1 & -> & Hd0 & Hfn & Hd1)]%Transaction_inv.
  - left. eexists; split_and!; eauto.
    destruct He as [->|(tx & w0 & w1 & Hd0 & Hfn)]; [by right|].
    unfold StorageFailure. minv; auto.
  - right. minv.
    all: eexists _, tx; split; [reflexivity|].
    all: match goal with
         | H : INSERT_auction _ (db ?x) = Some _ |- _ =>
             assert (Hx : db x = db w) by congruence; rewrite Hx in H;
             apply INSERT_auction_Some in H as [Hins Hfresh]
         end.
    all: repeat case_decide; simpl in *; split_and!; try done.
    all: unfold created_auction; simpl ID; simpl UpdatedAt; simpl NFTID.
    all: congruence.
Qed.


(** A transaction that commits has run [fn] right after BEGIN. *)
Lemma Transaction_Ok_inv {A} (fn : Tx → M A) w a w' :
  Transaction fn w = (Ok a, w') →
  fault w (calls w) = false ∧
  ∃ w1, fn (mkTx (clock w (reads w))) (next_reading (next_call w))
          = (Ok a, w1) ∧
        fault w1 (calls w1) = false ∧ w' = next_call w1.
Proof.
  unfold Transaction. unfold bind at 1, driver_call at 1.
  destruct (fault w (calls w)); [done|].
  intros Hrun. split; [done|]. revert Hrun.
  rewrite bind_time_Now. cbv beta zeta.
  change (clock (next_call w) (reads (next_call w))) with (clock w (reads w)).
  destruct (fn _ _) as [[b|e] w3]; [|done].
  unfold driver_call. destruct (fault w3 (calls w3)) eqn:Hc; [done|].
  intros [= -> <-]. by exists w3.
Qed.

(** X27.  What the repository's [Create] assigns.  The identifier is the
    one given, or a new UUID when none is given; [created_at] and
    [updated_at] are one reading of the clock; a status that is given is
    kept, and an auction without status becomes active when that reading
    is after its start time and a draft otherwise -- a draft, then, when
    the start time is that very instant, where the service, which always
    gives a status, makes such an auction active; the other columns are
    those given. *)
Theorem Repository_Create_assigns auction w a w' :
  AuctionRepository.Create auction w = (Ok a, w') →
  ID a = (if decide (ID auction = "") then uuids w (issued w)
          else ID auction) ∧
  CreatedAt a = UpdatedAt a ∧
  Status a = (if decide (Status auction = "")
              then if decide (CreatedAt a > StartTime auction)
                   then AuctionStatusActive else AuctionStatusDraft
              else Status auction) ∧
  (Status auction = "" → CreatedAt a = StartTime auction →
   Status a = AuctionStatusDraft) ∧
  a = set_Status (Status a)
        (set_UpdatedAt (UpdatedAt a)
           (set_CreatedAt (CreatedAt a) (set_ID (ID a) auction))).
Proof.
  unfold AuctionRepository.Create.
  intros (_ & w1 & Hfn & _)%Transaction_Ok_inv.
  minv.
  all: simpl in *; repeat case_decide; simplify_eq; simpl in *;
    split_and!; try done; try lia.
Qed.

Lemma auctions_created_auction tx a d :
  auctions (created_auction tx a d) = (auctions d ++ [auction_row a])%list.
Proof. reflexivity. Qed.

Lemma bids_created_auction tx a d :
  bids (created_auction tx a d) = bids d.
Proof. reflexivity. Qed.

(** The row that [GetByID] finds under a fresh identifier is the new row. *)
Lemma loaded_from_created tx a d auction :
  ID a ∉ ID <$> auctions d →
  loaded_from (created_auction tx a d) (ID a) auction →
  ∃ nft bids, auction = set_Bids bids (set_NFT (Some nft) (auction_row a)).
Proof.
  intros Hfresh (row & nft & bids & Hrow & Hid & ->).
  rewrite auctions_created_auction in Hrow.
  apply elem_of_app in Hrow as [Hrow| ->%list_elem_of_singleton].
  - destruct Hfresh. rewrite <- Hid. by apply list_elem_of_fmap_2.
  - by exists nft, bids.
Qed.


Lemma GetByID_None id w w' :
  GetByID id w = (Ok None, w') → ∀ a, a ∈ auctions (db w) → ID a ≠ id.
Proof.
  unfold GetByID, GetByIDWithNFT.
  intros [(e & H & ?)|(a & w1 & H & H1)]%bind_inv; [done|].
  unfold AuctionRepository.GetByID in H.
  destruct (Get _ w) as [[auction|e] w2] eqn:Hget.
  - simplify_eq. unfold GetBidsByAuctionID in H1. minv.
  - apply Get_inv in Hget as [Hd [?|[[? Hq]|(row & rest & ? & Hq)]]];
      simplify_eq.
    apply fmap_nil_inv in Hq. intros a Ha Hid.
    by apply (filter_nil_not_elem_of (λ a, ID a = id) _ a Hq Hid).
Qed.

Lemma Create_inv req userID w r w' :
  Create req userID w = (r, w') →
  (∃ e, r = Fail e ∧
     ((db w' = db w ∧
       (e = NFTNotFound ∨ e = AlreadyListed ∨ e = NotOwner ∨
        StorageFailure e)) ∨
      (StorageFailure e ∧
       ∃ tx a, (ID a ∉ ID <$> auctions (db w)) ∧
               db w' = created_auction tx a (db w)))) ∨
  (∃ auction n wl a tx nft bids,
     r = Ok (Some auction) ∧
     head (filter (λ n, nft_ID n = car_NFTID req) (nfts (db w))) = Some n ∧
     nft_AuctionID n = None ∧
     wl ∈ wallets (db w) ∧ wallet_UserID wl = userID ∧
     wallet_ID wl = nft_WalletID n ∧
     (ID a ∉ ID <$> auctions (db w)) ∧
     a = mkAuction (ID a) (car_NFTID req) (wallet_ID wl)
                   (car_StartPrice req) (car_ReservePrice req)
                   (car_BuyNowPrice req) None None (car_StartTime req)
                   (car_EndTime req)
                   (if decide (car_StartTime req ≤ clock w (reads w))
                    then AuctionStatusActive else AuctionStatusDraft)
                   (car_PSBT req) (CreatedAt a) (UpdatedAt a) None [] ∧
     auction = set_Bids bids (set_NFT (Some nft) a) ∧
     db w' = created_auction tx a (db w)).
Proof.
  unfold Create.
  intros [(e & H & ->)|(nft & w1 & H & H1)]%bind_inv;
    apply NFTRepository_GetByID_inv in H
      as (Hd1 & Hc1 & [?|[[? Hnone]|(n & ? & Hn & Hnid & Hhead)]]);
    simplify_eq.
  { left. eexists. split; [done|]. left. split; [done|].
    do 3 right. by right. }
  { unfold fail in H1. simplify_eq. left. eexists. split; [done|].
    left. eauto. }
  destruct (decide (nft_AuctionID n ≠ None)) as [Hlisted|Hfree].
  { unfold fail in H1. simplify_eq. left. eexists. split; [done|].
    left. eauto. }
  apply dec_stable in Hfree.
  apply bind_inv in H1 as [(e & H1 & ->)|(wallet & w2 & H1 & H2)].
  { unfold UserRepository.GetWalletsByUserID in H1.
    apply Select_inv in H1 as [Hd2 [?|?]]; simplify_eq.
    left. eexists. split; [done|]. left. split; [congruence|].
    do 3 right. by right. }
  unfold UserRepository.GetWalletsByUserID in H1.
  pose proof (Select_clock _ _ _ _ H1) as Hc2.
  apply Select_inv in H1 as [Hd2 [?|Hw]]; simplify_eq.
  destruct (find_wallet _ _) as [wl|] eqn:Hfind; last first.
  { unfold fail in H2. simplify_eq. left. eexists. split; [done|].
    left. split; [congruence|]. auto. }
  assert (wl ∈ wallets (db w) ∧ wallet_UserID wl = userID ∧
          wallet_ID wl = nft_WalletID n) as (Hwl & Hwu & Hwid).
  { unfold find_wallet in Hfind. apply head_Some_elem_of in Hfind.
    apply list_elem_of_filter in Hfind as [? Hin].
    apply list_elem_of_filter in Hin as [? Hin].
    split_and!; [congruence|done|done]. }
  unfold WalletService.ValidatePSBT in H2.
  rewrite (bind_Ok _ _ _ _ _ (eq_refl : ret _ w2 = (Ok _, w2))) in H2.
  cbn [negb fst] in H2.
  rewrite bind_time_Now in H2.
  assert (clock w2 (reads w2) = clock w (reads w)) as Hnow.
  { destruct Hc1 as [E1 E2], Hc2 as [E3 E4]. congruence. }
  rewrite Hnow in H2.
  assert (db (next_reading w2) = db w) as Hdw by (simpl; congruence).
  remember (next_reading w2) as w2' eqn:Ew. clear Ew Hd2 Hc2 Hnow Hfind w2.
  apply bind_inv in H2 as [(e & H2 & ->)|(a & w3 & H2 & H3)].
  { apply Repository_Create_inv in H2
      as [(e' & ? & ? & Hd3)|(? & ? & ? & _)]; simplify_eq.
    left. eexists. split; [done|]. left. split; [congruence|auto]. }
  apply Repository_Create_inv in H2
    as [(e' & ? & ? & Hd3)
       |(a' & tx & ? & Hfresh & _ & Hst & ? & ? & ? & ? & ? & ? & ? & ? & Hd3)];
    simplify_eq.
  rewrite Hdw in Hd3, Hfresh.
  pose proof H3 as Hnone.
  apply GetByID_inv in H3 as [Hd4 [(e & -> & He)|[->|(auction & -> & Hl)]]].
  - left. eexists. split; [done|]. right. split; [done|].
    exists tx, a'. split; [done|congruence].
  - exfalso. apply (GetByID_None _ _ _ Hnone (auction_row a')); [|done].
    rewrite Hd3, auctions_created_auction. apply elem_of_app. right.
    by apply list_elem_of_singleton.
  - rewrite Hd3 in Hl.
    apply loaded_from_created in Hl as (nft & bids & ->); [|done].
    right. exists (set_Bids bids (set_NFT (Some nft) (auction_row a'))),
      n, wl, (auction_row a'), tx, nft, bids.
    split_and!; try done; [|by rewrite Hd4, Hd3].
    unfold auction_row. simpl ID. simpl CreatedAt. simpl UpdatedAt.
    f_equal; try congruence; try (by repeat case_decide).
    revert Hst. repeat case_decide; simpl; try lia; intros ->; done.
Qed.

End create.

Section Create_outcomes.
Import AuctionRepository AuctionService.

(** X1.  [Create] returns without an error only for an NFT that exists,
    is on no auction and sits in a wallet of the caller; what it returns
    is then an auction, never nil, whose seller is that wallet. *)
Theorem Create_accepts_only_unlisted_owned req userID w auction w' :
  Create req userID w = (Ok auction, w') →
  ∃ a n wl, auction = Some a ∧
    head (filter (λ n, nft_ID n = car_NFTID req) (nfts (db w))) = Some n ∧
    nft_AuctionID n = None ∧
    wl ∈ wallets (db w) ∧ wallet_UserID wl = userID ∧
    wallet_ID wl = nft_WalletID n ∧ SellerWalletID a = wallet_ID wl.
Proof.
  intros [(e & ? & _)
         |(a & n & wl & row & tx & nft & bids & ? & Hn & Hfree & Hwl & Hu &
           Hid & _ & Hrow & -> & _)]%Create_inv; [done|].
  simplify_eq. exists (set_Bids bids (set_NFT (Some nft) row)), n, wl.
  split_and!; try done. by rewrite Hrow.
Qed.

Lemma Create_accepts_only_unlisted_owned_witness :
  Create listing "seller" (market_world market_unlisted 500 never)
    = (Ok (Some (listed (market_world market_unlisted 500 never))),
       after_Create (market_world market_unlisted 500 never)) ∧
  ∃ a n wl,
    Some (listed (market_world market_unlisted 500 never)) = Some a ∧
    head (filter (λ n, nft_ID n = car_NFTID listing)
                 (nfts (db (market_world market_unlisted 500 never))))
      = Some n ∧
    nft_AuctionID n = None ∧
    wl ∈ wallets (db (market_world market_unlisted 500 never)) ∧
    wallet_UserID wl = "seller" ∧
    wallet_ID wl = nft_WalletID n ∧ SellerWalletID a = wallet_ID wl.
Proof.
  assert (Create listing "seller" (market_world market_unlisted 500 never)
    = (Ok (Some (listed (market_world market_unlisted 500 never))),
       after_Create (market_world market_unlisted 500 never))) as Hrun.
  { vm_compute. reflexivity. }
  split; [exact Hrun|].
  exact (Create_accepts_only_unlisted_owned _ _ _ _ _ Hrun).
Defined.

(** X2.  The auction that [Create] returns carries a fresh identifier and
    the terms of the request, has no current bid, and is active when the
    start time of the request is not after the clock and a draft
    otherwise. *)
Theorem Create_new_auction req userID w a w' :
  Create req userID w = (Ok (Some a), w') →
  (ID a ∉ ID <$> auctions (db w)) ∧
  NFTID a = car_NFTID req ∧ StartPrice a = car_StartPrice req ∧
  ReservePrice a = car_ReservePrice req ∧
  BuyNowPrice a = car_BuyNowPrice req ∧
  StartTime a = car_StartTime req ∧ EndTime a = car_EndTime req ∧
  PSBT a = car_PSBT req ∧
  CurrentBid a = None ∧ CurrentBidderID a = None ∧
  Status a = (if decide (car_StartTime req ≤ clock w (reads w))
              then AuctionStatusActive else AuctionStatusDraft).
Proof.
  intros [(e & ? & _)
         |(a' & n & wl & row & tx & nft & bids & ? & _ & _ & _ & _ & _ &
           Hfresh & Hrow & -> & _)]%Create_inv; [done|].
  simplify_eq. rewrite Hrow. simpl. rewrite Hrow in Hfresh.
  by split_and!.
Qed.

Lemma Create_new_auction_witness :
  Create listing "seller" (market_world market_unlisted 500 never)
    = (Ok (Some (listed (market_world market_unlisted 500 never))),
       after_Create (market_world market_unlisted 500 never)) ∧
  Status (listed (market_world market_unlisted 500 never))
    = AuctionStatusDraft ∧
  Status (listed (market_world market_unlisted 600 never))
    = AuctionStatusActive.
Proof.
  assert (Create listing "seller" (market_world market_unlisted 500 never)
    = (Ok (Some (listed (market_world market_unlisted 500 never))),
       after_Create (market_world market_unlisted 500 never))) as Hrun.
  { vm_compute. reflexivity. }
  split; [exact Hrun|].
  pose proof (Create_new_auction _ _ _ _ _ Hrun)
    as (_ & _ & _ & _ & _ & _ & _ & _ & _ & _ & Hstatus).
  split; [exact Hstatus|]. vm_compute. reflexivity.
Defined.

Lemma UPDATE_stamp_nfts tx id now nftID d :
  Forall2 (λ n n', if decide (nft_ID n = nftID)
                   then nft_AuctionID n' = Some id ∧ same_but_auction_id n n'
                   else n' = n)
          (nfts d) (nfts (UPDATE_stamp tx id now nftID d)).
Proof.
  simpl. apply Forall2_fmap_diag. intros n.
  case_bool_decide; case_decide; try done.
  split; [done|]. by exists (Some id), (NOW tx).
Qed.

(** X3.  What a successful [Create] has written: one new row at the end
    of the auctions, which is the returned auction without its NFT and
    bids; the NFT of the request now references the new auction and has
    a new [updated_at]; every other NFT row and the tables of users,
    wallets and bids are as before. *)
Theorem Create_writes req userID w a w' :
  Create req userID w = (Ok (Some a), w') →
  users (db w') = users (db w) ∧
  wallets (db w') = wallets (db w) ∧
  bids (db w') = bids (db w) ∧
  auctions (db w') = (auctions (db w) ++ [scan a])%list ∧
  Forall2 (λ n n', if decide (nft_ID n = car_NFTID req)
                   then nft_AuctionID n' = Some (ID a) ∧
                        same_but_auction_id n n'
                   else n' = n)
          (nfts (db w)) (nfts (db w')).
Proof.
  intros [(e & ? & _)
         |(a' & n & wl & row & tx & nft & bids & ? & _ & _ & _ & _ & _ &
           Hfresh & Hrow & -> & ->)]%Create_inv; [done|].
  simplify_eq. split_and!; try done.
  - rewrite auctions_created_auction. f_equal. by rewrite Hrow.
  - replace (car_NFTID req) with (NFTID row) by by rewrite Hrow.
    apply (UPDATE_stamp_nfts tx (ID row) (UpdatedAt row) (NFTID row)).
Qed.

Lemma Create_writes_witness :
  Create listing "seller" (market_world market_unlisted 500 never)
    = (Ok (Some (listed (market_world market_unlisted 500 never))),
       after_Create (market_world market_unlisted 500 never)) ∧
  ID <$> auctions (db (after_Create (market_world market_unlisted 500 never)))
    = ["a1"; "bid-0"] ∧
  nft_AuctionID <$>
    nfts (db (after_Create (market_world market_unlisted 500 never)))
    = [Some "a1"; Some "bid-0"].
Proof.
  assert (Create listing "seller" (market_world market_unlisted 500 never)
    = (Ok (Some (listed (market_world market_unlisted 500 never))),
       after_Create (market_world market_unlisted 500 never))) as Hrun.
  { vm_compute. reflexivity. }
  split; [exact Hrun|].
  pose proof (Create_writes _ _ _ _ _ Hrun) as (_ & _ & _ & Hrows & _).
  split; [by rewrite Hrows|]. vm_compute. reflexivity.
Defined.

Lemma Create_listed req userID w n r w' :
  head (filter (λ n, nft_ID n = car_NFTID req) (nfts (db w))) = Some n →
  nft_AuctionID n ≠ None →
  Create req userID w = (r, w') →
  (r = Fail AlreadyListed ∨ r = Fail driver_error) ∧
  (fault w (calls w) = false → r = Fail AlreadyListed) ∧
  db w' = db w.
Proof.
  intros Hhead Hlisted. unfold Create.
  intros [(e & H & ->)|(nft & w1 & H & H1)]%bind_inv.
  - pose proof H as Hrun.
    apply NFTRepository_GetByID_inv in H as (Hd & _ & [?|[[? _]|(? & ? & _)]]);
      simplify_eq.
    split_and!; auto. intros Hok. revert Hrun.
    unfold NFTRepository.GetByID, Get, bind, driver_call. rewrite Hok.
    change (db (next_call w)) with (db w).
    by destruct (filter _ (nfts (db w))).
  - apply NFTRepository_GetByID_inv in H
      as (Hd & _ & [?|[[? Hnone]|(n' & ? & _ & _ & Hhead')]]); simplify_eq.
    + apply head_Some_elem_of, list_elem_of_filter in Hhead as [Hid Hn].
      by destruct (Hnone n Hn).
    + rewrite decide_True in H1 by done. unfold fail in H1. simplify_eq.
      auto.
Qed.

(** X4.  An NFT whose [auction_id] is set is refused: [Create] returns
    the error of the storage or "NFT is already on auction", the latter
    whenever the first query goes through, and writes nothing. *)
Theorem Create_refuses_listed_nft req userID w n r w' :
  head (filter (λ n, nft_ID n = car_NFTID req) (nfts (db w))) = Some n →
  nft_AuctionID n ≠ None →
  Create req userID w = (r, w') →
  (r = Fail AlreadyListed ∨ r = Fail driver_error) ∧
  (fault w (calls w) = false → r = Fail AlreadyListed) ∧
  db w' = db w.
Proof. apply Create_listed. Qed.

Lemma Create_refuses_listed_nft_witness :
  head (filter (λ n, nft_ID n = "n1")
               (nfts (db (market_world market_unlisted 500 never))))
    = Some market_nft ∧
  nft_AuctionID market_nft ≠ None ∧
  (Create (mkCreateAuctionRequest "n1" 50000 None None 600 2000 "psbt")
          "seller" (market_world market_unlisted 500 never)).1
    = Fail AlreadyListed.
Proof.
  assert (head (filter (λ n, nft_ID n = "n1")
                 (nfts (db (market_world market_unlisted 500 never))))
          = Some market_nft) as Hhead by (vm_compute; reflexivity).
  assert (nft_AuctionID market_nft ≠ None) as Hlisted by done.
  split; [exact Hhead|]. split; [exact Hlisted|].
  destruct (Create (mkCreateAuctionRequest "n1" 50000 None None 600 2000
                                           "psbt")
                   "seller" (market_world market_unlisted 500 never))
    as [r w'] eqn:Hrun.
  destruct (Create_refuses_listed_nft
              (mkCreateAuctionRequest "n1" 50000 None None 600 2000 "psbt")
              "seller" (market_world market_unlisted 500 never)
              market_nft r w' Hhead Hlisted Hrun) as (_ & Hthm & _).
  apply Hthm. reflexivity.
Defined.

Lemma head_nfts_created_auction tx a d nftID n :
  head (filter (λ n, nft_ID n = nftID) (nfts d)) = Some n →
  ∃ n', head (filter (λ n, nft_ID n = nftID) (nfts (created_auction tx a d)))
          = Some n' ∧
        (nftID = NFTID a → nft_AuctionID n' = Some (ID a)) ∧
        (nft_AuctionID n ≠ None → nft_AuctionID n' ≠ None).
Proof.
  intros Hhead. simpl. eexists. split.
  - apply (head_filter_fmap (λ n, nft_ID n = nftID)); [|exact Hhead].
    intros y. by case_bool_decide.
  - apply head_Some_elem_of, list_elem_of_filter in Hhead as [Hid _].
    split.
    + intros ->. by rewrite bool_decide_eq_true_2.
    + by case_bool_decide.
Qed.

(** X5.  Once [Create] has listed an NFT, a further [Create] for the same
    NFT, by any caller and on any terms, is refused and writes nothing. *)
Theorem Create_blocks_second_listing req userID w a w1 req' userID' r w2 :
  Create req userID w = (Ok a, w1) →
  car_NFTID req' = car_NFTID req →
  Create req' userID' w1 = (r, w2) →
  (r = Fail AlreadyListed ∨ r = Fail driver_error) ∧ db w2 = db w1.
Proof.
  intros [(e & ? & _)
         |(a' & n & wl & row & tx & nft & bids & ? & Hhead & _ & _ & _ & _ &
           _ & Hrow & -> & Hdb)]%Create_inv; [done|].
  intros Hsame Hrun.
  destruct (head_nfts_created_auction tx row (db w) (car_NFTID req) n Hhead)
    as (n' & Hhead' & Hstamp & _).
  rewrite <- Hdb, <- Hsame in Hhead'.
  assert (nft_AuctionID n' ≠ None) as Hlisted.
  { rewrite Hstamp; [done|]. by rewrite Hrow. }
  unfold Create in Hrun.
  apply bind_inv in Hrun as [(e & Hget & ->)|(nft' & w1' & Hget & H1)];
    apply NFTRepository_GetByID_inv in Hget
      as (Hd & _ & [?|[[? Hnone]|(n'' & ? & _ & _ & Hhead'')]]); simplify_eq.
  - auto.
  - apply head_Some_elem_of, list_elem_of_filter in Hhead' as [Hid Hn].
    by destruct (Hnone n' Hn).
  - rewrite decide_True in H1 by done. unfold fail in H1. simplify_eq. auto.
Qed.

Lemma Create_blocks_second_listing_witness :
  Create listing "seller" (market_world market_unlisted 500 never)
    = (Ok (Some (listed (market_world market_unlisted 500 never))),
       after_Create (market_world market_unlisted 500 never)) ∧
  (Create listing "seller"
          (after_Create (market_world market_unlisted 500 never))).1
    = Fail AlreadyListed.
Proof.
  assert (Create listing "seller" (market_world market_unlisted 500 never)
    = (Ok (Some (listed (market_world market_unlisted 500 never))),
       after_Create (market_world market_unlisted 500 never))) as Hrun.
  { vm_compute. reflexivity. }
  split; [exact Hrun|].
  destruct (Create listing "seller"
              (after_Create (market_world market_unlisted 500 never)))
    as [r w2] eqn:Hrun2.
  destruct (Create_blocks_second_listing _ _ _ _ _ listing "seller" r w2
              Hrun eq_refl Hrun2) as [[->| ->] _]; [done|].
  vm_compute in Hrun2. discriminate.
Defined.

Lemma Repository_Create_assigns_witness :
  AuctionRepository.Create
    (mkAuction "" "n2" "ws" 50000 None None None None 500 2000 "" "psbt"
               0 0 None [])
    (market_world market_unlisted 500 never)
  = (Ok (mkAuction "bid-0" "n2" "ws" 50000 None None None None 500 2000
                   AuctionStatusDraft "psbt" 500 500 None []),
     (AuctionRepository.Create
        (mkAuction "" "n2" "ws" 50000 None None None None 500 2000 "" "psbt"
                   0 0 None [])
        (market_world market_unlisted 500 never)).2) ∧
  Status (mkAuction "bid-0" "n2" "ws" 50000 None None None None 500 2000
                    AuctionStatusDraft "psbt" 500 500 None [])
    = AuctionStatusDraft ∧
  Status (listed (market_world market_unlisted 600 never))
    = AuctionStatusActive.
Proof.
  assert (AuctionRepository.Create
    (mkAuction "" "n2" "ws" 50000 None None None None 500 2000 "" "psbt"
               0 0 None [])
    (market_world market_unlisted 500 never)
  = (Ok (mkAuction "bid-0" "n2" "ws" 50000 None None None None 500 2000
                   AuctionStatusDraft "psbt" 500 500 None []),
     (AuctionRepository.Create
        (mkAuction "" "n2" "ws" 50000 None None None None 500 2000 "" "psbt"
                   0 0 None [])
        (market_world market_unlisted 500 never)).2)) as Hrun.
  { vm_compute. reflexivity. }
  split; [exact Hrun|].
  destruct (Repository_Create_assigns _ _ _ _ Hrun)
    as (_ & _ & _ & Hboundary & _).
  split; [by apply Hboundary|]. by vm_compute.
Defined.

End Create_outcomes.

(** ** Execution of [Create] call by call into the driver *)

Section Create_runs.
Import AuctionRepository AuctionService.

Lemma driver_call_ok w :
  fault w (calls w) = false → driver_call w = (Ok (), next_call w).
Proof. intros Hok. unfold driver_call. by rewrite Hok. Qed.

Lemma driver_call_fails w :
  fault w (calls w) = true → driver_call w = (Fail driver_error, next_call w).
Proof. intros Hf. unfold driver_call. by rewrite Hf. Qed.

Lemma Exec_ok stmt d w :
  fault w (calls w) = false → stmt (db w) = Some d →
  Exec stmt w = (Ok (), set_db d (next_call w)).
Proof.
  intros Hok Hs. unfold Exec.
  rewrite (bind_Ok _ _ _ _ _ (driver_call_ok _ Hok)). simpl. by rewrite Hs.
Qed.

Lemma Get_ok {A} (query : Database → list A) w row :
  fault w (calls w) = false → head (query (db w)) = Some row →
  Get query w = (Ok row, next_call w).
Proof.
  intros Hok Hq. unfold Get.
  rewrite (bind_Ok _ _ _ _ _ (driver_call_ok _ Hok)).
  change (db (next_call w)) with (db w).
  destruct (query (db w)); by simplify_eq/=.
Qed.

Lemma Select_ok {A} (query : Database → list A) w :
  fault w (calls w) = false →
  Select query w = (Ok (query (db w)), next_call w).
Proof.
  intros Hok. unfold Select.
  by rewrite (bind_Ok _ _ _ _ _ (driver_call_ok _ Hok)).
Qed.

Lemma Transaction_ok {A} (fn : Tx → M A) w a w3 :
  fault w (calls w) = false →
  fn (mkTx (clock w (reads w))) (next_reading (next_call w)) = (Ok a, w3) →
  fault w3 (calls w3) = false →
  Transaction fn w = (Ok a, next_call w3).
Proof.
  intros Hok Hfn Hcommit. unfold Transaction.
  rewrite (bind_Ok _ _ _ _ _ (driver_call_ok _ Hok)).
  rewrite bind_time_Now. cbv beta zeta.
  change (clock (next_call w) (reads (next_call w))) with (clock w (reads w)).
  rewrite Hfn. by rewrite (driver_call_ok _ Hcommit).
Qed.

(** The repository's [Create] on an auction as the service hands it over:
    no identifier yet, a status already. *)
Lemma Repository_Create_ok auction w :
  ID auction = "" → Status auction ≠ "" →
  uuids w (issued w) ∉ ID <$> auctions (db w) →
  NFTID auction ∈ nft_ID <$> nfts (db w) →
  SellerWalletID auction ∈ wallet_ID <$> wallets (db w) →
  (∀ j, (j < 4)%nat → fault w (j + calls w) = false) →
  ∃ a tx w', AuctionRepository.Create auction w = (Ok a, w') ∧
    ID a = uuids w (issued w) ∧ NFTID a = NFTID auction ∧
    SellerWalletID a = SellerWalletID auction ∧
    db w' = created_auction tx a (db w) ∧
    fault w' = fault w ∧ calls w' = (4 + calls w)%nat.
Proof.
  intros Hid Hst Hfresh Hnft Hwallet Hok.
  pose proof (Hok 0%nat ltac:(lia)) as Hok0.
  pose proof (Hok 1%nat ltac:(lia)) as Hok1.
  pose proof (Hok 2%nat ltac:(lia)) as Hok2.
  pose proof (Hok 3%nat ltac:(lia)) as Hok3.
  simpl in Hok0, Hok1, Hok2, Hok3.
  unfold AuctionRepository.Create.
  set (now := clock w (S (reads w))).
  set (a := set_UpdatedAt now (set_CreatedAt now
              (set_ID (uuids w (issued w)) auction))).
  set (tx := mkTx (clock w (reads w))).
  set (d1 := set_auctions (auctions (db w) ++ [auction_row a]) (db w)).
  set (w1 := set_db d1 (next_call (next_reading (next_uuid
               (next_reading (next_call w)))))).
  set (w2 := set_db (UPDATE_stamp tx (ID a) now (NFTID a) d1) (next_call w1)).
  exists a, tx, (next_call w2).
  split; [|by split_and!].
  apply Transaction_ok; [done| |done].
  rewrite decide_True by done.
  erewrite bind_Ok by reflexivity.
  rewrite bind_time_Now.
  change (clock (next_uuid (next_reading (next_call w)))
                (reads (next_uuid (next_reading (next_call w)))))
    with now.
  change (uuids (next_reading (next_call w))
                (issued (next_reading (next_call w))))
    with (uuids w (issued w)).
  fold a. rewrite (decide_False (P := Status a = "")) by done.
  erewrite bind_Ok; last first.
  { apply (Exec_ok _ d1); [done|].
    unfold INSERT_auction. simpl db.
    by rewrite !bool_decide_eq_true_2. }
  fold w1.
  erewrite bind_Ok; last first.
  { by apply (Exec_ok _ (UPDATE_stamp tx (ID a) now (NFTID a) d1)). }
  done.
Qed.

Lemma GetByID_fails id w :
  fault w (calls w) = true →
  GetByID id w = (Fail driver_error, next_call w).
Proof.
  intros Hf. unfold GetByID, GetByIDWithNFT.
  apply bind_Fail. unfold AuctionRepository.GetByID, Get.
  by rewrite (bind_Fail _ _ _ _ _ (driver_call_fails _ Hf)).
Qed.

Lemma Get_none {A} (query : Database → list A) w :
  fault w (calls w) = false → query (db w) = [] →
  Get query w = (Fail sql_ErrNoRows, next_call w).
Proof.
  intros Hok Hq. unfold Get.
  rewrite (bind_Ok _ _ _ _ _ (driver_call_ok _ Hok)).
  change (db (next_call w)) with (db w). by rewrite Hq.
Qed.

Lemma GetByID_ok id w row :
  head (filter (λ a, ID a = id) (auctions (db w))) = Some row →
  (∀ j, (j < 3)%nat → fault w (j + calls w) = false) →
  ∃ a w', GetByID id w = (Ok (Some a), w') ∧ db w' = db w.
Proof.
  intros Hhead Hok.
  pose proof (Hok 0%nat ltac:(lia)) as Hok0.
  pose proof (Hok 1%nat ltac:(lia)) as Hok1.
  pose proof (Hok 2%nat ltac:(lia)) as Hok2.
  simpl in Hok0, Hok1, Hok2.
  unfold GetByID, GetByIDWithNFT.
  erewrite bind_Ok; last first.
  { unfold AuctionRepository.GetByID.
    rewrite (Get_ok _ _ (scan row) Hok0); [done|].
    by destruct (filter _ (auctions (db w))); simplify_eq/=. }
  cbv iota beta.
  destruct (filter (λ n, nft_ID n = NFTID (scan row)) (nfts (db w)))
    as [|n l] eqn:Hn.
  - erewrite bind_Ok; last first.
    { cbv beta. by rewrite Get_none. }
    unfold GetBidsByAuctionID.
    erewrite bind_Ok; last first.
    { by apply Select_ok. }
    unfold ret. eauto.
  - erewrite bind_Ok; last first.
    { cbv beta. rewrite (Get_ok _ _ n); [done|done|].
      change (db (next_call w)) with (db w). cbv beta. by rewrite Hn. }
    unfold GetBidsByAuctionID.
    erewrite bind_Ok; last first.
    { by apply Select_ok. }
    unfold ret. eauto.
Qed.

(** Up to the COMMIT of the repository: what is left of [Create] is the
    final read. *)
Lemma Create_commits req userID w n wl :
  head (filter (λ n, nft_ID n = car_NFTID req) (nfts (db w))) = Some n →
  nft_AuctionID n = None →
  find_wallet (nft_WalletID n)
    (filter (λ x, wallet_UserID x = userID) (wallets (db w))) = Some wl →
  uuids w (issued w) ∉ ID <$> auctions (db w) →
  (∀ j, (j < 6)%nat → fault w (j + calls w) = false) →
  ∃ a tx w3,
    Create req userID w = GetByID (ID a) w3 ∧
    ID a = uuids w (issued w) ∧ NFTID a = car_NFTID req ∧
    SellerWalletID a = wallet_ID wl ∧
    db w3 = created_auction tx a (db w) ∧
    fault w3 = fault w ∧ calls w3 = (6 + calls w)%nat.
Proof.
  intros Hhead Hfree Hfind Hfresh Hok.
  pose proof (Hok 0%nat ltac:(lia)) as Hok0.
  pose proof (Hok 1%nat ltac:(lia)) as Hok1.
  simpl in Hok0, Hok1.
  pose proof Hhead as Hn.
  apply head_Some_elem_of, list_elem_of_filter in Hn as [Hnid Hn].
  pose proof Hfind as Hwl. unfold find_wallet in Hwl.
  apply head_Some_elem_of, list_elem_of_filter in Hwl as [Hwid Hwl].
  apply list_elem_of_filter in Hwl as [_ Hwl].
  set (auction :=
    mkAuction "" (car_NFTID req) (wallet_ID wl) (car_StartPrice req)
      (car_ReservePrice req) (car_BuyNowPrice req) None None
      (car_StartTime req) (car_EndTime req)
      (if decide (¬ car_StartTime req > clock w (reads w))
       then AuctionStatusActive else AuctionStatusDraft)
      (car_PSBT req) 0 0 None []).
  destruct (Repository_Create_ok auction
              (next_reading (next_call (next_call w))))
    as (a & tx & w3 & Hcreate & Hid & Hnftid & Hseller & Hdb & Hfault &
        Hcalls).
  { done. }
  { subst auction. simpl. by case_decide. }
  { done. }
  { simpl. rewrite <- Hnid. by apply list_elem_of_fmap_2. }
  { simpl. by apply list_elem_of_fmap_2. }
  { intros j Hj. simpl.
    replace (j + S (S (calls w)))%nat with (j + 2 + calls w)%nat by lia.
    apply Hok. lia. }
  simpl in Hid, Hdb, Hfault, Hcalls, Hnftid, Hseller.
  exists a, tx, w3. split_and!; try done.
  unfold Create.
  erewrite bind_Ok; last first.
  { unfold NFTRepository.GetByID.
    by rewrite (Get_ok _ _ n Hok0 Hhead). }
  cbv iota beta. rewrite decide_False by (by intros []).
  erewrite bind_Ok; last first.
  { apply Select_ok. done. }
  change (db (next_call w)) with (db w). rewrite Hfind.
  unfold WalletService.ValidatePSBT.
  erewrite bind_Ok by reflexivity. cbn [negb fst].
  rewrite bind_time_Now.
  change (clock _ _) with (clock w (reads w)).
  erewrite bind_Ok; [done|].
  etrans; [|exact Hcreate]. f_equal. subst auction. by case_decide.
Qed.

(** X6.  [Create] can report an error for an auction that exists.  When
    the NFT is unlisted and owned by the caller, the identifier to come
    is fresh, the six calls into the driver up to the COMMIT go through
    and the seventh, the first query of the final read, fails, [Create]
    returns that error; yet the auction row is in the table and the NFT
    references it. *)
Theorem Create_error_after_commit req userID w n wl :
  head (filter (λ n, nft_ID n = car_NFTID req) (nfts (db w))) = Some n →
  nft_AuctionID n = None →
  find_wallet (nft_WalletID n)
    (filter (λ x, wallet_UserID x = userID) (wallets (db w))) = Some wl →
  uuids w (issued w) ∉ ID <$> auctions (db w) →
  (∀ j, (j < 6)%nat → fault w (j + calls w) = false) →
  fault w (6 + calls w) = true →
  ∃ w' row n',
    Create req userID w = (Fail driver_error, w') ∧
    auctions (db w') = (auctions (db w) ++ [row])%list ∧
    ID row = uuids w (issued w) ∧ NFTID row = car_NFTID req ∧
    head (filter (λ n, nft_ID n = car_NFTID req) (nfts (db w'))) = Some n' ∧
    nft_AuctionID n' = Some (ID row).
Proof.
  intros Hhead Hfree Hfind Hfresh Hok Hfail.
  destruct (Create_commits req userID w n wl Hhead Hfree Hfind Hfresh Hok)
    as (a & tx & w3 & -> & Hid & Hnftid & _ & Hdb & Hfault & Hcalls).
  destruct (head_nfts_created_auction tx a (db w) (car_NFTID req) n Hhead)
    as (n' & Hhead' & Hstamp & _).
  exists (next_call w3), (auction_row a), n'.
  split_and!; try done.
  - apply GetByID_fails. by rewrite Hfault, Hcalls.
  - simpl. rewrite Hdb. apply auctions_created_auction.
  - simpl. by rewrite Hdb.
  - by apply Hstamp.
Qed.

Lemma Create_error_after_commit_witness :
  head (filter (λ n, nft_ID n = car_NFTID listing)
          (nfts (db (market_world market_unlisted 500 seventh_call_fails))))
    = Some unlisted_nft ∧
  nft_AuctionID unlisted_nft = None ∧
  (∃ w' row n',
     Create listing "seller"
            (market_world market_unlisted 500 seventh_call_fails)
       = (Fail driver_error, w') ∧
     auctions (db w') = (auctions market_unlisted ++ [row])%list ∧
     ID row = "bid-0" ∧ NFTID row = "n2" ∧
     head (filter (λ n, nft_ID n = "n2") (nfts (db w'))) = Some n' ∧
     nft_AuctionID n' = Some (ID row)).
Proof.
  split; [by vm_compute|]. split; [done|].
  apply (Create_error_after_commit listing "seller"
           (market_world market_unlisted 500 seventh_call_fails)
           unlisted_nft (mkWallet "ws" "seller" "addrs" "bitcoin" 0 0)).
  - by vm_compute.
  - done.
  - by vm_compute.
  - apply (bool_decide_unpack _). by vm_compute.
  - intros j Hj. unfold seventh_call_fails. simpl.
    apply bool_decide_eq_false_2. lia.
  - done.
Defined.

(** X13.  [Create] accepts every NFT that is unlisted and sits in a wallet
    of the caller: when the identifier to come is fresh and the nine
    calls into the driver go through, it returns an auction, with that
    identifier, for that NFT. *)
Theorem Create_accepts req userID w n wl :
  head (filter (λ n, nft_ID n = car_NFTID req) (nfts (db w))) = Some n →
  nft_AuctionID n = None →
  find_wallet (nft_WalletID n)
    (filter (λ x, wallet_UserID x = userID) (wallets (db w))) = Some wl →
  uuids w (issued w) ∉ ID <$> auctions (db w) →
  (∀ j, (j < 9)%nat → fault w (j + calls w) = false) →
  ∃ a w', Create req userID w = (Ok (Some a), w') ∧
          ID a = uuids w (issued w) ∧ NFTID a = car_NFTID req ∧
          SellerWalletID a = wallet_ID wl.
Proof.
  intros Hhead Hfree Hfind Hfresh Hok.
  destruct (Create_commits req userID w n wl Hhead Hfree Hfind Hfresh)
    as (a & tx & w3 & Hrun & Hid & Hnftid & Hseller & Hdb & Hfault & Hcalls).
  { intros j Hj. apply Hok. lia. }
  assert (ID a ∉ ID <$> auctions (db w)) as Hfresh' by by rewrite Hid.
  destruct (GetByID_ok (ID a) w3 (auction_row a))
    as (a' & w' & Hget & _).
  { rewrite Hdb, auctions_created_auction, filter_app.
    rewrite (filter_none _ (auctions (db w))).
    - simpl. rewrite filter_cons, decide_True by done. done.
    - intros x Hx Hxid. apply Hfresh'. rewrite <- Hxid.
      by apply list_elem_of_fmap_2. }
  { intros j Hj. rewrite Hfault, Hcalls.
    replace (j + (6 + calls w))%nat with (j + 6 + calls w)%nat by lia.
    apply Hok. lia. }
  rewrite Hget in Hrun. exists a', w'. split; [done|].
  apply GetByID_inv in Hget as [_ [(e & ? & _)|[?|(a0 & ? & Hl)]]];
    simplify_eq.
  rewrite Hdb in Hl.
  apply loaded_from_created in Hl as (nft & bs & ->); [|done].
  simpl. by rewrite <- Hid.
Qed.

Lemma Create_accepts_witness :
  ∃ a w', Create listing "seller" (market_world market_unlisted 500 never)
            = (Ok (Some a), w') ∧
          ID a = "bid-0" ∧ NFTID a = "n2" ∧ SellerWalletID a = "ws".
Proof.
  apply (Create_accepts listing "seller"
           (market_world market_unlisted 500 never)
           unlisted_nft (mkWallet "ws" "seller" "addrs" "bitcoin" 0 0)).
  - by vm_compute.
  - done.
  - by vm_compute.
  - apply (bool_decide_unpack _). by vm_compute.
  - done.
Defined.

End Create_runs.

(** ** [Create] and the invariant of the leading bid *)

Section Create_invariant.
Import AuctionRepository AuctionService.

Lemma accepted_amounts_created_auction id tx a d :
  accepted_amounts id (created_auction tx a d) = accepted_amounts id d.
Proof. reflexivity. Qed.

Lemma accepted_amounts_fresh id d :
  bids_reference_auctions d → id ∉ ID <$> auctions d →
  accepted_amounts id d = [].
Proof.
  intros Hfk Hfresh. unfold accepted_amounts.
  rewrite filter_none; [done|].
  intros b Hb [Hid _]. apply Hfresh. rewrite <- Hid. by apply Hfk.
Qed.

Lemma highest_bid_invariant_created_auction tx a d :
  bids_reference_auctions d → ID a ∉ ID <$> auctions d →
  (∀ id, highest_bid_invariant id d) →
  ∀ id, highest_bid_invariant id (created_auction tx a d).
Proof.
  intros Hfk Hfresh Hinv id row Hrow Hid.
  rewrite accepted_amounts_created_auction.
  rewrite auctions_created_auction in Hrow.
  apply elem_of_app in Hrow as [Hrow| ->%list_elem_of_singleton].
  - by apply Hinv.
  - simpl in *. subst id. by apply accepted_amounts_fresh.
Qed.

Lemma bids_reference_auctions_created_auction tx a d :
  bids_reference_auctions d →
  bids_reference_auctions (created_auction tx a d).
Proof.
  intros Hfk b Hb. rewrite auctions_created_auction, fmap_app.
  apply elem_of_app. left. by apply Hfk.
Qed.

(** X7.  [Create] keeps the invariant of the leading bid for every
    auction, the new one included, and the foreign key of the bids: in a
    table whose bids all belong to auctions of the table, the new auction
    starts with no accepted bid and no current bid. *)
Theorem Create_keeps_highest_bid_invariant req userID w r w' :
  bids_reference_auctions (db w) →
  (∀ id, highest_bid_invariant id (db w)) →
  Create req userID w = (r, w') →
  bids_reference_auctions (db w') ∧
  (∀ id, highest_bid_invariant id (db w')) ∧
  (∀ a, r = Ok (Some a) → accepted_amounts (ID a) (db w') = []).
Proof.
  intros Hfk Hinv
    [(e & -> & [[-> _]|[_ (tx & a & Hfresh & ->)]])
    |(a' & n & wl & row & tx & nft & bids & -> & _ & _ & _ & _ & _ &
      Hfresh & Hrow & -> & ->)]%Create_inv.
  - done.
  - split_and!; [|by apply highest_bid_invariant_created_auction|done].
    by apply bids_reference_auctions_created_auction.
  - split_and!.
    + by apply bids_reference_auctions_created_auction.
    + by apply highest_bid_invariant_created_auction.
    + intros a [= <-]. rewrite accepted_amounts_created_auction.
      by apply accepted_amounts_fresh.
Qed.

Lemma Create_keeps_highest_bid_invariant_witness :
  bids_reference_auctions market_unlisted ∧
  (∀ id, highest_bid_invariant id market_unlisted) ∧
  (∀ id, highest_bid_invariant id
           (db (after_Create (market_world market_unlisted 500 never)))) ∧
  accepted_amounts "bid-0"
    (db (after_Create (market_world market_unlisted 500 never))) = [].
Proof.
  assert (bids_reference_auctions market_unlisted) as Hfk.
  { intros b Hb. by apply elem_of_nil in Hb. }
  assert (∀ id, highest_bid_invariant id market_unlisted) as Hinv.
  { intros id a Ha _. apply list_elem_of_singleton in Ha as ->.
    reflexivity. }
  split; [exact Hfk|]. split; [exact Hinv|].
  assert (Create listing "seller" (market_world market_unlisted 500 never)
    = (Ok (Some (listed (market_world market_unlisted 500 never))),
       after_Create (market_world market_unlisted 500 never))) as Hrun.
  { vm_compute. reflexivity. }
  destruct (Create_keeps_highest_bid_invariant listing "seller"
              (market_world market_unlisted 500 never) _ _ Hfk Hinv Hrun)
    as (_ & Hinv' & Hnew).
  split; [exact Hinv'|]. exact (Hnew _ eq_refl).
Defined.

End Create_invariant.

(** ** What [PlaceBid] accepts and what it writes *)

Section PlaceBid_accepts.
Import AuctionRepository AuctionService.

Lemma same_clock_trans w1 w2 w3 :
  same_clock w1 w2 → same_clock w2 w3 → same_clock w1 w3.
Proof. intros [? ?] [? ?]. split; congruence. Qed.

Lemma GetByID_clock id w r w' : GetByID id w = (r, w') → same_clock w w'.
Proof.
  unfold GetByID, GetByIDWithNFT.
  assert (∀ w r w', AuctionRepository.GetByID id w = (r, w') →
                    same_clock w w') as Hrepo.
  { clear. intros w r w'. unfold AuctionRepository.GetByID.
    destruct (Get _ w) as [[auction|e] w1] eqn:Hget;
      apply Get_clock in Hget; intros ?; try destruct e; by simplify_eq. }
  intros [(e & H & ->)|([a|] & w1 & H & H1)]%bind_inv;
    apply Hrepo in H; [done| |by unfold ret in H1; simplify_eq].
  apply bind_inv in H1 as [(e & H1 & ->)|(nft & w2 & H1 & H2)].
  - destruct (Get _ w1) as [[n|e'] w2] eqn:Hget; apply Get_clock in Hget;
      [done|]. destruct e'; simplify_eq; by eapply same_clock_trans.
  - assert (same_clock w1 w2) as H12.
    { destruct (Get _ w1) as [[n|e'] w3] eqn:Hget; apply Get_clock in Hget;
        [by simplify_eq|]. destruct e'; by simplify_eq. }
    unfold GetBidsByAuctionID in H2.
    apply bind_inv in H2 as [(e & H2 & ->)|(bids & w3 & H2 & H3)];
      apply Select_clock in H2.
    + eauto using same_clock_trans.
    + unfold ret in H3. simplify_eq. eauto using same_clock_trans.
Qed.

(** The auction that [GetByID] returns is the first row under the
    identifier, with its NFT and its bids. *)
Lemma GetByID_head id w a w' :
  GetByID id w = (Ok (Some a), w') →
  ∃ row nft bids,
    head (filter (λ a, ID a = id) (auctions (db w))) = Some row ∧
    a = set_Bids bids (set_NFT (Some nft) (scan row)).
Proof.
  unfold GetByID, GetByIDWithNFT.
  intros [(e & H & ?)|([a0|] & w1 & H & H1)]%bind_inv; [done| |done].
  assert (∃ row, head (filter (λ a, ID a = id) (auctions (db w))) = Some row
                 ∧ a0 = scan row) as (row & Hhead & ->).
  { revert H. unfold AuctionRepository.GetByID.
    destruct (Get _ w) as [[auction|e] w2] eqn:Hget; intros ?;
      [|destruct e; done]. simplify_eq.
    apply Get_inv in Hget as [_ [?|[[? _]|(x & rest & ? & Hq)]]];
      simplify_eq.
    destruct (filter _ (auctions (db w))) as [|row l]; simplify_eq/=.
    by exists row. }
  apply bind_inv in H1 as [(e & _ & ?)|(nft & w2 & _ & H2)]; [done|].
  unfold GetBidsByAuctionID in H2.
  apply bind_inv in H2 as [(e & _ & ?)|(bids & w3 & _ & H3)]; [done|].
  unfold ret in H3. simplify_eq. by exists row, nft, bids.
Qed.

Lemma PlaceBid_Ok_inv req userID w b w' :
  PlaceBid req userID w = (Ok b, w') →
  ∃ row a wl tx,
    head (filter (λ a, ID a = req_AuctionID req) (auctions (db w)))
      = Some row ∧
    (∃ nft bids, a = set_Bids bids (set_NFT (Some nft) (scan row))) ∧
    Status a = AuctionStatusActive ∧
    StartTime a ≤ clock w (reads w) ∧ clock w (S (reads w)) ≤ EndTime a ∧
    (∀ c, CurrentBid a = Some c → c < req_Amount req) ∧
    StartPrice a ≤ req_Amount req ∧
    wl ∈ wallets (db w) ∧ wallet_UserID wl = userID ∧
    wallet_ID wl = req_WalletID req ∧
    req_Amount req ≤ 10000000 ∧
    bid_AuctionID b = req_AuctionID req ∧ bid_BidderID b = userID ∧
    bid_Amount b = req_Amount req ∧ bid_Accepted b = true ∧
    db w' = committed_bid tx b (db w).
Proof.
  unfold PlaceBid.
  intros [(e & H & ?)|([a|] & w1 & H & H1)]%bind_inv; [done| |done].
  pose proof (GetByID_clock _ _ _ _ H) as [Hc Hr].
  pose proof (GetByID_head _ _ _ _ H) as (row & nft & bids & Hhead & Ha).
  apply GetByID_inv in H as [Hd _].
  destruct (decide (Status a ≠ AuctionStatusActive)) as [|Hact%dec_stable];
    [done|].
  rewrite bind_time_Now in H1.
  destruct (decide (clock w1 (reads w1) < StartTime a)) as [|Hstart];
    [done|].
  rewrite bind_time_Now in H1.
  change (clock (next_reading w1) (reads (next_reading w1)))
    with (clock w1 (S (reads w1))) in H1.
  destruct (decide (clock w1 (S (reads w1)) > EndTime a)) as [|Hend];
    [done|].
  destruct (match CurrentBid a with
            | Some currentBid => bool_decide (req_Amount req ≤ currentBid)
            | None => false
            end) eqn:Hcur; [done|].
  destruct (decide (req_Amount req < StartPrice a)) as [|Hprice]; [done|].
  apply bind_inv in H1 as [(e & _ & ?)|(wallet & w2 & H1 & H2)]; [done|].
  unfold UserRepository.GetWalletsByUserID in H1.
  apply Select_inv in H1 as [Hd2 [?|?]]; simplify_eq.
  destruct (find_wallet _ _) as [wl|] eqn:Hfind; [|done].
  unfold WalletService.GetBalance in H2.
  rewrite (bind_Ok _ _ _ _ _ (eq_refl : ret _ w2 = (Ok _, w2))) in H2.
  destruct (decide (10000000 < req_Amount req)) as [|Hbal]; [done|].
  apply CreateBid_inv in H2
    as [(e & ? & _)|(b' & tx & ? & ? & ? & ? & ? & _ & _ & Hdb)];
    simplify_eq.
  unfold find_wallet in Hfind. apply head_Some_elem_of in Hfind.
  apply list_elem_of_filter in Hfind as [? Hin].
  apply list_elem_of_filter in Hin as [? Hin].
  simpl in Hd2.
  eexists row, _, wl, tx. rewrite <- Hc, <- Hr.
  split_and!; try done; try lia; try congruence; [by eauto|].
  intros c Hcb. rewrite Hcb in Hcur.
  apply bool_decide_eq_false in Hcur. lia.
Qed.

(** X8.  [PlaceBid] accepts a bid only when all of its checks hold: the
    auction is in the table and active; the first reading of the clock is
    not before its start time and the second not after its end time; the
    amount is at least the start price, above the current bid when there
    is one, and at most the 10000000 satoshis of the placeholder balance;
    and the wallet of the request belongs to the caller.  The bid it
    returns is for that auction, caller and amount, and is marked
    accepted. *)
Theorem PlaceBid_accepts_only req userID w b w' :
  PlaceBid req userID w = (Ok b, w') →
  (∃ a, loaded_from (db w) (req_AuctionID req) a ∧
        Status a = AuctionStatusActive ∧
        StartTime a ≤ clock w (reads w) ∧
        clock w (S (reads w)) ≤ EndTime a ∧
        StartPrice a ≤ req_Amount req ∧
        (∀ c, CurrentBid a = Some c → c < req_Amount req)) ∧
  (∃ wl, wl ∈ wallets (db w) ∧ wallet_UserID wl = userID ∧
         wallet_ID wl = req_WalletID req) ∧
  req_Amount req ≤ 10000000 ∧
  bid_AuctionID b = req_AuctionID req ∧ bid_BidderID b = userID ∧
  bid_Amount b = req_Amount req ∧ bid_Accepted b = true.
Proof.
  intros (row & a & wl & tx & Hhead & (nft & bids & Ha) & ? & ? & ? & ? & ? &
          ? & ? & ? & ? & ? & ? & ? & ? & _)%PlaceBid_Ok_inv.
  split_and!; try done; [|by eauto].
  exists a. split_and!; try done.
  apply head_Some_elem_of, list_elem_of_filter in Hhead as [Hid Hrow].
  by exists row, nft, bids.
Qed.

Lemma PlaceBid_accepts_only_witness :
  PlaceBid (mkPlaceBidRequest "a1" 150000 "w1") "u1"
           (market_world market 500 never)
    = (Ok (mkBid "bid-0" "a1" "u1" "w1" 150000 500 true None),
       (PlaceBid (mkPlaceBidRequest "a1" 150000 "w1") "u1"
                 (market_world market 500 never)).2) ∧
  (∃ wl, wl ∈ wallets market ∧ wallet_UserID wl = "u1" ∧
         wallet_ID wl = "w1") ∧
  150000 ≤ 10000000.
Proof.
  assert (PlaceBid (mkPlaceBidRequest "a1" 150000 "w1") "u1"
                   (market_world market 500 never)
    = (Ok (mkBid "bid-0" "a1" "u1" "w1" 150000 500 true None),
       (PlaceBid (mkPlaceBidRequest "a1" 150000 "w1") "u1"
                 (market_world market 500 never)).2)) as Hrun.
  { vm_compute. reflexivity. }
  split; [exact Hrun|].
  destruct (PlaceBid_accepts_only _ _ _ _ _ Hrun)
    as (_ & Hwallet & Hbalance & _).
  split; [exact Hwallet|exact Hbalance].
Defined.

End PlaceBid_accepts.

Section PlaceBid_writes.
Import AuctionRepository AuctionService.


Lemma UPDATE_current_bid_auctions tx b now d :
  Forall2 (λ a a', if decide (ID a = bid_AuctionID b)
                   then CurrentBid a' = Some (bid_Amount b) ∧
                        CurrentBidderID a' = Some (bid_BidderID b) ∧
                        same_but_current_bid a a'
                   else a' = a)
          (auctions d) (auctions (UPDATE_current_bid tx b now d)).
Proof.
  simpl. apply Forall2_fmap_diag. intros a.
  case_bool_decide; case_decide; try done.
  split_and!; try done.
  by exists (Some (bid_Amount b)), (Some (bid_BidderID b)), (NOW tx).
Qed.



End PlaceBid_writes.

(** ** The leading bidder *)

Section leading_bidder.
Import AuctionRepository AuctionService.

Lemma bids_committed_bid tx b d :
  bids (committed_bid tx b d) = (bids d ++ [bid_row b])%list.
Proof. unfold committed_bid. repeat case_match; reflexivity. Qed.

Lemma auctions_committed_bid tx b d a' :
  a' ∈ auctions (committed_bid tx b d) →
  a' ∈ auctions d ∨
  (ID a' = bid_AuctionID b ∧ CurrentBid a' = Some (bid_Amount b) ∧
   CurrentBidderID a' = Some (bid_BidderID b)).
Proof.
  unfold committed_bid.
  destruct (SELECT_current_bid _ d) as [|cb rest]; [by left|].
  destruct (is_highest b cb); [|by left].
  simpl. intros (a & -> & Ha)%list_elem_of_fmap.
  case_bool_decide; [by right|by left].
Qed.

Lemma leading_bidder_invariant_committed_bid tx b d :
  bid_Accepted b = true →
  leading_bidder_invariant d →
  leading_bidder_invariant (committed_bid tx b d).
Proof.
  intros Hacc Hinv a' [Ha|(Hid & -> & ->)]%auctions_committed_bid.
  - specialize (Hinv a' Ha). repeat case_match; try done.
    destruct Hinv as (b0 & Hb0 & ?). exists b0. split; [|done].
    rewrite bids_committed_bid. apply elem_of_app. by left.
  - exists (bid_row b). split; [|done].
    rewrite bids_committed_bid. apply elem_of_app. right.
    by apply list_elem_of_singleton.
Qed.

Lemma auctions_completed_auction_bid tx now id status d a' :
  a' ∈ auctions (completed_auction tx now id status d) →
  ∃ a, a ∈ auctions d ∧ ID a' = ID a ∧ CurrentBid a' = CurrentBid a ∧
       CurrentBidderID a' = CurrentBidderID a.
Proof.
  assert (auctions (completed_auction tx now id status d) =
          auctions (UPDATE_status tx status now id d)) as ->.
  { unfold completed_auction. by case_decide. }
  simpl. intros (a & -> & Ha)%list_elem_of_fmap.
  exists a. by case_match.
Qed.

Lemma leading_bidder_invariant_completed_auction tx now id status d :
  leading_bidder_invariant d →
  leading_bidder_invariant (completed_auction tx now id status d).
Proof.
  intros Hinv a' (a & Ha & -> & -> & ->)%auctions_completed_auction_bid.
  assert (bids (completed_auction tx now id status d) = bids d) as ->.
  { unfold completed_auction. by case_decide. }
  by apply Hinv.
Qed.

Lemma leading_bidder_invariant_created_auction tx a d :
  leading_bidder_invariant d →
  leading_bidder_invariant (created_auction tx a d).
Proof.
  intros Hinv a'. rewrite auctions_created_auction.
  intros [Ha| ->%list_elem_of_singleton]%elem_of_app; [|done].
  by apply Hinv.
Qed.

(** X10.  The leading bidder made the leading bid.  In tables where every
    auction has a current bid exactly when it has a current bidder, and
    then an accepted bid of that amount by that bidder, the same holds
    after any sequence of [PlaceBid], [FinalizeAuction] and
    [ProcessEndedAuctions] calls, and again after a [Create]. *)
Theorem leading_bidder_made_leading_bid ops req userID w :
  leading_bidder_invariant (db w) →
  leading_bidder_invariant (db (perform_all ops w)) ∧
  leading_bidder_invariant (db (Create req userID (perform_all ops w)).2).
Proof.
  intros Hinv.
  assert (leading_bidder_invariant (db (perform_all ops w))) as Hops.
  { apply (perform_all_preserves leading_bidder_invariant); [| |done].
    - intros. by apply leading_bidder_invariant_committed_bid.
    - intros. by apply leading_bidder_invariant_completed_auction. }
  split; [done|].
  destruct (Create req userID (perform_all ops w)) as [r w'] eqn:Hrun.
  simpl.
  apply Create_inv in Hrun
    as [(e & -> & [[-> _]|[_ (tx & a & _ & ->)]])
       |(a' & n & wl & row & tx & nft & bs & -> & _ & _ & _ & _ & _ &
         _ & _ & _ & ->)];
    auto using leading_bidder_invariant_created_auction.
Qed.

Lemma leading_bidder_made_leading_bid_witness :
  leading_bidder_invariant market ∧
  leading_bidder_invariant market_with_bids ∧
  CurrentBidderID <$> auctions market_with_bids = [Some "u2"] ∧
  (bid_BidderID <$> bids market_with_bids) = ["u1"; "u2"].
Proof.
  assert (leading_bidder_invariant market) as Hinv.
  { intros a Ha. apply list_elem_of_singleton in Ha as ->. done. }
  split; [exact Hinv|].
  split; [|split; by vm_compute].
  exact (proj1 (leading_bidder_made_leading_bid scenario_1 listing "seller"
                  (market_world market 500 never) Hinv)).
Defined.

End leading_bidder.

(** ** The life of an auction *)

Section life.
Import AuctionRepository AuctionService.

Lemma FinalizeAuction_inv req userID w r w' :
  FinalizeAuction req userID w = (r, w') →
  (∃ e, r = Fail e ∧ db w' = db w) ∨
  ∃ row a tx now status,
    head (filter (λ a, ID a = fin_AuctionID req) (auctions (db w)))
      = Some row ∧
    (∃ nft bs, a = set_Bids bs (set_NFT (Some nft) (scan row))) ∧
    Status row = AuctionStatusActive ∧
    past_gate (clock w (reads w)) a ∧
    r = Ok (set_Status status a) ∧
    ((status = AuctionStatusCancelled ∧ no_winning_bid a) ∨
     (status = AuctionStatusCompleted ∧ ¬ no_winning_bid a ∧
      CurrentBidderID a = Some userID)) ∧
    db w' = completed_auction tx now (fin_AuctionID req) status (db w).
Proof.
  intros Hrun. pose proof Hrun as Hrun'. revert Hrun'. unfold FinalizeAuction.
  intros [(e & H & ->)|([a|] & w1 & H & H1)]%bind_inv.
  { apply GetByID_inv in H as [Hd _]. left. eauto. }
  2:{ apply GetByID_inv in H as [Hd _]. unfold fail in H1. simplify_eq.
      left. eauto. }
  pose proof (GetByID_clock _ _ _ _ H) as [Hc Hr].
  pose proof (GetByID_head _ _ _ _ H) as (row & nft & bs & Hhead & Ha).
  pose proof H as Hload. apply GetByID_inv in H as [Hd _].
  destruct (decide (Status a ≠ AuctionStatusActive)) as [|Hact%dec_stable].
  { unfold fail in H1. simplify_eq. left. eauto. }
  clear H1.
  assert (ID a = fin_AuctionID req) as Hid.
  { apply head_Some_elem_of, list_elem_of_filter in Hhead as [? _].
    by subst a. }
  destruct (negb (bool_decide (clock w1 (reads w1) > EndTime a))
            && negb (buyNowTriggered a)) eqn:Hgate.
  { apply gate_closed in Hgate as [? ?].
    rewrite (FinalizeAuction_gate_closed req w w1 a Hload Hact userID)
      in Hrun by done.
    simplify_eq. left. eauto. }
  apply gate_open in Hgate.
  assert (∀ status,
    bind (CompleteAuction (ID a) status) (λ _, ret (set_Status status a))
         (next_reading w1) = (r, w') →
    (∃ e, r = Fail e ∧ db w' = db w) ∨
    ∃ tx now, r = Ok (set_Status status a) ∧
      db w' = completed_auction tx now (fin_AuctionID req) status (db w))
    as Hcomplete.
  { intros status [(e & Hc' & ->)|([] & w3 & Hc' & Hret)]%bind_inv;
      apply CompleteAuction_inv in Hc'
        as [(e' & ? & _ & Hdb)|(tx & now & ? & Hdb)]; simplify_eq.
    - left. eexists. split; [done|]. by rewrite Hdb.
    - unfold ret in Hret. simplify_eq. right. exists tx, now.
      split; [done|]. rewrite Hdb, Hid. simpl. by rewrite Hd. }
  assert (Status row = AuctionStatusActive) as Hrow by by subst a.
  rewrite Hc, Hr in Hgate.
  destruct (no_winning_bid_dec a) as [Hno|Hwin].
  - rewrite (FinalizeAuction_cancel_branch req w w1 a Hload Hact) in Hrun
      by by rewrite ?Hc, ?Hr.
    apply Hcomplete in Hrun as [?|(tx & now & -> & ->)]; [by left|right].
    exists row, a, tx, now, AuctionStatusCancelled.
    split_and!; eauto.
  - destruct (winning_bid a Hwin) as (cb & bidder & _ & Hbidder & _).
    destruct (decide (userID = bidder)) as [->|Hne].
    + rewrite (FinalizeAuction_complete_branch req w w1 a Hload Hact) in Hrun
        by by rewrite ?Hc, ?Hr.
      apply Hcomplete in Hrun as [?|(tx & now & -> & ->)]; [by left|right].
      exists row, a, tx, now, AuctionStatusCompleted.
      split_and!; eauto.
    + rewrite (FinalizeAuction_unauthorized req w w1 a Hload Hact
                 userID bidder) in Hrun by by rewrite ?Hc, ?Hr.
      simplify_eq. left. eexists. split; [done|]. done.
Qed.











(** X12.  An NFT that was sold cannot be listed again.  [FinalizeAuction]
    with outcome completed leaves the NFT table as it was, so every NFT
    that referenced an auction before still does, the NFT of the completed
    auction among them; a [Create] for such an NFT that follows, by
    whatever caller, is refused and writes nothing. *)
Theorem sold_nft_cannot_be_listed_again fin userID w a w1 creq seller r w2 n :
  FinalizeAuction fin userID w = (Ok a, w1) →
  Status a = AuctionStatusCompleted →
  head (filter (λ n, nft_ID n = car_NFTID creq) (nfts (db w))) = Some n →
  nft_AuctionID n ≠ None →
  Create creq seller w1 = (r, w2) →
  nfts (db w1) = nfts (db w) ∧
  (r = Fail AlreadyListed ∨ r = Fail driver_error) ∧ db w2 = db w1.
Proof.
  intros [(e & ? & _)
         |(row & a0 & tx & now & status & _ & _ & _ & _ & Hr & _ & Hdb)
         ]%FinalizeAuction_inv Hst Hhead Hlisted Hrun; [done|].
  simplify_eq. simpl in Hst. subst status.
  assert (nfts (db w1) = nfts (db w)) as Hn.
  { rewrite Hdb. unfold completed_auction. by rewrite decide_True. }
  split; [done|]. rewrite <- Hn in Hhead.
  destruct (Create_listed _ _ _ _ _ _ Hhead Hlisted Hrun) as (? & _ & ?).
  done.
Qed.

Lemma sold_nft_cannot_be_listed_again_witness :
  (FinalizeAuction (mkFinalizeAuctionRequest "a1" "signature") "u2"
                   (market_world market_with_bids 1001 never)).1
    = Ok (set_Status AuctionStatusCompleted
            (loaded_a1 (market_world market_with_bids 1001 never))) ∧
  (Create (mkCreateAuctionRequest "n1" 50000 None None 1100 2000 "psbt")
          "u2"
          (FinalizeAuction (mkFinalizeAuctionRequest "a1" "signature") "u2"
                           (market_world market_with_bids 1001 never)).2).1
    = Fail AlreadyListed.
Proof.
  assert (FinalizeAuction (mkFinalizeAuctionRequest "a1" "signature") "u2"
                          (market_world market_with_bids 1001 never)
    = (Ok (set_Status AuctionStatusCompleted
            (loaded_a1 (market_world market_with_bids 1001 never))),
       (FinalizeAuction (mkFinalizeAuctionRequest "a1" "signature") "u2"
                        (market_world market_with_bids 1001 never)).2))
    as Hfin.
  { vm_compute. reflexivity. }
  split; [by rewrite Hfin|].
  destruct (Create (mkCreateAuctionRequest "n1" 50000 None None 1100 2000
                                           "psbt") "u2"
              (FinalizeAuction (mkFinalizeAuctionRequest "a1" "signature")
                 "u2" (market_world market_with_bids 1001 never)).2)
    as [r w2] eqn:Hrun.
  destruct (sold_nft_cannot_be_listed_again
              (mkFinalizeAuctionRequest "a1" "signature") "u2"
              (market_world market_with_bids 1001 never) _ _
              (mkCreateAuctionRequest "n1" 50000 None None 1100 2000 "psbt")
              "u2" r w2 market_nft Hfin)
    as (_ & [->| ->] & _); [by vm_compute..|exact Hrun|done|].
  vm_compute in Hrun. discriminate.
Defined.



End life.

(** ** The sweep of the reaper *)

Section reaper.
Import AuctionRepository AuctionService.

Lemma same_but_status_trans a1 a2 a3 :
  same_but_status a1 a2 → same_but_status a2 a3 → same_but_status a1 a3.
Proof. intros (s1 & t1 & ->) (s2 & t2 & ->). by exists s2, t2. Qed.

Lemma same_but_status_ID a a' : same_but_status a a' → ID a' = ID a.
Proof. by intros (s & t & ->). Qed.

Lemma ProcessEndedAuctions_range_cancel x rest w :
  no_winning_bid x →
  ProcessEndedAuctions_range (x :: rest) w =
  bind (CompleteAuction (ID x) AuctionStatusCancelled)
       (λ _, ProcessEndedAuctions_range rest) w.
Proof.
  intros Hno. simpl.
  destruct Hno as [-> | [Hb | (cb & reserve & -> & -> & Hlt)]].
  - done.
  - rewrite Hb. by destruct (CurrentBid x).
  - destruct (CurrentBidderID x); [|done].
    by rewrite bool_decide_eq_true_2.
Qed.

Lemma ProcessEndedAuctions_range_skip x rest w :
  ¬ no_winning_bid x →
  ProcessEndedAuctions_range (x :: rest) w =
  ProcessEndedAuctions_range rest w.
Proof.
  intros (cb & bidder & Hcb & Hbidder & Hres)%winning_bid. simpl.
  by rewrite Hcb, Hbidder, Hres.
Qed.

(** What a run of the loop has done to the tables. *)
Lemma ProcessEndedAuctions_range_inv l w r w' :
  ProcessEndedAuctions_range l w = (r, w') →
  users (db w') = users (db w) ∧
  wallets (db w') = wallets (db w) ∧
  bids (db w') = bids (db w) ∧
  Forall2 (λ a a', a' = a ∨
             ((∃ x, x ∈ l ∧ ID x = ID a ∧ no_winning_bid x) ∧
              Status a' = AuctionStatusCancelled ∧ same_but_status a a'))
          (auctions (db w)) (auctions (db w')) ∧
  Forall2 (λ n n', n' = n ∨
             (nft_AuctionID n' = None ∧ same_but_auction_id n n'))
          (nfts (db w)) (nfts (db w')) ∧
  (r = Ok () →
   ∀ x a', x ∈ l → no_winning_bid x → a' ∈ auctions (db w') →
           ID a' = ID x → Status a' = AuctionStatusCancelled) ∧
  (r = Ok () →
   ∀ x n', x ∈ l → no_winning_bid x → n' ∈ nfts (db w') →
           nft_AuctionID n' ≠ Some (ID x)).
Proof.
  revert w. induction l as [|x rest IH]; intros w Hrun.
  { unfold ProcessEndedAuctions_range, ret in Hrun. simplify_eq.
    split_and!; try done.
    - apply Forall2_same. by left.
    - apply Forall2_same. by left.
    - by intros _ x a' ?%elem_of_nil.
    - by intros _ x a' ?%elem_of_nil. }
  destruct (no_winning_bid_dec x) as [Hno|Hwin].
  - rewrite ProcessEndedAuctions_range_cancel in Hrun by done.
    apply bind_inv in Hrun as [(e & Hc & ->)|([] & w1 & Hc & Hrest)];
      apply CompleteAuction_inv in Hc
        as [(e' & ? & _ & Hdb)|(tx & now & ? & Hdb)]; simplify_eq.
    { rewrite Hdb. split_and!; try done.
      - apply Forall2_same. by left.
      - apply Forall2_same. by left. }
    destruct (IH _ Hrest) as (Hu & Hw & Hb & Ha & Hn & Hok & Hokn).
    pose proof (UPDATE_status_auctions tx AuctionStatusCancelled now (ID x)
                  (db w)) as Ha1.
    pose proof (UPDATE_release_nfts tx now (ID x)
                  (UPDATE_status tx AuctionStatusCancelled now (ID x) (db w)))
      as Hn1.
    assert (db w1 = UPDATE_release tx now (ID x)
              (UPDATE_status tx AuctionStatusCancelled now (ID x) (db w)))
      as Hdb1.
    { rewrite Hdb. unfold completed_auction. by rewrite decide_False. }
    rewrite Hdb1 in Hu, Hw, Hb, Ha, Hn.
    split_and!; try done.
    + eapply Forall2_trans; [|exact Ha1|exact Ha].
      intros a a1 a' [Hsame H1] H2. destruct H2 as [->|(Hx & Hst & Hs)].
      * case_decide as Hid; [|by left; destruct H1]. right.
        split_and!; try done. exists x. split_and!; [by left|done..].
      * right. split_and!; [|done|by eapply same_but_status_trans].
        destruct Hx as (y & Hy & Hyid & Hyno). exists y.
        split_and!; [by right| |done].
        by rewrite Hyid, (same_but_status_ID _ _ Hsame).
    + eapply Forall2_trans; [|exact Hn1|exact Hn].
      intros n n1 n' [(aid & t & ->) H1] H2.
      destruct H2 as [->|[Hnone (aid' & t' & ->)]].
      * case_decide; [right|by left; destruct H1].
        split; [done|]. by exists aid, t.
      * right. split; [done|]. by exists aid', t'.
    + intros Hr y a' [->|Hy]%elem_of_cons Hyno Ha' Hid.
      * destruct (Forall2_elem_of_r _ _ _ _ Ha Ha') as (a1 & Ha1' & HR).
        assert (Status a1 = AuctionStatusCancelled ∧ ID a1 = ID x)
          as [Hst1 Hid1].
        { destruct HR as [->|(_ & _ & Hs)].
          - split; [|done].
            destruct (Forall2_elem_of_r _ _ _ _ Ha1 Ha1')
              as (a0 & _ & Hs0 & H0).
            rewrite decide_True in H0; [done|].
            by rewrite <- (same_but_status_ID _ _ Hs0).
          - rewrite <- (same_but_status_ID _ _ Hs). split; [|done].
            destruct (Forall2_elem_of_r _ _ _ _ Ha1 Ha1')
              as (a0 & _ & Hs0 & H0).
            rewrite decide_True in H0; [done|].
            rewrite <- (same_but_status_ID _ _ Hs0).
            by rewrite <- (same_but_status_ID _ _ Hs). }
        destruct HR as [->|(_ & ? & _)]; done.
      * by apply (Hok Hr y a').
    + intros Hr y n' [->|Hy]%elem_of_cons Hyno Hn'; [|by apply (Hokn Hr y n')].
      destruct (Forall2_elem_of_r _ _ _ _ Hn Hn') as (n1 & Hn1' & HR).
      destruct (Forall2_elem_of_r _ _ _ _ Hn1 Hn1') as (n0 & _ & _ & H0).
      assert (nft_AuctionID n1 ≠ Some (ID x)) as Hne.
      { case_decide; [by rewrite H0|by subst n1]. }
      destruct HR as [->|[Hnone _]]; [done|by rewrite Hnone].
  - rewrite ProcessEndedAuctions_range_skip in Hrun by done.
    destruct (IH _ Hrun) as (Hu & Hw & Hb & Ha & Hn & Hok & Hokn).
    split_and!; try done.
    + eapply Forall2_impl; [exact Ha|]. intros a a' [->|(Hx & ? & ?)];
        [by left|right]. split_and!; try done.
      destruct Hx as (y & Hy & ? & ?). exists y. split_and!; try done.
      by right.
    + intros Hr y a' [->|Hy]%elem_of_cons Hyno Ha' Hid; [done|].
      by apply (Hok Hr y a').
    + intros Hr y n' [->|Hy]%elem_of_cons Hyno Hn'; [done|].
      by apply (Hokn Hr y n').
Qed.

Lemma GetEndedAuctions_inv w r w' :
  GetEndedAuctions w = (r, w') →
  db w' = db w ∧
  (r = Fail driver_error ∨
   r = Ok (scan <$> merge_sort end_time_ASC
             (filter (λ a, Status a = AuctionStatusActive
                           ∧ EndTime a ≤ clock w (reads w))
                     (auctions (db w))))).
Proof.
  unfold GetEndedAuctions. rewrite bind_time_Now.
  intros [Hd Hr]%Select_inv. split; [done|].
  destruct Hr as [->| ->]; auto.
Qed.



Lemma ProcessEndedAuctions_range_no_fault l w :
  no_fault w →
  ∃ w', ProcessEndedAuctions_range l w = (Ok (), w') ∧ no_fault w'.
Proof.
  revert w. induction l as [|x rest IH]; intros w Hnf.
  { exists w. done. }
  destruct (no_winning_bid_dec x) as [Hno|Hwin].
  - rewrite ProcessEndedAuctions_range_cancel by done.
    destruct (CompleteAuction_no_fault (ID x) AuctionStatusCancelled w Hnf)
      as (w1 & Hc & Hnf1).
    rewrite (bind_Ok _ _ _ _ _ Hc). by apply IH.
  - rewrite ProcessEndedAuctions_range_skip by done. by apply IH.
Qed.

(** X15.  When no call into the driver fails, the sweep goes through and
    is complete: [ProcessEndedAuctions] returns without an error, and of
    every auction that was active with an end time not after the clock
    and without a winning bid, all rows are cancelled and no NFT
    references it any more. *)
Theorem ProcessEndedAuctions_sweeps_all w :
  no_fault w →
  ∃ w', ProcessEndedAuctions w = (Ok (), w') ∧
    ∀ a, a ∈ auctions (db w) → Status a = AuctionStatusActive →
         EndTime a ≤ clock w (reads w) → no_winning_bid a →
         (∀ a', a' ∈ auctions (db w') → ID a' = ID a →
                Status a' = AuctionStatusCancelled) ∧
         (∀ n', n' ∈ nfts (db w') → nft_AuctionID n' ≠ Some (ID a)).
Proof.
  intros Hnf. unfold ProcessEndedAuctions.
  assert (GetEndedAuctions w =
          (Ok (scan <$> merge_sort end_time_ASC
                 (filter (λ a, Status a = AuctionStatusActive
                               ∧ EndTime a ≤ clock w (reads w))
                         (auctions (db w)))),
           next_call (next_reading w))) as Hget.
  { unfold GetEndedAuctions. rewrite bind_time_Now.
    by rewrite Select_ok by apply Hnf. }
  rewrite (bind_Ok _ _ _ _ _ Hget).
  destruct (ProcessEndedAuctions_range_no_fault
              (scan <$> merge_sort end_time_ASC
                 (filter (λ a, Status a = AuctionStatusActive
                               ∧ EndTime a ≤ clock w (reads w))
                         (auctions (db w))))
              (next_call (next_reading w)) Hnf) as (w' & Hrun & _).
  exists w'. split; [done|].
  apply ProcessEndedAuctions_range_inv in Hrun
    as (_ & _ & _ & _ & _ & Hok & Hokn).
  intros a Ha Hact Hend Hno.
  assert (scan a ∈ scan <$> merge_sort end_time_ASC
            (filter (λ a, Status a = AuctionStatusActive
                          ∧ EndTime a ≤ clock w (reads w))
                    (auctions (db w)))) as Hin.
  { apply list_elem_of_fmap_2. rewrite merge_sort_Permutation.
    by apply list_elem_of_filter. }
  split.
  - intros a' Ha' Hid. by apply (Hok eq_refl (scan a) a').
  - intros n' Hn'. by apply (Hokn eq_refl (scan a) n').
Qed.

Lemma ProcessEndedAuctions_sweeps_all_witness :
  no_fault (market_world market_two 3000 never) ∧
  Status <$> auctions (db (ProcessEndedAuctions
                             (market_world market_two 3000 never)).2)
    = [AuctionStatusCancelled; AuctionStatusCancelled] ∧
  nft_AuctionID <$> nfts (db (ProcessEndedAuctions
                                (market_world market_two 3000 never)).2)
    = [None; None] ∧
  ∃ w', ProcessEndedAuctions (market_world market_two 3000 never)
          = (Ok (), w').
Proof.
  assert (no_fault (market_world market_two 3000 never)) as Hnf by done.
  split; [exact Hnf|]. split; [by vm_compute|]. split; [by vm_compute|].
  destruct (ProcessEndedAuctions_sweeps_all _ Hnf) as (w' & Hrun & _).
  by exists w'.
Defined.

End reaper.

(** ** The hub: registered sessions *)

Section hub_registered.
Import handlers.

Lemma memory_set_send client ch h c :
  memory (set_send client ch h) !! c =
  if decide (c = client)
  then (λ d, mkClient ch (userID d)) <$> memory h !! c
  else memory h !! c.
Proof.
  unfold set_send. simpl. case_decide as Hc.
  - subst. by rewrite lookup_alter_eq.
  - by rewrite lookup_alter_ne.
Qed.





Lemma BroadcastToAuction_body_open auctionID message client h h' :
  registered_open h →
  BroadcastToAuction_body auctionID message client h = Done h' →
  registered_open h'.
Proof.
  intros Hopen. unfold BroadcastToAuction_body, select_send, close.
  destruct (memory h !! client) as [d|] eqn:Hd; [|done].
  destruct (closed (send d)) eqn:Hcl; [done|].
  case_decide as Hroom; clear Hroom; intros [= <-].
  - intros c Hc. rewrite memory_set_send. case_decide as Heq.
    + subst. rewrite Hd. by eexists.
    + by apply Hopen.
  - intros c [Hc Hne%not_elem_of_singleton]%elem_of_difference.
    simpl. rewrite lookup_alter_ne by done. by apply Hopen.
Qed.

Lemma range_BroadcastToAuction_body_open auctionID message l h h' :
  registered_open h →
  range (BroadcastToAuction_body auctionID message) l h = Done h' →
  registered_open h'.
Proof.
  revert h. induction l as [|client l IH]; intros h Hopen; simpl.
  { by intros [= <-]. }
  destruct (BroadcastToAuction_body _ _ client h) as [h1|] eqn:Hbody; [|done].
  apply IH. by eapply BroadcastToAuction_body_open.
Qed.

(** X17.  The property that every registered session has an open channel
    holds of the new hub and is kept by every other operation on the hub
    that returns: [ServeWs], which registers a new session with a new
    channel, [RegisterAuctionClient], [UnregisterAuctionClient], and
    [BroadcastToAuction], which drops from [clients] every session it
    closes. *)
Theorem registered_sessions_stay_open h :
  registered_open NewHub ∧
  (registered_open h →
   (∀ r h', ServeWs r h = Done h' → registered_open h') ∧
   (∀ client auctionID,
      registered_open (RegisterAuctionClient client auctionID h)) ∧
   (∀ client auctionID,
      registered_open (UnregisterAuctionClient client auctionID h)) ∧
   (∀ auctionID message h',
      BroadcastToAuction auctionID message h = Done h' →
      registered_open h')).
Proof.
  split; [by intros c ?%elem_of_empty|]. intros Hopen. split_and!.
  - intros r h'. unfold ServeWs. destruct (Upgrade r); simpl;
      [|by intros [= <-]].
    destruct (Value _ _) as [|userID| |]; try done. intros [= <-].
    intros c Hc. rewrite memory_set_send. simpl in Hc. simpl.
    case_decide as Heq.
    + subst. rewrite lookup_insert_eq. by eexists.
    + apply elem_of_union in Hc as [Hc%elem_of_singleton|Hc]; [done|].
      rewrite lookup_insert_ne by done. by apply Hopen.
  - intros client auctionID. exact Hopen.
  - intros client auctionID. unfold UnregisterAuctionClient.
    destruct (auctionClients h !! auctionID); [|done].
    by case_decide.
  - intros auctionID message h'. unfold BroadcastToAuction.
    destruct (auctionClients h !! auctionID); [|by intros [= <-]].
    by apply range_BroadcastToAuction_body_open.
Qed.

Lemma registered_sessions_stay_open_witness :
  registered_open NewHub ∧ registered_open one_session.
Proof.
  destruct (registered_sessions_stay_open NewHub) as [Hnew Hkeep].
  split; [exact Hnew|].
  destruct (Hkeep Hnew) as (HServeWs & _).
  apply (HServeWs authenticated). by vm_compute.
Defined.

End hub_registered.

(** ** The hub: subscriptions *)

Section hub_subscriptions.
Import handlers.
#[local] Set Warnings "-clear-no-such-hyp".

Lemma subscribers_RegisterAuctionClient client auctionID a h :
  subscribers a (RegisterAuctionClient client auctionID h) =
  if decide (a = auctionID) then {[client]} ∪ subscribers a h
  else subscribers a h.
Proof.
  unfold subscribers, RegisterAuctionClient. simpl. case_decide as Ha.
  - subst. by rewrite lookup_insert_eq.
  - by rewrite lookup_insert_ne.
Qed.

Lemma subscribers_UnregisterAuctionClient client auctionID a h :
  subscribers a (UnregisterAuctionClient client auctionID h) =
  if decide (a = auctionID) then subscribers a h ∖ {[client]}
  else subscribers a h.
Proof.
  unfold subscribers, UnregisterAuctionClient.
  destruct (auctionClients h !! auctionID) as [s|] eqn:Hs.
  - case_decide as Hsize; simpl; case_decide as Ha; subst.
    + rewrite lookup_delete_eq, Hs. simpl.
      apply size_empty_inv in Hsize. by apply leibniz_equiv in Hsize.
    + by rewrite lookup_delete_ne.
    + by rewrite lookup_insert_eq, Hs.
    + by rewrite lookup_insert_ne.
  - case_decide as Ha; [|done]. subst. rewrite Hs. simpl.
    apply leibniz_equiv. set_solver.
Qed.

(** X18.  Subscriptions are sets per auction.  After
    [RegisterAuctionClient] the session is among the subscribers of the
    auction, after [UnregisterAuctionClient] it is not, and neither
    changes the subscribers of another auction, the registered sessions
    or a channel; registering twice is registering once; and for a
    session that was not subscribed, to an auction that has no empty
    entry in the map, unregistering after registering gives back the hub
    as it was. *)
Theorem subscriptions_are_sets client auctionID h :
  subscribers auctionID (RegisterAuctionClient client auctionID h)
    = {[client]} ∪ subscribers auctionID h ∧
  subscribers auctionID (UnregisterAuctionClient client auctionID h)
    = subscribers auctionID h ∖ {[client]} ∧
  (∀ a, a ≠ auctionID →
     subscribers a (RegisterAuctionClient client auctionID h)
       = subscribers a h ∧
     subscribers a (UnregisterAuctionClient client auctionID h)
       = subscribers a h) ∧
  clients (RegisterAuctionClient client auctionID h) = clients h ∧
  memory (RegisterAuctionClient client auctionID h) = memory h ∧
  clients (UnregisterAuctionClient client auctionID h) = clients h ∧
  memory (UnregisterAuctionClient client auctionID h) = memory h ∧
  RegisterAuctionClient client auctionID
    (RegisterAuctionClient client auctionID h)
    = RegisterAuctionClient client auctionID h ∧
  (client ∉ subscribers auctionID h →
   auctionClients h !! auctionID ≠ Some ∅ →
   UnregisterAuctionClient client auctionID
     (RegisterAuctionClient client auctionID h) = h).
Proof.
  split_and!.
  - by rewrite subscribers_RegisterAuctionClient, decide_True.
  - by rewrite subscribers_UnregisterAuctionClient, decide_True.
  - intros a Ha.
    by rewrite subscribers_RegisterAuctionClient,
      subscribers_UnregisterAuctionClient, !decide_False.
  - done.
  - done.
  - unfold UnregisterAuctionClient.
    destruct (auctionClients h !! auctionID); [|done]. by case_decide.
  - unfold UnregisterAuctionClient.
    destruct (auctionClients h !! auctionID); [|done]. by case_decide.
  - unfold RegisterAuctionClient. simpl. f_equal.
    rewrite lookup_insert_eq, insert_insert_eq. simpl. f_equal.
    apply leibniz_equiv. set_solver.
  - intros Hnotin Hne. unfold UnregisterAuctionClient, RegisterAuctionClient.
    simpl. rewrite lookup_insert_eq.
    assert (({[client]} ∪ default ∅ (auctionClients h !! auctionID))
              ∖ {[client]} = default ∅ (auctionClients h !! auctionID))
      as Hset.
    { apply leibniz_equiv. unfold subscribers in Hnotin. set_solver. }
    rewrite Hset. destruct h as [cl ac mem]. simpl in *.
    destruct (ac !! auctionID) as [s|] eqn:Hs; simpl.
    + rewrite decide_False.
      * f_equal. rewrite insert_insert_eq. by apply insert_id.
      * intros Hsize%size_empty_inv%leibniz_equiv. by subst.
    + rewrite decide_True by reflexivity.
      f_equal. by apply delete_insert_id.
Qed.

Lemma subscriptions_are_sets_witness :
  (session_1 ∉ subscribers "A" one_session) ∧
  auctionClients one_session !! "A" ≠ Some ∅ ∧
  UnregisterAuctionClient session_1 "A"
    (RegisterAuctionClient session_1 "A" one_session) = one_session.
Proof.
  assert (session_1 ∉ subscribers "A" one_session) as Hnotin.
  { apply (bool_decide_unpack _). by vm_compute. }
  assert (auctionClients one_session !! "A" ≠ Some ∅) as Hne.
  { by vm_compute. }
  split; [exact Hnotin|]. split; [exact Hne|].
  destruct (subscriptions_are_sets session_1 "A" one_session)
    as (_ & _ & _ & _ & _ & _ & _ & _ & Hback).
  exact (Hback Hnotin Hne).
Defined.

(** What one iteration of the loop of [BroadcastToAuction] does when it
    does not panic. *)
Lemma BroadcastToAuction_body_inv auctionID message client h h' :
  BroadcastToAuction_body auctionID message client h = Done h' →
  (∀ c, c ≠ client →
     memory h' !! c = memory h !! c ∧ (c ∈ clients h' ↔ c ∈ clients h)) ∧
  (∀ a, a ≠ auctionID → subscribers a h' = subscribers a h) ∧
  subscribers auctionID h' ⊆ subscribers auctionID h ∧
  ∃ d, memory h !! client = Some d ∧ closed (send d) = false ∧
    if decide (length (buf (send d)) < cap (send d))%nat
    then memory h' !! client
           = Some (mkClient (mkChan (buf (send d) ++ [message])
                                    (cap (send d)) false) (userID d))
    else memory h' !! client
           = Some (mkClient (mkChan (buf (send d)) (cap (send d)) true)
                            (userID d)) ∧
         (client ∉ clients h') ∧ (client ∉ subscribers auctionID h').
Proof.
  unfold BroadcastToAuction_body, select_send, close.
  destruct (memory h !! client) as [d|] eqn:Hd; [|done].
  destruct (closed (send d)) eqn:Hcl; [done|].
  case_decide as Hroom; intros [= <-].
  - split_and!.
    + intros c Hc. by rewrite memory_set_send, decide_False.
    + done.
    + done.
    + exists d. split_and!; try done. rewrite decide_True by done.
      by rewrite memory_set_send, decide_True, Hd.
  - split_and!.
    + intros c Hc. simpl. rewrite lookup_alter_ne by done.
      split; [done|]. rewrite elem_of_difference, not_elem_of_singleton.
      naive_solver.
    + intros a Ha. unfold subscribers. simpl.
      by rewrite lookup_alter_ne.
    + unfold subscribers. simpl. rewrite lookup_alter_eq.
      destruct (auctionClients h !! auctionID); simpl; set_solver.
    + exists d. split_and!; try done. rewrite decide_False by done.
      simpl. rewrite lookup_alter_eq, Hd. split_and!; [done| |].
      * rewrite elem_of_difference, not_elem_of_singleton. naive_solver.
      * unfold subscribers. simpl. rewrite lookup_alter_eq.
        destruct (auctionClients h !! auctionID); simpl; set_solver.
Qed.

Lemma range_BroadcastToAuction_body_inv auctionID message l h h' :
  NoDup l →
  range (BroadcastToAuction_body auctionID message) l h = Done h' →
  (∀ c, c ∉ l →
     memory h' !! c = memory h !! c ∧ (c ∈ clients h' ↔ c ∈ clients h)) ∧
  (∀ a, a ≠ auctionID → subscribers a h' = subscribers a h) ∧
  subscribers auctionID h' ⊆ subscribers auctionID h ∧
  (∀ c, c ∈ l →
     ∃ d, memory h !! c = Some d ∧ closed (send d) = false ∧
       if decide (length (buf (send d)) < cap (send d))%nat
       then memory h' !! c
              = Some (mkClient (mkChan (buf (send d) ++ [message])
                                       (cap (send d)) false) (userID d))
       else memory h' !! c
              = Some (mkClient (mkChan (buf (send d)) (cap (send d)) true)
                               (userID d)) ∧
            (c ∉ clients h') ∧ (c ∉ subscribers auctionID h')).
Proof.
  revert h. induction l as [|client l IH]; intros h Hnd; simpl.
  { intros [= <-]. split_and!; try done. by intros c ?%elem_of_nil. }
  apply NoDup_cons in Hnd as [Hnotin Hnd].
  destruct (BroadcastToAuction_body _ _ client h) as [h1|] eqn:Hbody; [|done].
  intros Hrange.
  apply BroadcastToAuction_body_inv in Hbody
    as (Hother1 & Hsubs1 & Hsub1 & d & Hd & Hcl & Hclient).
  destruct (IH h1 Hnd Hrange) as (Hother & Hsubs & Hsub & Hl).
  split_and!.
  - intros c [Hne Hc]%not_elem_of_cons.
    destruct (Hother c Hc) as [-> ->]. by apply Hother1.
  - intros a Ha. by rewrite Hsubs, Hsubs1.
  - set_solver.
  - intros c [->|Hc]%elem_of_cons.
    + exists d. split_and!; try done.
      destruct (Hother client Hnotin) as [Hmem Hin].
      case_decide.
      * by rewrite Hmem.
      * destruct Hclient as (? & ? & ?). rewrite Hmem, Hin.
        split_and!; [done..|set_solver].
    + assert (c ≠ client) as Hne by (by intros ->).
      destruct (Hother1 c Hne) as [Hmem _].
      destruct (Hl c Hc) as (d' & Hd' & Hcl' & Hc').
      exists d'. rewrite <- Hmem. done.
Qed.

(** X19.  What [BroadcastToAuction] does when it returns.  A session that
    is not subscribed to the auction keeps its channel and its
    registration, and the subscribers of every other auction are as
    before.  Every subscriber had an open channel; one with room in its
    buffer has the message appended at the end of the buffer; one whose
    buffer is full has its channel closed, with the buffer as it was, and
    is dropped from [clients] and from the subscribers of the auction. *)
Theorem BroadcastToAuction_delivers auctionID message h h' :
  BroadcastToAuction auctionID message h = Done h' →
  (∀ c, c ∉ subscribers auctionID h →
     memory h' !! c = memory h !! c ∧ (c ∈ clients h' ↔ c ∈ clients h)) ∧
  (∀ a, a ≠ auctionID → subscribers a h' = subscribers a h) ∧
  (∀ c, c ∈ subscribers auctionID h →
     ∃ d, memory h !! c = Some d ∧ closed (send d) = false ∧
       if decide (length (buf (send d)) < cap (send d))%nat
       then memory h' !! c
              = Some (mkClient (mkChan (buf (send d) ++ [message])
                                       (cap (send d)) false) (userID d))
       else memory h' !! c
              = Some (mkClient (mkChan (buf (send d)) (cap (send d)) true)
                               (userID d)) ∧
            (c ∉ clients h') ∧ (c ∉ subscribers auctionID h')).
Proof.
  unfold BroadcastToAuction.
  assert (subscribers auctionID h
          = default ∅ (auctionClients h !! auctionID)) as -> by done.
  destruct (auctionClients h !! auctionID) as [s|] eqn:Hs; simpl.
  - intros Hrange.
    apply range_BroadcastToAuction_body_inv in Hrange
      as (Hother & Hsubs & _ & Hl); [|apply NoDup_elements].
    split_and!; [|done|].
    + intros c Hc. apply Hother. by rewrite elem_of_elements.
    + intros c Hc. apply Hl. by rewrite elem_of_elements.
  - intros [= <-]. split_and!; try done.
Qed.

Lemma BroadcastToAuction_delivers_witness :
  BroadcastToAuction "A" "auction_update"
    (RegisterAuctionClient session_1 "A" one_session)
  = Done (set_send session_1
            (mkChan [welcomeBytes; "auction_update"] 256 false)
            (RegisterAuctionClient session_1 "A" one_session)) ∧
  (session_1
     ∈ subscribers "A" (RegisterAuctionClient session_1 "A" one_session)) ∧
  ∃ d, memory (RegisterAuctionClient session_1 "A" one_session) !! session_1
         = Some d ∧ closed (send d) = false.
Proof.
  assert (BroadcastToAuction "A" "auction_update"
            (RegisterAuctionClient session_1 "A" one_session)
          = Done (set_send session_1
                    (mkChan [welcomeBytes; "auction_update"] 256 false)
                    (RegisterAuctionClient session_1 "A" one_session)))
    as Hrun by by vm_compute.
  assert (session_1 ∈ subscribers "A"
            (RegisterAuctionClient session_1 "A" one_session)) as Hin.
  { apply (bool_decide_unpack _). by vm_compute. }
  split; [exact Hrun|]. split; [exact Hin|].
  destruct (BroadcastToAuction_delivers _ _ _ _ Hrun) as (_ & _ & Hsubs).
  destruct (Hsubs session_1 Hin) as (d & Hd & Hcl & _).
  by exists d.
Defined.

End hub_subscriptions.

(** ** The user of a request *)

Section request_user.
Import handlers.

Lemma Value_cons_ne k v ctx key :
  k ≠ key → Value ((k, v) :: ctx) key = Value ctx key.
Proof.
  intros Hne. unfold Value.
  rewrite (filter_cons (λ kv : any * any, kv.1 = key)).
  simpl. by rewrite decide_False.
Qed.

(** X20.  The user that the authentication middleware puts into the
    context is the user the handlers read.  After
    [NewContextWithUserID ctx userID], [UserIDFromContext] returns that
    user with [ok] true and the assertion of the auction handlers yields
    it without a panic, whatever [ctx] held before; a value stored later
    under any other key, the string "userID" included, does not change
    what either reads; and on a context with no string under the key,
    [UserIDFromContext] reports [ok] false where the handlers panic. *)
Theorem UserIDFromContext_NewContextWithUserID ctx userID :
  UserIDFromContext (NewContextWithUserID ctx userID) = (userID, true) ∧
  userID_of_request (NewContextWithUserID ctx userID) = Done userID ∧
  (∀ k v, k ≠ UserIDKey →
     UserIDFromContext ((k, v) :: ctx) = UserIDFromContext ctx ∧
     userID_of_request ((k, v) :: ctx) = userID_of_request ctx) ∧
  ((∀ s, Value ctx UserIDKey ≠ any_string s) →
     UserIDFromContext ctx = ("", false) ∧
     ∃ msg, userID_of_request ctx = Panic msg).
Proof.
  split_and!.
  - reflexivity.
  - reflexivity.
  - intros k v Hne. unfold UserIDFromContext, userID_of_request.
    by rewrite Value_cons_ne.
  - intros Hno. unfold UserIDFromContext, userID_of_request.
    destruct (Value ctx UserIDKey) as [|s| |]; eauto.
    by destruct (Hno s).
Qed.

Lemma UserIDFromContext_NewContextWithUserID_witness :
  (∀ s, Value [(any_string "userID", any_string "u1")] UserIDKey
        ≠ any_string s) ∧
  UserIDFromContext [(any_string "userID", any_string "u1")] = ("", false) ∧
  UserIDFromContext
    (NewContextWithUserID [(any_string "userID", any_string "u1")] "u2")
    = ("u2", true).
Proof.
  assert (∀ s, Value [(any_string "userID", any_string "u1")] UserIDKey
               ≠ any_string s) as Hno.
  { intros s. vm_compute. discriminate. }
  destruct (UserIDFromContext_NewContextWithUserID
              [(any_string "userID", any_string "u1")] "u2")
    as (Hround & _ & _ & Hnone).
  split; [exact Hno|]. split; [exact (proj1 (Hnone Hno))|exact Hround].
Defined.

End request_user.

(** ** The queries over auctions and bids *)

Section queries.
Import AuctionRepository AuctionService.

Lemma filter_split_Permutation {A} (P Q1 Q2 : A → Prop)
    `{!∀ x, Decision (P x)} `{!∀ x, Decision (Q1 x)}
    `{!∀ x, Decision (Q2 x)} l :
  (∀ x, P x → (Q1 x ∧ ¬ Q2 x) ∨ (Q2 x ∧ ¬ Q1 x)) →
  filter (λ x, P x ∧ Q1 x) l ++ filter (λ x, P x ∧ Q2 x) l ≡ₚ filter P l.
Proof.
  intros HQ. induction l as [|x l IH]; [done|].
  rewrite !filter_cons.
  destruct (decide (P x)) as [HP|HP].
  - destruct (HQ x HP) as [[Hq1 Hq2]|[Hq2 Hq1]].
    + rewrite decide_True, decide_False by tauto. simpl. by rewrite IH.
    + rewrite decide_False, decide_True by tauto.
      rewrite <- Permutation_middle. by rewrite IH.
  - rewrite !decide_False by tauto. done.
Qed.

Lemma GetActiveAuctions_inv w r w' :
  AuctionRepository.GetActiveAuctions w = (r, w') →
  db w' = db w ∧
  (r = Fail driver_error ∨
   r = Ok (scan <$> merge_sort end_time_ASC
             (filter (λ a, Status a = AuctionStatusActive
                           ∧ EndTime a > clock w (reads w))
                     (auctions (db w))))).
Proof.
  unfold AuctionRepository.GetActiveAuctions. rewrite bind_time_Now.
  intros [Hd Hr]%Select_inv. split; [done|].
  destruct Hr as [->| ->]; auto.
Qed.

(** X21.  At one instant, [GetActiveAuctions] and [GetEndedAuctions]
    divide the auctions whose status is active between them: together
    their results are those auctions, each once and as scanned from its
    row; the ended ones have an end time not after the clock, the others
    an end time after it; neither query writes. *)
Theorem active_and_ended_divide w ended w1 active w2 :
  GetEndedAuctions w = (Ok ended, w1) →
  GetActiveAuctions w = (Ok active, w2) →
  ended ++ active ≡ₚ
    scan <$> filter (λ a, Status a = AuctionStatusActive) (auctions (db w)) ∧
  Forall (λ a, EndTime a ≤ clock w (reads w)) ended ∧
  Forall (λ a, EndTime a > clock w (reads w)) active ∧
  db w1 = db w ∧ db w2 = db w.
Proof.
  intros [Hd1 [?|[= ->]]]%GetEndedAuctions_inv; [done|].
  unfold GetActiveAuctions.
  intros [Hd2 [?|[= ->]]]%GetActiveAuctions_inv; [done|].
  split_and!; try done.
  - rewrite <- fmap_app, !merge_sort_Permutation.
    apply fmap_Permutation, filter_split_Permutation.
    intros a _. lia.
  - apply Forall_forall. intros a' (a & -> & Ha)%list_elem_of_fmap.
    rewrite merge_sort_Permutation in Ha.
    by apply list_elem_of_filter in Ha as [[_ ?] _].
  - apply Forall_forall. intros a' (a & -> & Ha)%list_elem_of_fmap.
    rewrite merge_sort_Permutation in Ha.
    by apply list_elem_of_filter in Ha as [[_ ?] _].
Qed.

Lemma active_and_ended_divide_witness :
  GetEndedAuctions (market_world market_two 1500 never)
    = (Ok [market_auction],
       (GetEndedAuctions (market_world market_two 1500 never)).2) ∧
  (ID <$> default [] (value (GetActiveAuctions
                               (market_world market_two 1500 never)).1))
    = ["a2"] ∧
  ∃ active,
    [market_auction] ++ active ≡ₚ
      scan <$> filter (λ a, Status a = AuctionStatusActive)
                      (auctions (db (market_world market_two 1500 never))).
Proof.
  assert (GetEndedAuctions (market_world market_two 1500 never)
    = (Ok [market_auction],
       (GetEndedAuctions (market_world market_two 1500 never)).2)) as Hended.
  { vm_compute. reflexivity. }
  split; [exact Hended|]. split; [by vm_compute|].
  destruct (GetActiveAuctions (market_world market_two 1500 never))
    as [[active|e] w2] eqn:Hactive; [|by vm_compute in Hactive].
  exists active.
  exact (proj1 (active_and_ended_divide _ _ _ _ _ Hended Hactive)).
Defined.

(** X23.  [GetTopBidsByAuctionID] returns the highest bids of the
    auction: at most [limit] of them, in descending order of amount, all
    of them when the auction has no more than [limit]; together with the
    bids it leaves out they are the bids of the auction, and no bid left
    out has a higher amount than one returned.  A negative [limit] is an
    error of the storage.  The query does not write. *)
Theorem GetTopBidsByAuctionID_highest auctionID limit w r w' :
  GetTopBidsByAuctionID auctionID limit w = (r, w') →
  db w' = db w ∧
  (limit < 0 → r = Fail driver_error) ∧
  (∀ top, r = Ok top →
     0 ≤ limit ∧
     length top = Nat.min (Z.to_nat limit)
                    (length (filter (λ b, bid_AuctionID b = auctionID)
                                    (bids (db w)))) ∧
     StronglySorted amount_DESC top ∧
     ∃ rest,
       top ++ rest ≡ₚ filter (λ b, bid_AuctionID b = auctionID)
                             (bids (db w)) ∧
       ∀ b b', b ∈ top → b' ∈ rest → bid_Amount b' ≤ bid_Amount b).
Proof.
  unfold GetTopBidsByAuctionID. case_decide as Hlimit.
  - intros [(e & Hc & ->)|([] & w1 & Hc & Hf)]%bind_inv;
      apply driver_call_inv in Hc as [Hd Hr].
    + destruct Hr; simplify_eq. split_and!; done.
    + unfold fail in Hf. simplify_eq. split_and!; done.
  - intros [Hd [->| ->]]%Select_inv; (split; [done|]); (split; [lia|]);
      [done|].
    intros top [= <-].
    set (sorted := merge_sort amount_DESC
                     (filter (λ b, bid_AuctionID b = auctionID)
                             (bids (db w)))).
    assert (StronglySorted amount_DESC sorted) as Hsorted.
    { apply StronglySorted_merge_sort; apply _. }
    split_and!.
    + lia.
    + rewrite length_take. f_equal. subst sorted.
      apply Permutation_length, merge_sort_Permutation.
    + rewrite <- (take_drop (Z.to_nat limit) sorted) in Hsorted.
      by apply StronglySorted_app_1_l in Hsorted.
    + exists (drop (Z.to_nat limit) sorted). split.
      * rewrite take_drop. apply merge_sort_Permutation.
      * rewrite <- (take_drop (Z.to_nat limit) sorted) in Hsorted.
        intros b b' Hb Hb'.
        apply (StronglySorted_app_1_elem_of _ _ _ b b' Hsorted Hb Hb').
Qed.

Lemma GetTopBidsByAuctionID_highest_witness :
  (bid_Amount <$>
     default [] (value (GetTopBidsByAuctionID "a1" 1
                          (market_world market_with_bids 500 never)).1))
    = [200000] ∧
  (GetTopBidsByAuctionID "a1" (-1)
     (market_world market_with_bids 500 never)).1 = Fail driver_error.
Proof.
  split; [by vm_compute|].
  destruct (GetTopBidsByAuctionID "a1" (-1)
              (market_world market_with_bids 500 never)) as [r w'] eqn:Hrun.
  destruct (GetTopBidsByAuctionID_highest _ _ _ _ _ Hrun) as (_ & Hneg & _).
  apply Hneg. lia.
Defined.

End queries.

(** ** [CreateBid] *)

Section CreateBid_writes.
Import AuctionRepository.

Lemma INSERT_bid_checks b d :
  is_Some (INSERT_bid b d) →
  (bid_ID b ∉ bid_ID <$> bids d) ∧
  bid_AuctionID b ∈ ID <$> auctions d ∧
  bid_BidderID b ∈ users d ∧
  bid_WalletID b ∈ wallet_ID <$> wallets d.
Proof.
  unfold INSERT_bid. case_match eqn:H; [|by intros [? ?]]. intros _.
  apply andb_prop in H as [[[H1 H2]%andb_prop H3]%andb_prop H4].
  apply bool_decide_eq_true in H1, H2, H3, H4. done.
Qed.

(** X22.  [CreateBid] is all or nothing, and it records losing bids.  A
    call that returns an error leaves the tables as they were, whichever
    statement failed.  A call that succeeds has inserted the bid, under
    an identifier that was not in the table and for an auction, a user
    and a wallet that are; the rows of the auction take the amount and
    the bidder when the amount is above the current bid of the auction or
    there is none, and otherwise no auction row changes although the bid
    is stored. *)
Theorem CreateBid_all_or_nothing bid w r w' :
  CreateBid bid w = (r, w') →
  users (db w') = users (db w) ∧ wallets (db w') = wallets (db w) ∧
  nfts (db w') = nfts (db w) ∧
  (∀ e, r = Fail e → StorageFailure e ∧ db w' = db w) ∧
  (∀ b, r = Ok b →
     bids (db w') = (bids (db w) ++ [bid_row b])%list ∧
     (bid_ID b ∉ bid_ID <$> bids (db w)) ∧
     bid_AuctionID b ∈ ID <$> auctions (db w) ∧
     bid_BidderID b ∈ users (db w) ∧
     bid_WalletID b ∈ wallet_ID <$> wallets (db w) ∧
     ∃ row,
       head (filter (λ a, ID a = bid_AuctionID b) (auctions (db w)))
         = Some row ∧
       if is_highest b (CurrentBid row)
       then Forall2 (λ a a', if decide (ID a = bid_AuctionID b)
                             then CurrentBid a' = Some (bid_Amount b) ∧
                                  CurrentBidderID a'
                                    = Some (bid_BidderID b) ∧
                                  same_but_current_bid a a'
                             else a' = a)
                    (auctions (db w)) (auctions (db w'))
       else auctions (db w') = auctions (db w)).
Proof.
  intros [(e & -> & He & ->)
         |(b & tx & -> & _ & _ & _ & _ & Hins & Hsel & ->)]%CreateBid_inv.
  { split_and!; try done. by intros e' [= <-]. }
  assert (users (committed_bid tx b (db w)) = users (db w) ∧
          wallets (committed_bid tx b (db w)) = wallets (db w) ∧
          nfts (committed_bid tx b (db w)) = nfts (db w)) as (? & ? & ?).
  { unfold committed_bid. by repeat case_match. }
  split_and!; try done. intros b' [= <-].
  apply INSERT_bid_checks in Hins as (? & ? & ? & ?).
  split_and!; try done; [apply bids_committed_bid|].
  unfold committed_bid. unfold SELECT_current_bid in *.
  destruct (filter (λ a, ID a = bid_AuctionID b) (auctions (db w)))
    as [|row rest] eqn:Hrows; [done|].
  exists row. split; [done|]. simpl.
  destruct (is_highest b (CurrentBid row)); [|done].
  exact (UPDATE_current_bid_auctions tx b (bid_CreatedAt b)
           (set_bids (bids (db w) ++ [bid_row b]) (db w))).
Qed.

Lemma CreateBid_all_or_nothing_witness :
  CreateBid (mkBid "bid-9" "a1" "u1" "w1" 120000 0 true None)
            (market_world market_with_bids 600 never)
    = (Ok (mkBid "bid-9" "a1" "u1" "w1" 120000 600 true None),
       (CreateBid (mkBid "bid-9" "a1" "u1" "w1" 120000 0 true None)
                  (market_world market_with_bids 600 never)).2) ∧
  (bid_Amount <$>
     bids (db (CreateBid (mkBid "bid-9" "a1" "u1" "w1" 120000 0 true None)
                         (market_world market_with_bids 600 never)).2))
    = [150000; 200000; 120000] ∧
  CurrentBid <$>
    auctions (db (CreateBid (mkBid "bid-9" "a1" "u1" "w1" 120000 0 true None)
                            (market_world market_with_bids 600 never)).2)
    = [Some 200000].
Proof.
  assert (CreateBid (mkBid "bid-9" "a1" "u1" "w1" 120000 0 true None)
                    (market_world market_with_bids 600 never)
    = (Ok (mkBid "bid-9" "a1" "u1" "w1" 120000 600 true None),
       (CreateBid (mkBid "bid-9" "a1" "u1" "w1" 120000 0 true None)
                  (market_world market_with_bids 600 never)).2)) as Hrun.
  { vm_compute. reflexivity. }
  split; [exact Hrun|].
  destruct (CreateBid_all_or_nothing _ _ _ _ Hrun) as (_ & _ & _ & _ & Hok).
  destruct (Hok _ eq_refl) as (Hbids & _).
  split; [|by vm_compute].
  rewrite Hbids. by vm_compute.
Defined.

End CreateBid_writes.

(** ** What [GetByID] loads *)

Section GetByID_loads.
Import AuctionRepository AuctionService.

(** X24.  [GetByID] does not write, and what it returns is read off the
    tables: nil without an error only when no row has the identifier; an
    auction only as the first row under the identifier, as scanned from
    its columns, together with the NFT row of its [nft_id] -- the zero
    NFT when there is none -- and all the bids of the auction, highest
    amount first. *)
Theorem GetByID_loads id w r w' :
  GetByID id w = (r, w') →
  db w' = db w ∧
  (r = Ok None → ∀ a, a ∈ auctions (db w) → ID a ≠ id) ∧
  (∀ a, r = Ok (Some a) →
     ∃ row,
       head (filter (λ a, ID a = id) (auctions (db w))) = Some row ∧
       a = set_Bids (Bids a) (set_NFT (NFT_ a) (scan row)) ∧
       NFT_ a = Some (default NFT_zero
                        (head (filter (λ n, nft_ID n = NFTID row)
                                      (nfts (db w))))) ∧
       Bids a ≡ₚ filter (λ b, bid_AuctionID b = id) (bids (db w)) ∧
       StronglySorted amount_DESC (Bids a)).
Proof.
  intros Hrun. split; [by apply GetByID_inv in Hrun as [? _]|].
  split; [intros ->; by eapply GetByID_None|].
  intros a ->. revert Hrun. unfold GetByID, GetByIDWithNFT.
  intros [(e & H & ?)|([a0|] & w1 & H & H1)]%bind_inv; [done| |done].
  assert (db w1 = db w ∧
          ∃ row, head (filter (λ a, ID a = id) (auctions (db w))) = Some row
                 ∧ a0 = scan row) as (Hd1 & row & Hhead & ->).
  { revert H. unfold AuctionRepository.GetByID.
    destruct (Get _ w) as [[auction|e] w2] eqn:Hget; intros ?;
      [|destruct e; done]. simplify_eq.
    apply Get_inv in Hget as [? [?|[[? _]|(x & rest & ? & Hq)]]];
      simplify_eq. split; [done|].
    destruct (filter _ (auctions (db w))) as [|row l]; simplify_eq/=.
    by exists row. }
  apply bind_inv in H1 as [(e & _ & ?)|(nft & w2 & Hnft & H2)]; [done|].
  assert (db w2 = db w ∧
          nft = default NFT_zero
                  (head (filter (λ n, nft_ID n = NFTID row) (nfts (db w)))))
    as (Hd2 & ->).
  { revert Hnft. cbv beta.
    destruct (Get _ w1) as [[n|e] w3] eqn:Hget; intros ?;
      apply Get_inv in Hget as [Hd3 [?|[[? Hq]|(x & rest & ? & Hq)]]];
      simplify_eq; (split; [congruence|]); rewrite Hd1 in Hq;
      simpl in Hq; by rewrite Hq. }
  unfold GetBidsByAuctionID in H2.
  apply bind_inv in H2 as [(e & _ & ?)|(bs & w3 & Hbids & H3)]; [done|].
  apply Select_inv in Hbids as [Hd3 [?|[= ->]]]; [done|].
  unfold ret in H3. simplify_eq. exists row. rewrite Hd2. simpl.
  split_and!; try done.
  - apply merge_sort_Permutation.
  - apply StronglySorted_merge_sort; apply _.
Qed.

Lemma GetByID_loads_witness :
  GetByID "a1" (market_world market_with_bids 500 never)
    = (Ok (Some (loaded_a1 (market_world market_with_bids 500 never))),
       after_load (market_world market_with_bids 500 never)) ∧
  (bid_Amount <$> Bids (loaded_a1 (market_world market_with_bids 500 never)))
    = [200000; 150000] ∧
  StronglySorted amount_DESC
    (Bids (loaded_a1 (market_world market_with_bids 500 never))).
Proof.
  assert (GetByID "a1" (market_world market_with_bids 500 never)
    = (Ok (Some (loaded_a1 (market_world market_with_bids 500 never))),
       after_load (market_world market_with_bids 500 never))) as Hload.
  { vm_compute. reflexivity. }
  split; [exact Hload|]. split; [by vm_compute|].
  destruct (GetByID_loads _ _ _ _ Hload) as (_ & _ & Hsome).
  destruct (Hsome _ eq_refl) as (row & _ & _ & _ & _ & Hsorted).
  exact Hsorted.
Defined.

End GetByID_loads.

(** ** The NFT service *)

Section NFTService_properties.
Import NFTService.

Lemma owns_spec id l : owns id l = true ↔ ∃ wl, wl ∈ l ∧ wallet_ID wl = id.
Proof.
  induction l as [|wallet rest IH]; simpl.
  - split; [done|]. by intros (wl & ?%elem_of_nil & _).
  - case_decide as Hid.
    + split; [|done]. intros _. exists wallet. split; [by left|done].
    + rewrite IH. split.
      * intros (wl & Hwl & ?). exists wl. split; [by right|done].
      * intros (wl & [->|Hwl]%elem_of_cons & ?); [done|]. by exists wl.
Qed.

Lemma IsOwnedByUser_inv nftID userID w r w' :
  IsOwnedByUser nftID userID w = (r, w') →
  db w' = db w ∧
  (∀ b, r = Ok b →
     ∃ n, head (filter (λ n, nft_ID n = nftID) (nfts (db w))) = Some n ∧
          (b = true ↔
           ∃ wl, wl ∈ wallets (db w) ∧ wallet_UserID wl = userID ∧
                 wallet_ID wl = nft_WalletID n)).
Proof.
  unfold IsOwnedByUser, GetByID.
  intros [(e & H & ->)|(nft & w1 & H & H1)]%bind_inv;
    apply NFTRepository_GetByID_inv in H
      as (Hd1 & _ & [?|[[? _]|(n & ? & _ & _ & Hhead)]]); simplify_eq.
  - done.
  - unfold fail in H1. by simplify_eq.
  - apply bind_inv in H1 as [(e & H1 & ->)|(wallets & w2 & H1 & H2)];
      unfold UserRepository.GetWalletsByUserID in H1;
      apply Select_inv in H1 as [Hd2 [?|?]]; simplify_eq.
    { split; [congruence|done]. }
    unfold ret in H2. simplify_eq. split; [congruence|].
    intros b [= <-]. exists n. split; [done|].
    rewrite owns_spec, Hd1. split.
    + intros (wl & [? ?]%list_elem_of_filter & ?). by exists wl.
    + intros (wl & ? & ? & ?). exists wl. split; [|done].
      by apply list_elem_of_filter.
Qed.

(** X25.  [IsOwnedByUser] agrees with the ownership check of
    [AuctionService.Create].  It does not write; when it returns a
    boolean, the NFT is in the table, and the boolean is true exactly
    when one of the wallets of the user holds the NFT; and on the same
    tables it never answers false for an NFT and a user for which
    [Create] goes through. *)
Theorem IsOwnedByUser_agrees_with_Create nftID userID w r w' :
  IsOwnedByUser nftID userID w = (r, w') →
  db w' = db w ∧
  (∀ b, r = Ok b →
     ∃ n, head (filter (λ n, nft_ID n = nftID) (nfts (db w))) = Some n ∧
          (b = true ↔
           ∃ wl, wl ∈ wallets (db w) ∧ wallet_UserID wl = userID ∧
                 wallet_ID wl = nft_WalletID n)) ∧
  (∀ req a w1, car_NFTID req = nftID →
     AuctionService.Create req userID w = (Ok a, w1) → r ≠ Ok false).
Proof.
  intros [Hd Hb]%IsOwnedByUser_inv. split_and!; [done..|].
  intros req a w1 <-
    [(e & ? & _)
    |(a' & n & wl & row & tx & nft & bs & _ & Hhead & _ & Hwl & Hu & Hid &
      _)]%Create_inv; [done|].
  intros ->. destruct (Hb false eq_refl) as (n' & Hhead' & Hiff).
  rewrite Hhead in Hhead'. simplify_eq.
  assert (false = true) as Hfalse; [|done].
  apply Hiff. by exists wl.
Qed.

Lemma IsOwnedByUser_agrees_with_Create_witness :
  IsOwnedByUser "n2" "seller" (market_world market_unlisted 500 never)
    = (Ok true,
       (IsOwnedByUser "n2" "seller"
          (market_world market_unlisted 500 never)).2) ∧
  (IsOwnedByUser "n2" "u1" (market_world market_unlisted 500 never)).1
    = Ok false ∧
  db (IsOwnedByUser "n2" "seller" (market_world market_unlisted 500 never)).2
    = db (market_world market_unlisted 500 never).
Proof.
  assert (IsOwnedByUser "n2" "seller" (market_world market_unlisted 500 never)
    = (Ok true,
       (IsOwnedByUser "n2" "seller"
          (market_world market_unlisted 500 never)).2)) as Hrun.
  { vm_compute. reflexivity. }
  split; [exact Hrun|]. split; [by vm_compute|].
  exact (proj1 (IsOwnedByUser_agrees_with_Create _ _ _ _ _ Hrun)).
Defined.

Lemma NFTRepository_Create_inv nft w r w' :
  NFTRepository.Create nft w = (r, w') →
  (r = Fail driver_error ∧ db w' = db w) ∨
  (∃ n, r = Ok n ∧
     (nft_ID nft ≠ "" → nft_ID n = nft_ID nft) ∧
     n = set_nft_UpdatedAt (nft_UpdatedAt n)
           (set_nft_CreatedAt (nft_CreatedAt n) (set_nft_ID (nft_ID n) nft)) ∧
     (nft_ID n ∉ nft_ID <$> nfts (db w)) ∧
     nft_WalletID n ∈ wallet_ID <$> wallets (db w) ∧
     db w' = set_nfts (nfts (db w) ++ [NFTRepository.nft_row n]) (db w)).
Proof.
  unfold NFTRepository.Create.
  intros [(e & Hid & ->)|(id & w1 & Hid & H1)]%bind_inv.
  { case_decide; [apply uuid_New_inv in Hid as [? _]|unfold ret in Hid];
      simplify_eq. }
  assert (db w1 = db w ∧ (nft_ID nft ≠ "" → id = nft_ID nft)) as [Hd1 Hkeep].
  { case_decide; [apply uuid_New_inv in Hid as [? ?]|unfold ret in Hid];
      by simplify_eq. }
  rewrite bind_time_Now in H1.
  apply bind_inv in H1 as [(e & Hex & ->)|([] & w2 & Hex & Hret)];
    apply Exec_inv in Hex as [[? Hd2]|[? Hins]]; simplify_eq.
  { left. split; [done|]. simpl in Hd2. congruence. }
  unfold ret in Hret. simplify_eq. right. eexists. split; [done|].
  simpl db in Hins. rewrite Hd1 in Hins.
  unfold NFTRepository.INSERT_nft in Hins.
  destruct (_ && _) eqn:Hchk in Hins; [|done].
  apply andb_prop in Hchk as [Hpk%bool_decide_eq_true Hfk%bool_decide_eq_true].
  simplify_eq. simpl in *. split_and!; try done.
Qed.

(** X26.  [ImportOrdinal] panics on an inscription identifier of fewer
    than 8 bytes, at the slice of the title and before anything is saved,
    and on no other.  For an identifier of 8 bytes or more it returns:
    either the wrapped error of the storage, and the tables are as they
    were; or the NFT, for that wallet and inscription, titled "Ordinal #"
    followed by the first 8 bytes, with no auction, which is then the one
    new row at the end of the NFT table, under an identifier that was not
    in the table and for a wallet that is. *)
Theorem ImportOrdinal_short_id_panics walletID inscriptionID w :
  ((String.length inscriptionID < 8)%nat →
   ∃ msg, ImportOrdinal walletID inscriptionID w = handlers.Panic msg) ∧
  ((8 ≤ String.length inscriptionID)%nat →
   ∃ r w', ImportOrdinal walletID inscriptionID w = handlers.Done (r, w') ∧
     match r with
     | inl (failed_to_import_ordinal err) =>
         err = driver_error ∧ db w' = db w
     | inr nft =>
         nft_WalletID nft = walletID ∧
         nft_InscriptionID nft = inscriptionID ∧
         nft_Title nft = "Ordinal #" +:+ String.substring 0 8 inscriptionID ∧
         nft_AuctionID nft = None ∧
         (nft_ID nft ∉ nft_ID <$> nfts (db w)) ∧
         walletID ∈ wallet_ID <$> wallets (db w) ∧
         db w' = set_nfts (nfts (db w) ++ [nft]) (db w)
     end).
Proof.
  unfold ImportOrdinal. split; intros Hlen.
  - rewrite decide_True by done. eauto.
  - rewrite decide_False by lia. unfold Create.
    destruct (NFTRepository.Create _ w) as [[n|e] w'] eqn:Hrun;
      eexists _, w'; (split; [done|]);
      apply NFTRepository_Create_inv in Hrun
        as [[? Hdb]|(n' & ? & _ & Hn & Hpk & Hfk & Hdb)]; simplify_eq.
    + rewrite Hn in Hfk |- *. simpl in *. split_and!; try done.
      by rewrite Hn in Hdb.
    + done.
Qed.

Lemma ImportOrdinal_short_id_panics_witness :
  (∃ msg, ImportOrdinal "ws" "abc" (market_world market 500 never)
          = handlers.Panic msg) ∧
  (∃ r w', ImportOrdinal "ws" "inscription"
             (market_world market 500 never) = handlers.Done (r, w') ∧
           (nft_Title <$> nfts (db w')) = ["title"; "Ordinal #inscript"]).
Proof.
  destruct (ImportOrdinal_short_id_panics "ws" "abc"
              (market_world market 500 never)) as [Hshort _].
  split; [apply Hshort; simpl; lia|].
  eexists _, _. split; by vm_compute.
Defined.

End NFTService_properties.

(** ** The hub: a broadcast to all *)

Section hub_broadcast.
Import handlers.
#[local] Set Warnings "-clear-no-such-hyp".

Lemma Run_broadcast_body_inv message client h h' :
  Run_broadcast_body message client h = Done h' →
  auctionClients h' = auctionClients h ∧
  (∀ c, c ≠ client →
     memory h' !! c = memory h !! c ∧ (c ∈ clients h' ↔ c ∈ clients h)) ∧
  ∃ d, memory h !! client = Some d ∧ closed (send d) = false ∧
    if decide (length (buf (send d)) < cap (send d))%nat
    then memory h' !! client
           = Some (mkClient (mkChan (buf (send d) ++ [message])
                                    (cap (send d)) false) (userID d)) ∧
         (client ∈ clients h' ↔ client ∈ clients h)
    else memory h' !! client
           = Some (mkClient (mkChan (buf (send d)) (cap (send d)) true)
                            (userID d)) ∧
         (client ∉ clients h').
Proof.
  unfold Run_broadcast_body, select_send, close.
  destruct (memory h !! client) as [d|] eqn:Hd; [|done].
  destruct (closed (send d)) eqn:Hcl; [done|].
  case_decide as Hroom; intros [= <-].
  - split_and!.
    + done.
    + intros c Hc. by rewrite memory_set_send, decide_False.
    + exists d. split_and!; try done. rewrite decide_True by done.
      by rewrite memory_set_send, decide_True, Hd.
  - split_and!.
    + done.
    + intros c Hc. simpl. rewrite lookup_alter_ne by done.
      split; [done|]. rewrite elem_of_difference, not_elem_of_singleton.
      naive_solver.
    + exists d. split_and!; try done. rewrite decide_False by done.
      simpl. rewrite lookup_alter_eq, Hd. split; [done|].
      rewrite elem_of_difference, not_elem_of_singleton. naive_solver.
Qed.

Lemma range_Run_broadcast_body_inv message l h h' :
  NoDup l →
  range (Run_broadcast_body message) l h = Done h' →
  auctionClients h' = auctionClients h ∧
  (∀ c, c ∉ l →
     memory h' !! c = memory h !! c ∧ (c ∈ clients h' ↔ c ∈ clients h)) ∧
  (∀ c, c ∈ l →
     ∃ d, memory h !! c = Some d ∧ closed (send d) = false ∧
       if decide (length (buf (send d)) < cap (send d))%nat
       then memory h' !! c
              = Some (mkClient (mkChan (buf (send d) ++ [message])
                                       (cap (send d)) false) (userID d)) ∧
            (c ∈ clients h' ↔ c ∈ clients h)
       else memory h' !! c
              = Some (mkClient (mkChan (buf (send d)) (cap (send d)) true)
                               (userID d)) ∧
            (c ∉ clients h')).
Proof.
  revert h. induction l as [|client l IH]; intros h Hnd; simpl.
  { intros [= <-]. split_and!; try done. by intros c ?%elem_of_nil. }
  apply NoDup_cons in Hnd as [Hnotin Hnd].
  destruct (Run_broadcast_body _ client h) as [h1|] eqn:Hbody; [|done].
  intros Hrange.
  apply Run_broadcast_body_inv in Hbody
    as (Hac1 & Hother1 & d & Hd & Hcl & Hclient).
  destruct (IH h1 Hnd Hrange) as (Hac & Hother & Hl).
  split_and!.
  - congruence.
  - intros c [Hne Hc]%not_elem_of_cons.
    destruct (Hother c Hc) as [-> ->]. by apply Hother1.
  - intros c [->|Hc]%elem_of_cons.
    + exists d. split_and!; try done.
      destruct (Hother client Hnotin) as [Hmem Hin].
      case_decide; destruct Hclient as [Hm Hi]; rewrite Hmem;
        (split; [done|]); by rewrite Hin.
    + assert (c ≠ client) as Hne by (by intros ->).
      destruct (Hother1 c Hne) as [Hmem Hin].
      destruct (Hl c Hc) as (d' & Hd' & Hcl' & Hc').
      exists d'. rewrite <- Hmem. split_and!; try done.
      case_decide; destruct Hc' as [Hm Hi]; (split; [done|]);
        [by rewrite Hi|done].
Qed.

(** X29.  What a broadcast to all does when [Run] returns from it.  The
    subscriptions are untouched, and so is every session that is not
    registered.  Every registered session had an open channel; one with
    room in its buffer has the message appended at the end of the buffer
    and stays registered; one whose buffer is full has its channel
    closed, with the buffer as it was, and is no longer registered. *)
Theorem Run_broadcast_delivers message h h' :
  Run (broadcast message) h = Done h' →
  auctionClients h' = auctionClients h ∧
  (∀ c, c ∉ clients h →
     memory h' !! c = memory h !! c ∧ (c ∉ clients h')) ∧
  (∀ c, c ∈ clients h →
     ∃ d, memory h !! c = Some d ∧ closed (send d) = false ∧
       if decide (length (buf (send d)) < cap (send d))%nat
       then memory h' !! c
              = Some (mkClient (mkChan (buf (send d) ++ [message])
                                       (cap (send d)) false) (userID d)) ∧
            (c ∈ clients h')
       else memory h' !! c
              = Some (mkClient (mkChan (buf (send d)) (cap (send d)) true)
                               (userID d)) ∧
            (c ∉ clients h')).
Proof.
  simpl. intros Hrange.
  apply range_Run_broadcast_body_inv in Hrange
    as (Hac & Hother & Hl); [|apply NoDup_elements].
  split_and!; [done| |].
  - intros c Hc.
    destruct (Hother c) as [Hmem Hin]; [by rewrite elem_of_elements|].
    split; [done|]. by rewrite Hin.
  - intros c Hc.
    destruct (Hl c) as (d & Hd & Hcl & Hres); [by rewrite elem_of_elements|].
    exists d. split_and!; try done.
    case_decide; [|done]. destruct Hres as [? Hin]. by rewrite Hin.
Qed.

Lemma Run_broadcast_delivers_witness :
  Run (broadcast "auction_update") one_session
    = Done (set_send session_1
              (mkChan [welcomeBytes; "auction_update"] 256 false)
              one_session) ∧
  (session_1 ∈ clients one_session) ∧
  ∃ d, memory one_session !! session_1 = Some d ∧ closed (send d) = false.
Proof.
  assert (Run (broadcast "auction_update") one_session
          = Done (set_send session_1
                    (mkChan [welcomeBytes; "auction_update"] 256 false)
                    one_session)) as Hrun by by vm_compute.
  assert (session_1 ∈ clients one_session) as Hin.
  { apply (bool_decide_unpack _). by vm_compute. }
  split; [exact Hrun|]. split; [exact Hin|].
  destruct (Run_broadcast_delivers _ _ _ Hrun) as (_ & _ & Hreg).
  destruct (Hreg session_1 Hin) as (d & Hd & Hcl & _).
  by exists d.
Defined.

End hub_broadcast.

(** ** Calls of [PlaceBid] that overlap *)

Section concurrent_calls.
Import AuctionRepository AuctionService ReadCommitted Concurrent.

(** [PlaceBid] is its checks followed by [CreateBid]. *)
Lemma PlaceBid_checks_CreateBid req userID w :
  PlaceBid req userID w = bind (PlaceBid_checks req userID) CreateBid w.
Proof.
  unfold PlaceBid, PlaceBid_checks, bind, fail, ret.
  repeat (case_match; simplify_eq; try done).
Qed.

Lemma CreateBid_Ok_begin bid w b w' :
  CreateBid bid w = (Ok b, w') →
  ∃ tx w1, CreateBid_begin bid w = (Ok (mkSession b tx at_INSERT), w1) ∧
    db w1 = db w ∧
    is_Some (INSERT_bid b (db w)) ∧
    SELECT_current_bid (bid_AuctionID b) (db w) ≠ [] ∧
    db w' = committed_bid tx b (db w).
Proof.
  unfold CreateBid. intros (Hf & w1 & Hfn & Hf1 & ->)%Transaction_Ok_inv.
  exists (mkTx (clock w (reads w))).
  unfold CreateBid_begin.
  unfold bind at 1, driver_call at 1. rewrite Hf.
  rewrite bind_time_Now. cbv beta zeta.
  change (clock (next_call w) (reads (next_call w))) with (clock w (reads w)).
  apply bind_inv in Hfn as [(e & Hfn & ?)|(id & w2 & Hid & Hfn)]; [done|].
  rewrite (bind_Ok _ _ _ _ _ Hid).
  assert (db w2 = db w) as Hd2.
  { destruct (decide (bid_ID bid = "")); unfold uuid_New, ret in Hid;
      by simplify_eq. }
  rewrite bind_time_Now in Hfn. rewrite bind_time_Now. cbv beta zeta in *.
  set (b0 := set_bid_CreatedAt (clock w2 (reads w2)) (set_bid_ID id bid))
    in *.
  assert (b = b0 ∧ is_Some (INSERT_bid b0 (db w)) ∧
          SELECT_current_bid (bid_AuctionID b0) (db w) ≠ [] ∧
          db w1 = committed_bid (mkTx (clock w (reads w))) b0 (db w))
    as (-> & Hins & Hsel & Hdb).
  { assert (bid_CreatedAt b0 = clock w2 (reads w2)) as Hat by done.
    clearbody b0. minv.
    all: match goal with
         | H : INSERT_bid _ (db ?x) = Some _ |- _ =>
             assert (Hx : db x = db w) by (simpl in *; congruence);
             rewrite Hx in H;
             pose proof (INSERT_bid_Some _ _ _ H) as Hi
         end.
    all: match goal with
         | H : SELECT_current_bid _ _ = _ :: _ |- _ =>
             rewrite Hi, SELECT_current_bid_set_bids in H
         end.
    all: split_and!; try done; eauto; try congruence.
    all: unfold committed_bid.
    all: match goal with
         | H : SELECT_current_bid _ _ = _ :: _ |- _ => rewrite H
         end.
    all: match goal with H : is_highest _ _ = _ |- _ => rewrite H end.
    all: rewrite ?Hat; simpl in *; congruence. }
  eexists. split_and!; [unfold ret; reflexivity|done..].
Qed.

Lemma PlaceBid_checks_db req userID w r w' :
  PlaceBid_checks req userID w = (r, w') → db w' = db w.
Proof.
  unfold PlaceBid_checks.
  intros [(e & H & ->)|(a & w1 & H & H1)]%bind_inv;
    apply GetByID_inv in H as [Hd _]; [done|].
  minv; simpl in *; congruence.
Qed.

Lemma step_in_CreateBid s w :
  step 0 (w, [in_CreateBid s]) =
  (set_db (session_step [] s (db w)).1 w,
   [match s_stage (session_step [] s (db w)).2 with
    | committed => returned (Ok (s_bid (session_step [] s (db w)).2))
    | rolled_back e => returned (Fail e)
    | _ => in_CreateBid (session_step [] s (db w)).2
    end]).
Proof.
  unfold step. simpl. by destruct (session_step [] s (db w)).
Qed.

(** A call that runs alone does what [PlaceBid] does: when [PlaceBid]
    returns a bid, the call returns that bid and commits the same
    tables. *)
Lemma call_alone req userID w b w' :
  PlaceBid req userID w = (Ok b, w') →
  (run [0; 0; 0; 0; 0]%nat (w, [arrived req userID])).2
    = [returned (Ok b)] ∧
  db (run [0; 0; 0; 0; 0]%nat (w, [arrived req userID])).1 = db w'.
Proof.
  rewrite PlaceBid_checks_CreateBid.
  intros [(e & ? & ?)|(bid & w1 & Hchecks & Hcreate)]%bind_inv; [done|].
  pose proof (PlaceBid_checks_db _ _ _ _ _ Hchecks) as Hd1.
  apply CreateBid_Ok_begin in Hcreate
    as (tx & w2 & Hbegin & Hd2 & [d' Hins] & Hsel & ->).
  destruct (SELECT_current_bid (bid_AuctionID b) (db w1)) as [|cb rest]
    eqn:Hs; [done|clear Hsel].
  unfold run. cbn [foldl].
  assert (step 0 (w, [arrived req userID]) =
          (w2, [in_CreateBid (mkSession b tx at_INSERT)])) as ->.
  { unfold step. simpl. by rewrite (bind_Ok _ _ _ _ _ Hchecks), Hbegin. }
  assert (session_step [] (mkSession b tx at_INSERT) (db w1)
          = (db w1, mkSession b tx at_SELECT)) as E1.
  { unfold session_step. simpl. by rewrite Hins. }
  assert (session_step [] (mkSession b tx at_SELECT) (db w1)
          = (db w1, mkSession b tx (at_UPDATE cb))) as E2.
  { unfold session_step. simpl. by rewrite Hs. }
  assert (session_step [] (mkSession b tx (at_UPDATE cb)) (db w1)
          = (db w1, mkSession b tx (at_Commit (is_highest b cb)))) as E3.
  { unfold session_step. simpl. by destruct (is_highest b cb). }
  assert (session_step [] (mkSession b tx (at_Commit (is_highest b cb)))
                       (db w1)
          = (committed_bid tx b (db w1), mkSession b tx committed)) as E4.
  { unfold session_step, committed_bid. simpl. rewrite Hs.
    by destruct (is_highest b cb). }
  rewrite step_in_CreateBid, Hd2, E1. cbn [fst snd s_stage db set_db].
  rewrite step_in_CreateBid. cbn [db set_db]. rewrite E2.
  cbn [fst snd s_stage db set_db].
  rewrite step_in_CreateBid. cbn [db set_db]. rewrite E3.
  cbn [fst snd s_stage db set_db].
  rewrite step_in_CreateBid. cbn [db set_db]. rewrite E4.
  cbn [fst snd s_stage s_bid db set_db]. done.
Qed.

(** C1.  Two calls of [PlaceBid] on auction a1 are in flight at once: u1
    bids 200000 and u2 bids 150000.  The auction has no bid yet, so its
    current bid is the maximum of the accepted amounts when they arrive.
    Both calls run their checks and read [current_bid] before either has
    committed; both return their bid without an error.  The first commit
    sets the current bid to 200000, the second lowers it to 150000: the
    current bid is then not the maximum of the accepted amounts, which
    are 200000 and 150000, and the sequence of its values has decreased.
    When the second call arrives after the first has returned it is
    refused, and the current bid stays 200000. *)
Theorem overlapping_bids_lower_current_bid :
  let st := (market_world market 500 never, two_bidders) in
  let first_committed := run (take 8 overlapping) st in
  let final := run overlapping st in
  highest_bid_invariant "a1" market ∧
  final.2 =
    [returned (Ok (mkBid "bid-0" "a1" "u1" "w1" 200000 500 true None));
     returned (Ok (mkBid "bid-1" "a1" "u2" "w2" 150000 500 true None))] ∧
  accepted_amounts "a1" (db final.1) = [200000; 150000] ∧
  CurrentBid <$> auctions (db first_committed.1) = [Some 200000] ∧
  CurrentBid <$> auctions (db final.1) = [Some 150000] ∧
  ¬ is_maximum 150000 (accepted_amounts "a1" (db final.1)) ∧
  ¬ current_bid_le (Some 200000) (Some 150000) ∧
  (run in_turn st).2 =
    [returned (Ok (mkBid "bid-0" "a1" "u1" "w1" 200000 500 true None));
     returned (Fail BidNotAboveCurrent)] ∧
  CurrentBid <$> auctions (db (run in_turn st).1) = [Some 200000].
Proof.
  intros st first_committed final.
  assert (accepted_amounts "a1" (db final.1) = [200000; 150000]) as Hacc.
  { by vm_compute. }
  split_and!; try by vm_compute.
  - intros a Ha _. apply list_elem_of_singleton in Ha as ->. reflexivity.
  - rewrite Hacc. intros [_ Hmax]. specialize (Hmax 200000).
    assert (200000 ≤ 150000); [|lia].
    apply Hmax, elem_of_cons. by left.
Qed.

End concurrent_calls.

(** ** [FinalizeAuction] at the instant the auction ends *)

Section FinalizeAuction_at_EndTime.
Import AuctionRepository AuctionService.

(** C6.  At the instant the clock reads exactly the end time the auction
    has ended -- the query of the reaper lists it, and the sweep of the
    reaper at that instant cancels the auction without a bid -- yet
    [FinalizeAuction] does not take either branch: on the auction without
    a bid it returns [NotEnded] for every caller and leaves the auction
    active, where the claim has it cancelled; on the auction with the
    winning bid of u2 it returns [NotEnded] for every caller, where
    the claim has [Unauthorized] for the callers other than u2 and
    the completed auction for u2.  One instant later the auction without
    a bid is cancelled for every caller, and on the auction with the
    winning bid u1 gets [Unauthorized]. *)
Theorem FinalizeAuction_takes_no_branch_at_EndTime :
  let req := mkFinalizeAuctionRequest "a1" "signature" in
  let no_bid := market_world market 1000 never in
  let with_bid := market_world market_with_bids 1000 never in
  (Status (loaded_a1 no_bid) = AuctionStatusActive ∧
   EndTime (loaded_a1 no_bid) = 1000 ∧
   BuyNowPrice (loaded_a1 no_bid) = None ∧
   no_winning_bid (loaded_a1 no_bid) ∧
   (GetEndedAuctions no_bid).1 = Ok (auctions market) ∧
   Status <$> auctions (db (ProcessEndedAuctions no_bid).2)
     = [AuctionStatusCancelled] ∧
   ∀ userID,
     (FinalizeAuction req userID no_bid).1 = Fail NotEnded ∧
     Status <$> auctions (db (FinalizeAuction req userID no_bid).2)
       = [AuctionStatusActive] ∧
     (FinalizeAuction req userID (market_world market 1001 never)).1
       = Ok (set_Status AuctionStatusCancelled
               (loaded_a1 (market_world market 1001 never))) ∧
     Status <$> auctions
       (db (FinalizeAuction req userID (market_world market 1001 never)).2)
       = [AuctionStatusCancelled]) ∧
  (Status (loaded_a1 with_bid) = AuctionStatusActive ∧
   EndTime (loaded_a1 with_bid) = 1000 ∧
   CurrentBidderID (loaded_a1 with_bid) = Some "u2" ∧
   ¬ no_winning_bid (loaded_a1 with_bid) ∧
   (GetEndedAuctions with_bid).1 = Ok (auctions market_with_bids) ∧
   (∀ userID, (FinalizeAuction req userID with_bid).1 = Fail NotEnded) ∧
   (FinalizeAuction req "u1" (market_world market_with_bids 1001 never)).1
     = Fail Unauthorized).
Proof.
  intros req no_bid with_bid. split; split_and!; try by vm_compute.
  - left. by vm_compute.
  - intros [H|[H|(cb & reserve & _ & H & _)]]; vm_compute in H; discriminate.
Qed.

End FinalizeAuction_at_EndTime.

(** ** A storage failure during the sweep of the reaper *)

Section sweep_failure.
Import AuctionRepository AuctionService.

Lemma Forall2_impl_elem_of_both {A B} (R Q : A → B → Prop) l k :
  Forall2 R l k → (∀ x y, x ∈ l → y ∈ k → R x y → Q x y) → Forall2 Q l k.
Proof.
  induction 1 as [|x y l k HR _ IH]; intros HQ; constructor.
  - apply HQ; [by left|by left|done].
  - apply IH. intros ?????. apply HQ; [by right|by right|done].
Qed.

(** A run of the loop that returns an error has resolved a prefix of the
    list and failed in [CompleteAuction] on the next auction. *)
Lemma ProcessEndedAuctions_range_split l w e w' :
  ProcessEndedAuctions_range l w = (Fail e, w') →
  ∃ (resolved : list Auction) failing rest w1,
    l = (resolved ++ failing :: rest)%list ∧
    no_winning_bid failing ∧
    ProcessEndedAuctions_range resolved w = (Ok (), w1) ∧
    CompleteAuction (ID failing) AuctionStatusCancelled w1 = (Fail e, w').
Proof.
  revert w. induction l as [|x l IH]; intros w Hrun; [done|].
  destruct (no_winning_bid_dec x) as [Hno|Hwin].
  - rewrite ProcessEndedAuctions_range_cancel in Hrun by done.
    apply bind_inv in Hrun as [(e' & Hc & ?)|([] & w1 & Hc & Hrest)].
    + simplify_eq. by exists [], x, l, w.
    + destruct (IH _ Hrest)
        as (resolved & failing & rest & w2 & -> & ? & Hres & ?).
      exists (x :: resolved), failing, rest, w2. split_and!; try done.
      rewrite ProcessEndedAuctions_range_cancel by done.
      by rewrite (bind_Ok _ _ _ _ _ Hc).
  - rewrite ProcessEndedAuctions_range_skip in Hrun by done.
    destruct (IH _ Hrun)
      as (resolved & failing & rest & w2 & -> & ? & Hres & ?).
    exists (x :: resolved), failing, rest, w2. split_and!; try done.
    by rewrite ProcessEndedAuctions_range_skip.
Qed.

Lemma NoDup_ID_ended now l :
  NoDup (ID <$> l) →
  NoDup (ID <$> (scan <$> merge_sort end_time_ASC
                   (filter (λ a, Status a = AuctionStatusActive
                                 ∧ EndTime a ≤ now) l))).
Proof.
  intros Hnd. rewrite <- list_fmap_compose.
  rewrite merge_sort_Permutation.
  eapply sublist_NoDup; [exact Hnd|].
  exact (fmap_sublist ID _ _ (sublist_filter _ l)).
Qed.

(** C8, as stated, fails.  The claim, for a sweep during which the driver
    fails at most once: apart from one auction, the one that met the
    failure, every auction of the list whose cancellation conditions hold
    is cancelled afterwards.  In the sweep over the two ended auctions
    without bids of [market_two], with a driver that fails once, at the
    BEGIN of the first cancellation, neither auction is cancelled. *)
Lemma sweep_aborted_by_StorageFailure :
  ¬ (∀ w l w0 r w',
       (∀ m n, fault w m = true → fault w n = true → m = n) →
       GetEndedAuctions w = (Ok l, w0) →
       ProcessEndedAuctions w = (r, w') →
       ∃ failing : Auction,
         ∀ y a', y ∈ l → ID y ≠ ID failing → no_winning_bid y →
                 a' ∈ auctions (db w') → ID a' = ID y →
                 Status a' = AuctionStatusCancelled).
Proof.
  intros H.
  destruct (H (market_world market_two 3000 second_call_fails)
              (auctions market_two)
              (GetEndedAuctions
                 (market_world market_two 3000 second_call_fails)).2
              (Fail driver_error)
              (ProcessEndedAuctions
                 (market_world market_two 3000 second_call_fails)).2)
    as [failing Hrest].
  - intros m n Hm%bool_decide_eq_true Hn%bool_decide_eq_true. congruence.
  - vm_compute. reflexivity.
  - vm_compute. reflexivity.
  - assert (auctions (db (ProcessEndedAuctions
                            (market_world market_two 3000
                                          second_call_fails)).2)
            = auctions market_two) as Hsame by by vm_compute.
    rewrite Hsame in Hrest. clear H Hsame.
    destruct (decide (ID failing = "a1")) as [Heq|Hne].
    + assert (AuctionStatusActive = AuctionStatusCancelled); [|done].
      apply (Hrest (mkAuction "a2" "n2" "ws" 100000 None None None None 0
                              2000 AuctionStatusActive "psbt" 0 0 None [])
                   (mkAuction "a2" "n2" "ws" 100000 None None None None 0
                              2000 AuctionStatusActive "psbt" 0 0 None []));
        try done.
      * apply elem_of_cons. right. apply elem_of_cons. by left.
      * rewrite Heq. done.
      * by left.
      * apply elem_of_cons. right. apply elem_of_cons. by left.
    + assert (AuctionStatusActive = AuctionStatusCancelled); [|done].
      apply (Hrest market_auction market_auction); try done.
      * apply elem_of_cons. by left.
      * by left.
      * apply elem_of_cons. by left.
Qed.

Lemma ProcessEndedAuctions_range_app l1 l2 w :
  ProcessEndedAuctions_range (l1 ++ l2) w =
  bind (ProcessEndedAuctions_range l1)
       (λ _, ProcessEndedAuctions_range l2) w.
Proof.
  revert w. induction l1 as [|x l1 IH]; intros w; [done|].
  rewrite <- app_comm_cons.
  destruct (no_winning_bid_dec x) as [Hno|Hwin].
  - rewrite ProcessEndedAuctions_range_cancel by done.
    unfold bind. rewrite ProcessEndedAuctions_range_cancel by done.
    unfold bind.
    destruct (CompleteAuction _ _ w) as [[[]|e] w1]; [|done].
    by rewrite IH.
  - rewrite ProcessEndedAuctions_range_skip, IH by done.
    unfold bind. by rewrite ProcessEndedAuctions_range_skip.
Qed.

(** C8, amended.  A storage failure ends the sweep at once.  Take a table
    whose auction identifiers are distinct and a sweep whose query has
    returned the list of the ended auctions; every auction of the list is
    a row of the table that was active and had ended.  When the loop has
    gone through the auctions [resolved] and the cancellation of the next
    auction of the list fails, [ProcessEndedAuctions] returns that error,
    which is a storage failure, and the tables are those of a sweep that
    resolved [resolved] and did not come to the failing auction nor to
    the rest: the rows of the resolved auctions that had no winning bid
    are cancelled, every other row is exactly as it was, and the failing
    auction and every auction after it in the list are still active,
    whether or not their cancellation conditions hold.  And every error
    that [ProcessEndedAuctions] returns after the query arises in this
    way. *)
Theorem ProcessEndedAuctions_stops_at_first_failure w l w0 :
  NoDup (ID <$> auctions (db w)) →
  GetEndedAuctions w = (Ok l, w0) →
  (∀ y, y ∈ l →
     ∃ a, a ∈ auctions (db w) ∧ y = scan a ∧
          Status a = AuctionStatusActive ∧
          EndTime a ≤ clock w (reads w)) ∧
  (∀ (resolved : list Auction) failing rest w1 e w',
     l = (resolved ++ failing :: rest)%list →
     no_winning_bid failing →
     ProcessEndedAuctions_range resolved w0 = (Ok (), w1) →
     CompleteAuction (ID failing) AuctionStatusCancelled w1 = (Fail e, w') →
     ProcessEndedAuctions w = (Fail e, w') ∧
     StorageFailure e ∧
     swept resolved (failing :: rest) (db w) (db w')) ∧
  (∀ e w',
     ProcessEndedAuctions w = (Fail e, w') →
     ∃ (resolved : list Auction) failing rest w1,
       l = (resolved ++ failing :: rest)%list ∧
       no_winning_bid failing ∧
       ProcessEndedAuctions_range resolved w0 = (Ok (), w1) ∧
       CompleteAuction (ID failing) AuctionStatusCancelled w1
         = (Fail e, w')).
Proof.
  intros Hnd Hget.
  assert (∀ r w', ProcessEndedAuctions w = (r, w') ↔
                  ProcessEndedAuctions_range l w0 = (r, w')) as Hsweep.
  { intros r w'. unfold ProcessEndedAuctions.
    by rewrite (bind_Ok _ _ _ _ _ Hget). }
  apply GetEndedAuctions_inv in Hget as [Hd0 [?|[= Hl]]]; [done|].
  assert (∀ y, y ∈ l →
            ∃ a, a ∈ auctions (db w) ∧ y = scan a ∧
                 Status a = AuctionStatusActive ∧
                 EndTime a ≤ clock w (reads w)) as Hrows.
  { intros y Hy. rewrite Hl in Hy.
    apply list_elem_of_fmap in Hy as (a & -> & Ha0).
    rewrite merge_sort_Permutation in Ha0.
    apply list_elem_of_filter in Ha0 as [[? ?] ?]. by exists a. }
  assert (NoDup (ID <$> l)) as Hndl.
  { rewrite Hl. by apply NoDup_ID_ended. }
  split; [done|]. split.
  - intros resolved failing rest w1 e w' Hsplit Hno Hres Hfail.
    split.
    { apply Hsweep. rewrite Hsplit, ProcessEndedAuctions_range_app.
      rewrite (bind_Ok _ _ _ _ _ Hres).
      by apply ProcessEndedAuctions_range_stops. }
    apply CompleteAuction_inv in Hfail
      as [(e' & [= <-] & HS & Hdb)|(tx & now & ? & _)]; [|done].
    split; [done|].
    apply ProcessEndedAuctions_range_inv in Hres
      as (Hu & Hw & Hb & Ha & Hn & Hok & _).
    rewrite Hd0 in Hu, Hw, Hb, Ha, Hn.
    rewrite <- Hdb in Hu, Hw, Hb, Ha, Hn, Hok.
    unfold swept. split_and!; try done.
    eapply Forall2_impl_elem_of_both; [exact Ha|].
    intros a a' Hin Hin' HR. split_and!.
    + intros (x & Hx & Hid & Hxno).
      destruct HR as [->|(_ & Hst & Hs)]; [|done].
      split; [|apply same_but_status_refl].
      by apply (Hok eq_refl x a).
    + intros Hnone. by destruct HR as [->|(? & _)].
    + intros y Hy Hid.
      destruct (Hrows y) as (a0 & Ha0 & -> & Hact & _).
      { rewrite Hsplit. apply elem_of_app. by right. }
      assert (a0 = a) as ->
        by by apply (NoDup_fmap_elem_eq ID (auctions (db w))).
      split; [done|].
      destruct HR as [->|((x & Hx & Hxid & _) & _)]; [done|].
      rewrite Hsplit, fmap_app in Hndl.
      apply NoDup_app in Hndl as (_ & Hdisj & _).
      destruct (Hdisj (ID x)).
      * by apply list_elem_of_fmap_2.
      * rewrite Hxid, <- Hid. by apply list_elem_of_fmap_2.
  - intros e w' Hrun%Hsweep.
    by apply ProcessEndedAuctions_range_split in Hrun.
Qed.

(** The sweep over two ended auctions without bids, with a driver that
    fails at the BEGIN of the second cancellation: a1 is cancelled, a2 is
    still active, and the error is returned. *)
Lemma ProcessEndedAuctions_stops_at_first_failure_witness :
  NoDup (ID <$> auctions (db (market_world market_two 3000
                                           sixth_call_fails))) ∧
  GetEndedAuctions (market_world market_two 3000 sixth_call_fails)
    = (Ok (auctions market_two),
       (GetEndedAuctions (market_world market_two 3000
                                       sixth_call_fails)).2) ∧
  ProcessEndedAuctions (market_world market_two 3000 sixth_call_fails)
    = (Fail driver_error,
       (ProcessEndedAuctions (market_world market_two 3000
                                           sixth_call_fails)).2) ∧
  Status <$> auctions (db (ProcessEndedAuctions
                             (market_world market_two 3000
                                           sixth_call_fails)).2)
    = [AuctionStatusCancelled; AuctionStatusActive] ∧
  StorageFailure driver_error.
Proof.
  assert (NoDup (ID <$> auctions (db (market_world market_two 3000
                                                   sixth_call_fails))))
    as Hnodup.
  { apply (bool_decide_unpack _). by vm_compute. }
  assert (GetEndedAuctions (market_world market_two 3000 sixth_call_fails)
    = (Ok (auctions market_two),
       (GetEndedAuctions (market_world market_two 3000
                                       sixth_call_fails)).2)) as Hget.
  { vm_compute. reflexivity. }
  assert (ProcessEndedAuctions (market_world market_two 3000 sixth_call_fails)
    = (Fail driver_error,
       (ProcessEndedAuctions (market_world market_two 3000
                                           sixth_call_fails)).2)) as Hrun.
  { vm_compute. reflexivity. }
  split; [exact Hnodup|]. split; [exact Hget|]. split; [exact Hrun|].
  split; [by vm_compute|].
  destruct (ProcessEndedAuctions_stops_at_first_failure _ _ _ Hnodup Hget)
    as (_ & Hstops & Herror).
  destruct (Herror _ _ Hrun)
    as (resolved & failing & rest & w1 & Hsplit & Hno & Hres & Hfail).
  exact (proj1 (proj2 (Hstops _ _ _ _ _ _ Hsplit Hno Hres Hfail))).
Defined.

End sweep_failure.
